(** * laptop-spec-rag: the retrieval and query-routing engine

    A shallow embedding of [src/retriever.py], [src/query_analyzer.py],
    [src/data_loader.py], the routing part of [src/rag_engine.py] and
    [data_processing/build_kb.py], followed by the properties of hybrid
    search, top-k selection, QA scoping and intent routing.

    Modelling conventions.
    - Text is a [string] holding the UTF-8 bytes of the Python [str].
      Substring tests on the bytes agree with Python's on the characters,
      and [split] cuts at every character [str.split] treats as whitespace,
      the Unicode spaces included, read by their UTF-8 encoding.
    - [lower] and [upper] map the ASCII letters and leave every other byte
      alone. They agree with [str.lower] and [str.upper] on ASCII text and
      on text without case, such as CJK. The definitions of the engine apply
      them as the code does; a statement that relies on an identity of case
      mapping (for instance that upper-casing undoes lower-casing) is made
      for ASCII text only ([Text.is_ascii]), where it holds of Python too.
    - Scores and vector components are exact rationals ([Q]); the rounding
      of float32/float64 arithmetic is not represented.
    - [np.linalg.norm] is a parameter of the development ([linalg_norm]).
    - [np.argsort] is a parameter of the development ([np_argsort]), known
      only by NumPy's contract ([argsort_contract]): it returns the indices
      of the array in an order along which the values do not decrease. The
      order of equal values is not fixed by NumPy's default sort kind.
      [argsort], the insertion sort that keeps equal values in index order,
      is one function that meets the contract, and the examples run on it;
      [argsort_ties_descending] is another, with the opposite tie order.
    - Calls to the embedding model are recorded in a trace, and Python
      exceptions are an explicit outcome ([Raise]). *)

From Stdlib Require Import ZArith QArith Qminmax String Ascii List Lia Bool.
From stdpp Require Import base option list strings gmap sorting.

Open Scope string_scope.
Open Scope list_scope.

(** ** Text: the [str] methods the engine uses *)

Module Text.

Definition is_upper (c : ascii) : bool :=
  let n := N_of_ascii c in (65 <=? n)%N && (n <=? 90)%N.

Definition is_lower (c : ascii) : bool :=
  let n := N_of_ascii c in (97 <=? n)%N && (n <=? 122)%N.

Definition lower_char (c : ascii) : ascii :=
  if is_upper c then ascii_of_N (N_of_ascii c + 32) else c.

Definition upper_char (c : ascii) : ascii :=
  if is_lower c then ascii_of_N (N_of_ascii c - 32) else c.

(** [s.lower()] *)
Fixpoint lower (s : string) : string :=
  match s with
  | EmptyString => EmptyString
  | String c s' => String (lower_char c) (lower s')
  end.

(** [s.upper()] *)
Fixpoint upper (s : string) : string :=
  match s with
  | EmptyString => EmptyString
  | String c s' => String (upper_char c) (upper s')
  end.

(** [needle in hay] on strings: substring containment. *)
Fixpoint contains (hay needle : string) : bool :=
  String.prefix needle hay ||
  match hay with
  | EmptyString => false
  | String _ hay' => contains hay' needle
  end.

(** The one-byte characters [str.split()] treats as separators:
    U+0009..U+000D, U+001C..U+001F and the space. *)
Definition is_space (c : ascii) : bool :=
  let n := N_of_ascii c in
  ((9 <=? n)%N && (n <=? 13)%N) || ((28 <=? n)%N && (n <=? 32)%N).

(** The number of bytes of the whitespace character that starts [s], or 0
    when [s] does not start with one. Besides the one-byte separators,
    [str.split()] cuts at U+0085, U+00A0 (C2 85, C2 A0), U+1680 (E1 9A 80),
    U+2000..U+200A, U+2028, U+2029, U+202F (E2 80 80..8A, A8, A9, AF),
    U+205F (E2 81 9F) and U+3000 (E3 80 80). *)
Definition space_width (s : string) : nat :=
  match s with
  | EmptyString => 0
  | String c0 rest =>
      if is_space c0 then 1
      else
        let b0 := N_of_ascii c0 in
        match rest with
        | String c1 rest' =>
            let b1 := N_of_ascii c1 in
            if (b0 =? 194)%N then
              (if (b1 =? 133)%N || (b1 =? 160)%N then 2 else 0)
            else
              match rest' with
              | String c2 _ =>
                  let b2 := N_of_ascii c2 in
                  if (b0 =? 225)%N && (b1 =? 154)%N && (b2 =? 128)%N then 3
                  else if (b0 =? 226)%N && (b1 =? 128)%N
                          && (((128 <=? b2)%N && (b2 <=? 138)%N)
                              || (b2 =? 168)%N || (b2 =? 169)%N || (b2 =? 175)%N)
                  then 3
                  else if (b0 =? 226)%N && (b1 =? 129)%N && (b2 =? 159)%N then 3
                  else if (b0 =? 227)%N && (b1 =? 128)%N && (b2 =? 128)%N then 3
                  else 0
              | EmptyString => 0
              end
        | EmptyString => 0
        end
  end.

(** The scan of [s.split()]: [cur] is the token read so far, and [skip]
    counts the bytes still to pass of a whitespace character. *)
Fixpoint split_from (skip : nat) (cur : string) (s : string) : list string :=
  match s with
  | EmptyString => if decide (cur = "") then [] else [cur]
  | String c s' =>
      match skip with
      | S n => split_from n cur s'
      | O =>
          match space_width s with
          | O => split_from 0 (cur +:+ String c "") s'
          | S n =>
              if decide (cur = "") then split_from n "" s'
              else cur :: split_from n "" s'
          end
      end
  end.

(** [s.split()]: the maximal runs of non-whitespace characters. *)
Definition split (s : string) : list string := split_from 0 "" s.

(** [s.split(sep)] for a one-character separator: never empty. *)
Fixpoint split_on (sep : ascii) (s : string) : list string :=
  match s with
  | EmptyString => [""]
  | String c s' =>
      if decide (c = sep) then "" :: split_on sep s'
      else match split_on sep s' with
           | [] => [String c ""]
           | t :: ts => String c t :: ts
           end
  end.

(** [sep.join(parts)] *)
Fixpoint join (sep : string) (parts : list string) : string :=
  match parts with
  | [] => ""
  | [p] => p
  | p :: ps => p +:+ sep +:+ join sep ps
  end.

(** [s.replace(a, b)] for a one-character [a]. *)
Fixpoint replace_char (a : ascii) (b : string) (s : string) : string :=
  match s with
  | EmptyString => EmptyString
  | String c s' =>
      (if decide (c = a) then b else String c "") +:+ replace_char a b s'
  end.

Definition newline : string := String (ascii_of_N 10) "".

(** [s.isascii()]: every byte is below 128. On such text [lower] and
    [upper] are [str.lower] and [str.upper]. *)
Definition is_ascii (s : string) : bool :=
  forallb (fun c => (N_of_ascii c <? 128)%N) (list_ascii_of_string s).

End Text.

(** ** Numbers and sequences: the NumPy and list operations *)

Definition vec := list Q.

(** [np.dot(u, v)] on two 1-D arrays. *)
Fixpoint dot (u v : vec) : Q :=
  match u, v with
  | x :: u', y :: v' => (x * y + dot u' v')%Q
  | _, _ => 0%Q
  end.

(** What NumPy promises of [np.argsort] on a 1-D array: the result lists
    every index once, in an order along which the values do not decrease.
    Nothing is promised about the order of equal values. *)
Definition argsort_contract (np_argsort : list Q -> list nat) : Prop :=
  forall a,
    np_argsort a ≡ₚ seq 0 (length a)
    /\ StronglySorted (fun i j => (nth i a 0 <= nth j a 0)%Q) (np_argsort a).


(** One function that meets the contract, the insertion sort: insert index
    [i] in front of the first index whose value is not smaller, so equal
    values stay in index order. *)
Fixpoint insert_index (a : list Q) (i : nat) (l : list nat) : list nat :=
  match l with
  | [] => [i]
  | j :: l' =>
      if Qle_bool (nth i a 0%Q) (nth j a 0%Q) then i :: l
      else j :: insert_index a i l'
  end.

Definition argsort (a : list Q) : list nat :=
  foldr (insert_index a) [] (seq 0 (length a)).

(** Another function that meets the contract: index [i] goes behind every
    index whose value is not larger, so equal values end in descending index
    order. *)
Fixpoint insert_index_behind (a : list Q) (i : nat) (l : list nat) : list nat :=
  match l with
  | [] => [i]
  | j :: l' =>
      if Qle_bool (nth j a 0%Q) (nth i a 0%Q) then j :: insert_index_behind a i l'
      else i :: l
  end.

Definition argsort_ties_descending (a : list Q) : list nat :=
  foldr (insert_index_behind a) [] (seq 0 (length a)).

(** [l[:k]] with Python's reading of a negative bound. *)
Definition slice_to {A} (k : Z) (l : list A) : list A :=
  if (0 <=? k)%Z then take (Z.to_nat k) l
  else take (length l - Z.to_nat (- k)) l.

(** [np.argsort(scores)[::-1][:top_k]] *)
Definition top_indices_of (np_argsort : list Q -> list nat)
    (scores : list Q) (top_k : Z) : list nat :=
  slice_to top_k (reverse (np_argsort scores)).

(** ** Outcomes: a result or a raised exception, with the embedder calls *)

Inductive exn := TypeError | IndexError | ValueError.

Inductive outcome (A : Type) :=
  | Ok (a : A)
  | Raise (e : exn).
Arguments Ok {A} a.
Arguments Raise {A} e.

Inductive event := EvEmbed (text : string).

Definition M (A : Type) : Type := outcome A * list event.

Definition ret {A} (a : A) : M A := (Ok a, []).
Definition raise {A} (e : exn) : M A := (Raise e, []).

Definition bind {A B} (m : M A) (f : A -> M B) : M B :=
  match m with
  | (Ok a, t) => let '(r, t') := f a in (r, t ++ t')
  | (Raise e, t) => (Raise e, t)
  end.

Notation "'do' x <- m ; k" := (bind m (fun x => k))
  (at level 10, x name, m at level 100, k at level 200).
Notation "'do' ' p <- m ; k" := (bind m (fun p => k))
  (at level 10, p pattern, m at level 100, k at level 200).

(** A comprehension whose body may raise. *)
Fixpoint for_each {A B} (f : A -> M B) (l : list A) : M (list B) :=
  match l with
  | [] => ret []
  | x :: l' => do y <- f x; do ys <- for_each f l'; ret (y :: ys)
  end.

(** [l[i]] for a non-negative index. *)
Definition item {A} (l : list A) (i : nat) : M A :=
  match l !! i with
  | Some x => ret x
  | None => raise IndexError
  end.

(** The elements of [l] at the positions [idxs]. *)
Definition pick {A} (l : list A) (idxs : list nat) : list A :=
  omap (fun i => l !! i) idxs.

Definition trace_of {A} (m : M A) : list event := snd m.
Definition result_of {A} (m : M A) : outcome A := fst m.

(** ** Data model ([src/models.py]) *)

Record Chunk := { content : string; metadata : gmap string string }.

Record QAItem := { question : string; answer : string; product_name : string }.

Global Instance Chunk_eq_dec : EqDecision Chunk.
Proof. solve_decision. Defined.

Global Instance QAItem_eq_dec : EqDecision QAItem.
Proof. solve_decision. Defined.

(** [c.metadata.get("key") == "Full Specs"] *)
Definition is_full_specs (c : Chunk) : bool :=
  bool_decide (metadata c !! "key" = Some "Full Specs").

(** ** The embedding model ([EmbeddingEngine]) *)

Record EmbeddingEngine := { create_embedding : string -> vec }.

(** [EmbeddingEngine.embed]: one call to the model, recorded in the trace. *)
Definition embed (self : EmbeddingEngine) (text : string) : M vec :=
  (Ok (create_embedding self text), [EvEmbed text]).

(** ** Query analysis ([src/query_analyzer.py]) *)

Module QueryFilter.

Definition GENERAL_SPEC_KEYWORDS : list string :=
  ["規格"; "specs"; "specifications"; "spec"; "配置";
   "筆電"; "laptop"; "電腦"; "computer"; "這台"; "這款"].

Definition PRODUCT_LIST_KEYWORDS : list string :=
  ["有哪些產品"; "甚麼產品"; "什麼產品"; "what products"; "list products";
   "available models"; "所有產品"; "all products"; "有哪幾台"; "有哪幾款"].

Definition COMPARISON_KEYWORDS : list string :=
  ["比較"; "差異"; "差別"; "不同"; "compare"; "comparison";
   "difference"; "vs"; "versus"; "產品"].

(** The loop shared by the three tests: the first keyword whose lower-cased
    form occurs in the lower-cased query answers [True]. *)
Fixpoint any_keyword (keywords : list string) (query_lower : string) : bool :=
  match keywords with
  | [] => false
  | keyword :: rest =>
      if Text.contains query_lower (Text.lower keyword) then true
      else any_keyword rest query_lower
  end.

Definition is_general_spec_query (query : string) : bool :=
  any_keyword GENERAL_SPEC_KEYWORDS (Text.lower query).

Definition is_product_list_query (query : string) : bool :=
  any_keyword PRODUCT_LIST_KEYWORDS (Text.lower query).

Definition is_comparison_query (query : string) : bool :=
  any_keyword COMPARISON_KEYWORDS (Text.lower query).

End QueryFilter.

(** ** The catalog ([src/data_loader.py]); entries follow the input format,
    so every key of a product and of a spec is present. *)

Record Spec := { category : string; key : string; value : string }.

Record Product := {
  product_id : string;
  p_product_name : string;
  specs : list Spec
}.

Module ProductNameExtractor.

Record t := {
  known_models : list (string * string);
  fallback_suffixes : option (list string)
}.

Definition init (product_list : option (list Product)) : t :=
  let known :=
    match product_list with
    | Some l => map (fun p => (product_id p, p_product_name p)) l
    | None => []
    end in
  {| known_models := known;
     fallback_suffixes := match known with
                          | [] => Some ["BXH"; "BYH"; "BZH"]
                          | _ => None
                          end |}.

(** [pid.split("-")[-1].upper()] *)
Definition suffix_of (pid : string) : string :=
  Text.upper (List.last (Text.split_on "-" pid) "").

(** The loop of lines 189-192. *)
Fixpoint scan_models (models : list (string * string)) (query_upper : string)
  : option string :=
  match models with
  | [] => None
  | (pid, pname) :: rest =>
      if Text.contains query_upper (suffix_of pid) then Some pid
      else scan_models rest query_upper
  end.

(** The loop of lines 196-198. *)
Fixpoint scan_fallback (suffixes : list string) (query_upper : string)
  : option string :=
  match suffixes with
  | [] => None
  | model :: rest =>
      if Text.contains query_upper model then Some model
      else scan_fallback rest query_upper
  end.

(** [ProductNameExtractor.extract] *)
Definition extract (self : t) (query : string) : option string :=
  let query_upper := Text.upper query in
  match scan_models (known_models self) query_upper with
  | Some pid => Some pid
  | None =>
      match fallback_suffixes self with
      | Some suffixes => scan_fallback suffixes query_upper
      | None => None
      end
  end.

End ProductNameExtractor.

Module ConvertSpec.

(** Category keywords appended to a chunk as search hints. *)
Definition CANONICAL_TO_KEYS : list (string * list string) :=
  [("gpu", ["GPU"; "Graphics"; "gaming"; "顯卡"; "顯示卡"; "遊戲"]);
   ("cpu", ["CPU"; "Processor"; "中央處理器"; "處理器"]);
   ("ram", ["RAM"; "Memory"; "記憶體"]);
   ("ssd", ["SSD"; "Storage"; "儲存裝置"; "硬碟"]);
   ("display", ["Screen"; "Display"; "HDMI"; "DP"; "顯示器"; "螢幕"]);
   ("battery", ["Battery"; "電池"]);
   ("ports", ["Ports"; "Connectivity"; "連接埠"; "I/O"; "USB"; "Thunderbolt"; "HDMI"]);
   ("wireless", ["Wireless"; "Networking"; "通訊"; "WiFi"]);
   ("audio", ["Audio"; "Speakers"; "音效"; "喇叭"]);
   ("dimensions", ["Dimensions"; "Physical"; "尺寸"]);
   ("weight", ["Weight"; "Physical"; "重量"])].

(** The test of line 97 for one keyword. *)
Definition kw_matches (search_terms : list string) (kw : string) : bool :=
  bool_decide (Text.lower kw ∈ search_terms)
  || existsb (fun term => Text.contains term (Text.lower kw)) search_terms.

Fixpoint scan_table (table : list (string * list string))
    (search_terms : list string) : string :=
  match table with
  | [] => ""
  | (canonical, keywords) :: rest =>
      if existsb (kw_matches search_terms) keywords
      then "Related words: " +:+ Text.join "、" keywords
      else scan_table rest search_terms
  end.

(** [ConvertSpec._get_related_words] *)
Definition _get_related_words (category key : string) : string :=
  scan_table CANONICAL_TO_KEYS [Text.lower category; Text.lower key].

Definition chunk_metadata (pid pname cat k : string) : gmap string string :=
  {[ "product_id" := pid; "product_name" := pname;
     "category" := cat; "key" := k ]}.

(** Lines 126-152: the chunk of one spec entry. *)
Definition spec_chunk (p : Product) (spec : Spec) : Chunk :=
  let content_parts :=
    ["Product: " +:+ p_product_name p;
     "Category: " +:+ category spec;
     "Specification: " +:+ key spec;
     "Value: " +:+ value spec] in
  let related_words := _get_related_words (category spec) (key spec) in
  let content_parts :=
    if decide (related_words = "") then content_parts
    else content_parts ++ [related_words] in
  {| content := Text.join Text.newline content_parts;
     metadata := chunk_metadata (product_id p) (p_product_name p)
                   (category spec) (key spec) |}.

(** Lines 154-181: the rollup chunk of one product. *)
Definition full_specs_chunk (p : Product) : Chunk :=
  let full_specs_content :=
    map (fun spec =>
           "- " +:+ category spec +:+ " - " +:+ key spec +:+ ": "
           +:+ Text.replace_char (ascii_of_N 10) " " (value spec))
        (specs p) in
  let full_specs_parts :=
    ["Product: " +:+ p_product_name p;
     "Category: Overall Specification";
     "Specification: Full Specs";
     "Value:";
     Text.join Text.newline full_specs_content;
     "Related terms: specifications, full specs, configuration, computer, laptop, overall, 規格, 整機規格, 配置, 筆電, 電腦"] in
  {| content := Text.join Text.newline full_specs_parts;
     metadata := chunk_metadata (product_id p) (p_product_name p)
                   "Overall Specification" "Full Specs" |}.

(** [ConvertSpec.chunk_data], on the ["products"] list of the file. *)
Fixpoint chunk_data (products : list Product) : list Chunk :=
  match products with
  | [] => []
  | p :: rest =>
      map (spec_chunk p) (specs p) ++ full_specs_chunk p :: chunk_data rest
  end.

(** [ConvertSpec.get_products] *)
Definition get_products (products : list Product) : list Product := products.

(** [ConvertSpec.get_product_by_id] *)
Fixpoint get_product_by_id (products : list Product) (pid : string)
  : option Product :=
  match products with
  | [] => None
  | product :: rest =>
      if decide (product_id product = pid) then Some product
      else get_product_by_id rest pid
  end.

(** The loop of lines 238-244: each spec writes its value under its
    lower-cased key and under its lower-cased category and key. *)
Fixpoint write_specs (specs_dict : gmap string string) (l : list Spec)
  : gmap string string :=
  match l with
  | [] => specs_dict
  | spec :: rest =>
      let k := Text.lower (key spec) in
      let val := value spec in
      let specs_dict := <[k := val]> specs_dict in
      let cat := Text.lower (category spec) in
      write_specs (<[cat +:+ " " +:+ k := val]> specs_dict) rest
  end.

(** [ConvertSpec.get_product_specs] *)
Definition get_product_specs (products : list Product) (pid : string)
  : gmap string string :=
  match get_product_by_id products pid with
  | None => ∅
  | Some product => write_specs ∅ (specs product)
  end.

End ConvertSpec.

(** ** Building the knowledge base ([data_processing/build_kb.py]) *)

Record RawSpec := { raw_category : string; raw_value : string }.

Record RawProduct := { raw_product_name : string; raw_specs : list RawSpec }.

Module BuildKB.

(** The table from the scraped category to the (category, key) of the
    knowledge base; its keys are distinct. *)
Definition mapping : list (string * (string * string)) :=
  [("作業系統", ("Processor", "OS"));
   ("中央處理器", ("Processor", "CPU"));
   ("顯示晶片", ("Graphics", "GPU"));
   ("顯示器", ("Display", "Screen"));
   ("記憶體", ("Memory", "RAM"));
   ("儲存裝置", ("Storage", "SSD"));
   ("鍵盤種類", ("Keyboard", "Keyboard Type"));
   ("連接埠", ("Connectivity", "Ports"));
   ("音效", ("Audio", "Speakers"));
   ("通訊", ("Networking", "Wireless"));
   ("視訊鏡頭", ("Webcam", "Webcam"));
   ("安全裝置", ("Security", "Security"));
   ("電池", ("Battery", "Battery"));
   ("變壓器", ("Power", "Adapter"));
   ("尺寸", ("Physical", "Dimensions"));
   ("重量", ("Physical", "Weight"));
   ("顏色", ("Physical", "Color"))].

(** [mapping[zh_cat]], or [None] when [zh_cat not in mapping]. *)
Fixpoint lookup (table : list (string * (string * string))) (zh_cat : string)
  : option (string * string) :=
  match table with
  | [] => None
  | (k, v) :: rest => if decide (k = zh_cat) then Some v else lookup rest zh_cat
  end.

(** Lines 58-75: one spec of the knowledge base. *)
Definition convert_spec (spec : RawSpec) : Spec :=
  let zh_cat := raw_category spec in
  match lookup mapping zh_cat with
  | Some (en_cat, en_key) =>
      {| category := en_cat; key := en_key; value := raw_value spec |}
  | None =>
      {| category := zh_cat; key := zh_cat; value := raw_value spec |}
  end.

(** [model_name.lower().replace(" ", "-")] *)
Definition make_product_id (model_name : string) : string :=
  Text.replace_char " " "-" (Text.lower model_name).

(** Lines 46-77: one product of the knowledge base. *)
Definition convert_product (product : RawProduct) : Product :=
  let model_name := raw_product_name product in
  {| product_id := make_product_id model_name;
     p_product_name := model_name;
     specs := map convert_spec (raw_specs product) |}.

(** [integrate_and_simplify_specs], from the ["products"] list of the raw
    file to the ["products"] list it writes. *)
Definition integrate_and_simplify_specs (raw_products : list RawProduct)
  : list Product :=
  map convert_product raw_products.

End BuildKB.

Section Retrieval.

(** [np.linalg.norm] of a 1-D array. *)
Variable linalg_norm : vec -> Q.

(** [np.argsort] of a 1-D array. *)
Variable np_argsort : list Q -> list nat.

(** [v / (np.linalg.norm(v) + 1e-10)] *)
Definition normalize (v : vec) : vec :=
  map (fun x => (x / (linalg_norm v + 1e-10))%Q) v.

(** ** ChunkRetriever *)

Record ChunkRetriever := {
  engine : EmbeddingEngine;
  chunks : list Chunk;
  vectors : option (list vec)
}.

Definition ChunkRetriever_init (embedding_engine : EmbeddingEngine)
  : ChunkRetriever :=
  {| engine := embedding_engine; chunks := []; vectors := None |}.

(** [np.stack]: at least one array is needed. *)
Definition np_stack (rows : list vec) : M (list vec) :=
  match rows with
  | [] => raise ValueError
  | _ => ret rows
  end.

(** [ChunkRetriever.add_chunks] *)
Definition add_chunks (self : ChunkRetriever) (cs : list Chunk)
  : M ChunkRetriever :=
  do vectors_list <- for_each (fun chunk => embed (engine self) (content chunk)) cs;
  do stacked <- np_stack vectors_list;
  ret {| engine := engine self; chunks := cs;
         vectors := Some (map normalize stacked) |}.

(** [self.chunks.index(t_chunk)]: the first position holding an equal chunk. *)
Definition index_of (l : list Chunk) (t_chunk : Chunk) : option nat :=
  fst <$> list_find (fun c => c = t_chunk) l.

(** [self.vectors[idx]] *)
Definition vector_at (self : ChunkRetriever) (idx : nat) : M vec :=
  match vectors self with
  | None => raise TypeError
  | Some vs => item vs idx
  end.

(** The loop of lines 155-161: candidates that [index] does not find are
    skipped; the others contribute their position and their vector. *)
Fixpoint resolve_targets (self : ChunkRetriever) (target_chunks : list Chunk)
  : M (list nat * list vec) :=
  match target_chunks with
  | [] => ret ([], [])
  | t_chunk :: rest =>
      match index_of (chunks self) t_chunk with
      | Some idx =>
          do v <- vector_at self idx;
          do ' (target_indices, target_vectors_list) <- resolve_targets self rest;
          ret (idx :: target_indices, v :: target_vectors_list)
      | None => resolve_targets self rest
      end
  end.

(** [set(query.lower().split())] *)
Definition query_tokens_of (query : string) : list string :=
  remove_dups (Text.split (Text.lower query)).

(** [sum(1 for token in query_tokens if token in content_lower)] *)
Definition overlap (query_tokens : list string) (c : Chunk) : nat :=
  length (List.filter (Text.contains (Text.lower (content c))) query_tokens).

(** [min(overlap * 0.05, 0.5)] *)
Definition keyword_score (query_tokens : list string) (c : Chunk) : Q :=
  Qmin (inject_Z (Z.of_nat (overlap query_tokens c)) * 0.05) 0.5.

(** The loop of lines 172-181, over [enumerate(vector_scores)]. *)
Definition fuse (query_tokens : list string) (target_chunks : list Chunk)
    (vector_scores : list Q) : M (list Q) :=
  for_each (fun '(i, score) =>
              do chunk <- item target_chunks i;
              ret (score + keyword_score query_tokens chunk)%Q)
           (imap (fun i score => (i, score)) vector_scores).

(** [ChunkRetriever.search] *)
Definition ChunkRetriever_search (self : ChunkRetriever) (query : string)
    (top_k : Z) (candidate_chunks : option (list Chunk))
  : M (list Chunk * list Q) :=
  do query_vec <- embed (engine self) query;
  let query_vec := normalize query_vec in
  let query_tokens := query_tokens_of query in
  let target_chunks := default (chunks self) candidate_chunks in
  match target_chunks with
  | [] => ret ([], [])
  | _ =>
      do ' (target_indices, target_vectors_list) <- resolve_targets self target_chunks;
      match target_vectors_list with
      | [] => ret ([], [])
      | _ =>
          let vector_scores := map (fun v => dot v query_vec) target_vectors_list in
          do final_scores <- fuse query_tokens target_chunks vector_scores;
          let top_indices := top_indices_of np_argsort final_scores top_k in
          do results <- for_each (item target_chunks) top_indices;
          do score_list <- for_each (item final_scores) top_indices;
          ret (results, score_list)
      end
  end.

(** ** QARetriever *)

Record QARetriever := {
  qa_engine : EmbeddingEngine;
  qa_items : list QAItem;
  qa_vectors : option (list vec)
}.

(** [QARetriever._load_qa_dataset]. The argument is the ["qa_pairs"] list of
    a well-formed file (absent from the file, it is the empty list), each
    pair already a [QAItem]. [None] stands for the two failures the function
    catches, logs and survives: the file does not exist
    ([FileNotFoundError]) or is not valid JSON ([json.JSONDecodeError]); the
    retriever is then left as it is. A file that cannot be opened for
    another reason, or whose JSON has another shape, makes the Python code
    raise; such files are not among the inputs here. *)
Definition _load_qa_dataset (self : QARetriever) (qa_file : option (list QAItem))
  : M QARetriever :=
  match qa_file with
  | None => ret self
  | Some qa_pairs =>
      do vectors_list <- for_each (fun it => embed (qa_engine self) (question it)) qa_pairs;
      ret {| qa_engine := qa_engine self;
             qa_items := qa_items self ++ qa_pairs;
             qa_vectors := match vectors_list with
                           | [] => qa_vectors self
                           | _ => Some (map normalize vectors_list)
                           end |}
  end.

Definition QARetriever_init (embedding_engine : EmbeddingEngine)
    (qa_file : option (list QAItem)) : M QARetriever :=
  _load_qa_dataset
    {| qa_engine := embedding_engine; qa_items := []; qa_vectors := None |}
    qa_file.

(** [qa.product_name if qa.product_name else "overall"] *)
Definition p_name_of (qa : QAItem) : string :=
  if decide (product_name qa = "") then "overall" else product_name qa.

(** The test of line 295. *)
Definition in_scope (scope : string) (qa : QAItem) : bool :=
  bool_decide (Text.upper (p_name_of qa) = Text.upper scope)
  || bool_decide (p_name_of qa = "overall").

(** Lines 292-296: the positions of the items in scope, in order. *)
Fixpoint scope_indices (scope : string) (i : nat) (items : list QAItem)
  : list nat :=
  match items with
  | [] => []
  | qa :: rest =>
      if in_scope scope qa then i :: scope_indices scope (S i) rest
      else scope_indices scope (S i) rest
  end.

(** Lines 292-300, with the fallback to every position. *)
Definition candidate_indices_of (scope : string) (items : list QAItem)
  : list nat :=
  match scope_indices scope 0 items with
  | [] => seq 0 (length items)
  | l => l
  end.

(** [QARetriever.search] *)
Definition QARetriever_search (self : QARetriever) (query : string)
    (product_name : option string) (top_k : Z) : M (list QAItem * list Q) :=
  match qa_items self, qa_vectors self with
  | [], _ | _, None => ret ([], [])
  | _, Some vs =>
      let product_name := default "overall" product_name in
      let candidate_indices := candidate_indices_of product_name (qa_items self) in
      do query_vec <- embed (qa_engine self) query;
      let query_vec := normalize query_vec in
      do candidate_vectors <- for_each (item vs) candidate_indices;
      let scores := map (fun v => dot v query_vec) candidate_vectors in
      let sorted_indices := top_indices_of np_argsort scores top_k in
      do results <- for_each (fun i => do ci <- item candidate_indices i;
                                       item (qa_items self) ci) sorted_indices;
      do score_list <- for_each (item scores) sorted_indices;
      ret (results, score_list)
  end.

(** ** RAGSystem ([src/rag_engine.py]) *)

(** [f"{s:.2f}"] *)
Variable format_score : Q -> string.

(** [config.RETRIEVAL_TOP_K] *)
Definition RETRIEVAL_TOP_K : Z := 5.

Record RAGSystem := {
  embed_engine : EmbeddingEngine;
  index : ChunkRetriever;
  loader : list Product;
  rag_chunks : list Chunk;
  qa_retriever : QARetriever;
  product_extractor : ProductNameExtractor.t
}.

(** [RAGSystem.__init__], given the embedding model and the contents of the
    two knowledge-base files. *)
Definition RAGSystem_init (embedding_engine : EmbeddingEngine)
    (spec_file : list Product) (qa_file : option (list QAItem)) : M RAGSystem :=
  let cs := ConvertSpec.chunk_data spec_file in
  do idx <- add_chunks (ChunkRetriever_init embedding_engine) cs;
  do qa <- QARetriever_init embedding_engine qa_file;
  ret {| embed_engine := embedding_engine;
         index := idx;
         loader := spec_file;
         rag_chunks := cs;
         qa_retriever := qa;
         product_extractor :=
           ProductNameExtractor.init (Some (ConvertSpec.get_products spec_file)) |}.

(** The four branches of the router, lines 109-134. *)
Inductive Mode :=
  | Comparison
  | SpecificProduct (pid : string)
  | ProductList
  | General.

(** Truth value of an [Optional[str]]. *)
Definition truthy (o : option string) : option string :=
  match o with
  | Some s => if decide (s = "") then None else Some s
  | None => None
  end.

(** The conditions of the [if]/[elif] chain, in the order they are tested. *)
Definition classify (self : RAGSystem) (user_question : string) : Mode :=
  let extracted_product_id :=
    ProductNameExtractor.extract (product_extractor self) user_question in
  if QueryFilter.is_comparison_query user_question then Comparison
  else match truthy extracted_product_id with
       | Some pid => SpecificProduct pid
       | None =>
           if QueryFilter.is_product_list_query user_question then ProductList
           else General
       end.

(** Lines 124-127. *)
Definition product_list_fact (self : RAGSystem) : string :=
  let all_products := ConvertSpec.get_products (loader self) in
  let product_names := map p_product_name all_products in
  let product_list_str := Text.join ", " product_names in
  "FACT: The available products in the database are: " +:+ product_list_str +:+ ".".

(** Step 1 of [_process_query] (lines 100-134): the chunk results, their
    scores and the deterministic facts. *)
Definition retrieve_chunks (self : RAGSystem) (user_question : string)
  : M (list Chunk * list Q * list string) :=
  match classify self user_question with
  | Comparison =>
      let chunk_results := List.filter is_full_specs (rag_chunks self) in
      let chunk_scores := repeat 1.0%Q (length chunk_results) in
      ret (chunk_results, chunk_scores, [])
  | SpecificProduct extracted_product_id =>
      let target_chunks_for_search :=
        List.filter
          (fun c => bool_decide (metadata c !! "product_id" = Some extracted_product_id))
          (rag_chunks self) in
      do ' (chunk_results, chunk_scores) <-
        ChunkRetriever_search (index self) user_question RETRIEVAL_TOP_K
          (Some target_chunks_for_search);
      ret (chunk_results, chunk_scores, [])
  | ProductList =>
      let fact := product_list_fact self in
      do ' (chunk_results, chunk_scores) <-
        ChunkRetriever_search (index self) user_question RETRIEVAL_TOP_K
          (Some (rag_chunks self));
      ret (chunk_results, chunk_scores, [fact])
  | General =>
      do ' (chunk_results, chunk_scores) <-
        ChunkRetriever_search (index self) user_question RETRIEVAL_TOP_K
          (Some (rag_chunks self));
      ret (chunk_results, chunk_scores, [])
  end.

(** Lines 137-145: whether the rollup chunks stay in the context. *)
Definition include_full_specs (is_comparison : bool)
    (deterministic_facts : list string) (chunk_scores : list Q) : bool :=
  let include := true in
  let include := match deterministic_facts with [] => include | _ => false end in
  let include :=
    match chunk_scores with
    | s0 :: _ => if negb (Qle_bool s0 1.2) then false else include
    | [] => include
    end in
  if is_comparison then true else include.

(** Lines 148-154: the loop over [zip(chunk_results, chunk_scores)]. *)
Fixpoint filter_results (include : bool) (pairs : list (Chunk * Q))
  : list (Chunk * Q) :=
  match pairs with
  | [] => []
  | (c, s) :: rest =>
      if negb include && is_full_specs c then filter_results include rest
      else (c, s) :: filter_results include rest
  end.

Record Evidence := { ev_type : string; ev_content : string; ev_score : Q }.

Record Processed := {
  chunk_results : list Chunk;
  chunk_scores : list Q;
  deterministic_facts : list string;
  final_chunk_results : list Chunk;
  final_chunk_scores : list Q;
  qa_results : list QAItem;
  qa_scores : list Q;
  context_str : string;
  retrieval_metadata : list Evidence
}.

Definition chunk_evidence (cs : Chunk * Q) : Evidence :=
  {| ev_type := "chunk"; ev_content := content (fst cs); ev_score := snd cs |}.

Definition qa_text (qa : QAItem) : string :=
  "Q: " +:+ question qa +:+ Text.newline +:+ "A: " +:+ answer qa.

Definition qa_evidence (qs : QAItem * Q) : Evidence :=
  {| ev_type := "qa"; ev_content := qa_text (fst qs); ev_score := snd qs |}.

Definition separator : string := Text.newline +:+ "---" +:+ Text.newline.

(** [RAGSystem._process_query]. The Python function returns
    [(context_str, retrieval_metadata)]; the record also keeps the locals the
    two are assembled from. *)
Definition _process_query (self : RAGSystem) (user_question : string)
  : M Processed :=
  let extracted_product_id :=
    ProductNameExtractor.extract (product_extractor self) user_question in
  let is_comparison := QueryFilter.is_comparison_query user_question in
  do ' (chunk_results, chunk_scores, deterministic_facts) <-
    retrieve_chunks self user_question;
  let include := include_full_specs is_comparison deterministic_facts chunk_scores in
  let final := filter_results include (zip chunk_results chunk_scores) in
  let chunk_context :=
    Text.join separator
      (map (fun '(c, s) => content c +:+ Text.newline +:+ "[信心分數: "
                           +:+ format_score s +:+ "]") final) in
  let qa_product_suffix :=
    match truthy extracted_product_id with
    | Some pid => ProductNameExtractor.suffix_of pid
    | None => "overall"
    end in
  do ' (qa_results, qa_scores) <-
    QARetriever_search (qa_retriever self) user_question (Some qa_product_suffix) 1;
  let qa_context :=
    Text.join separator
      (map (fun '(qa, s) => qa_text qa +:+ Text.newline +:+ "Score: "
                            +:+ format_score s) (zip qa_results qa_scores)) in
  let context_parts :=
    match deterministic_facts with
    | [] => []
    | _ => ["[Verified Facts]" +:+ Text.newline
            +:+ Text.join Text.newline deterministic_facts]
    end
    ++ ["[Retrieval Results]" +:+ Text.newline +:+ chunk_context;
        "[QA Database]" +:+ Text.newline +:+ qa_context] in
  ret {| chunk_results := chunk_results;
         chunk_scores := chunk_scores;
         deterministic_facts := deterministic_facts;
         final_chunk_results := map fst final;
         final_chunk_scores := map snd final;
         qa_results := qa_results;
         qa_scores := qa_scores;
         context_str := Text.join (Text.newline +:+ Text.newline) context_parts;
         retrieval_metadata :=
           map chunk_evidence final ++ map qa_evidence (zip qa_results qa_scores) |}.

(** ** Vocabulary of the statements *)

(** The embedding of a text after normalization. *)
Definition unit_vector (e : EmbeddingEngine) (text : string) : vec :=
  normalize (create_embedding e text).

(** Cosine similarity of a text with the query. *)
Definition cosine (e : EmbeddingEngine) (query text : string) : Q :=
  dot (unit_vector e text) (unit_vector e query).

(** The hybrid score of a chunk: its cosine similarity plus its keyword bonus. *)
Definition hybrid (e : EmbeddingEngine) (query : string) (c : Chunk) : Q :=
  (cosine e query (content c) + keyword_score (query_tokens_of query) c)%Q.

(** The candidates that occur in the corpus, in candidate order. *)
Definition resolved (corpus target_chunks : list Chunk) : list Chunk :=
  List.filter (fun t => bool_decide (t ∈ corpus)) target_chunks.

(** The scores [search] ranks: the cosine of the i-th resolved candidate plus
    the keyword bonus of the i-th supplied candidate. *)
Definition fused (e : EmbeddingEngine) (query : string)
    (corpus target_chunks : list Chunk) : list Q :=
  zip_with (fun r t => (cosine e query (content r)
                        + keyword_score (query_tokens_of query) t)%Q)
           (resolved corpus target_chunks) target_chunks.

(** The cosine of each candidate question of a QA search. *)
Definition qa_scores_of (e : EmbeddingEngine) (query : string)
    (items : list QAItem) (candidate_indices : list nat) : list Q :=
  map (fun qa => cosine e query (question qa)) (pick items candidate_indices).

(** The retriever [add_chunks] builds from a corpus. *)
Definition indexed (e : EmbeddingEngine) (cs : list Chunk) : ChunkRetriever :=
  {| engine := e; chunks := cs;
     vectors := Some (map (fun c => unit_vector e (content c)) cs) |}.

(** The retriever [QARetriever.__init__] builds from the QA pairs. *)
Definition loaded (e : EmbeddingEngine) (pairs : list QAItem) : QARetriever :=
  {| qa_engine := e; qa_items := pairs;
     qa_vectors := match pairs with
                   | [] => None
                   | _ => Some (map (fun qa => unit_vector e (question qa)) pairs)
                   end |}.

End Retrieval.




(** The order [argsort] produces: by value, then by index. *)
Definition key_lt (a : list Q) (x y : nat) : Prop :=
  (nth x a 0 < nth y a 0)%Q \/ ((nth x a 0 == nth y a 0)%Q /\ x < y).

(** ** Vocabulary of the further statements *)

(** The two keys under which [get_product_specs] files a spec. *)
Definition spec_keys (sp : Spec) : list string :=
  [Text.lower (key sp);
   Text.lower (category sp) +:+ " " +:+ Text.lower (key sp)].

(** A row of the related-words table has a keyword that occurs, lower-cased,
    in the lower-cased category or key. *)
Definition row_hit (category key : string) (row : string * list string) : Prop :=
  exists kw, kw ∈ snd row
    /\ (Text.contains (Text.lower category) (Text.lower kw) = true
        \/ Text.contains (Text.lower key) (Text.lower kw) = true).


(** ** Concrete inputs for the examples *)

Module Demo.

(** The Euclidean norm, exact on the vectors used below. *)
Definition norm (v : vec) : Q :=
  let s := Qred (dot v v) in
  (inject_Z (Z.sqrt (Qnum s)) / inject_Z (Z.sqrt (Zpos (Qden s))))%Q.

(** An embedding model with two directions. *)
Definition model : EmbeddingEngine :=
  {| create_embedding := fun text =>
       if Text.contains text "battery" then [0; 1]%Q
       else if Text.contains text "display" then [3; 4]%Q
       else [1; 0]%Q |}.

Definition fmt (s : Q) : string := "0.00".

Definition chunk (text pid k : string) : Chunk :=
  {| content := text; metadata := {[ "product_id" := pid; "key" := k ]} |}.

Definition cpu_a : Chunk := chunk "alpha cpu" "p-a" "CPU".
Definition battery_a : Chunk := chunk "alpha battery" "p-a" "Battery".

(** The text of [cpu_a] filed under a second key. *)
Definition cpu_a' : Chunk := chunk "alpha cpu" "p-a" "Processor".

(** A chunk that is in no corpus below. *)
Definition stray : Chunk := chunk "which gamma" "p-x" "CPU".

Definition corpus : list Chunk := [cpu_a; battery_a].
Definition tied_corpus : list Chunk := [cpu_a; cpu_a'].

Definition retriever : ChunkRetriever := indexed norm model corpus.
Definition retriever_trace : list event :=
  [EvEmbed "alpha cpu"; EvEmbed "alpha battery"].

Definition qa_general : QAItem :=
  {| question := "how long"; answer := "10 hours"; product_name := "overall" |}.
Definition qa_unnamed : QAItem :=
  {| question := "which cpu"; answer := "fast"; product_name := "" |}.
Definition qa_byh : QAItem :=
  {| question := "which battery"; answer := "99Wh"; product_name := "BYH" |}.
Definition qa_bzh : QAItem :=
  {| question := "which display"; answer := "OLED"; product_name := "BZH" |}.
Definition qa_upper : QAItem :=
  {| question := "which display"; answer := "OLED"; product_name := "OVERALL" |}.

Definition qa_set : list QAItem := [qa_general; qa_byh].
Definition qa_index : QARetriever := loaded norm model qa_set.
Definition qa_trace : list event := [EvEmbed "how long"; EvEmbed "which battery"].

Definition catalog : list Product :=
  [ {| product_id := "aorus-master-16-bxh"; p_product_name := "AORUS MASTER 16 BXH";
       specs := [ {| category := "Processor"; key := "CPU"; value := "Ultra 9" |} ] |};
    {| product_id := "aorus-master-16-byh"; p_product_name := "AORUS MASTER 16 BYH";
       specs := [ {| category := "Power"; key := "Battery"; value := "99Wh" |} ] |} ].

Definition system : RAGSystem :=
  {| embed_engine := model;
     index := indexed norm model (ConvertSpec.chunk_data catalog);
     loader := catalog;
     rag_chunks := ConvertSpec.chunk_data catalog;
     qa_retriever := qa_index;
     product_extractor := ProductNameExtractor.init (Some catalog) |}.

Definition system_trace : list event :=
  map (fun c => EvEmbed (content c)) (ConvertSpec.chunk_data catalog) ++ qa_trace.

End Demo.

(** ** Further concrete inputs *)

Module Samples.

(** The first product of [Demo.catalog] and its spec entry. *)
Definition bxh_cpu : Spec :=
  {| category := "Processor"; key := "CPU"; value := "Ultra 9" |}.
Definition bxh : Product :=
  {| product_id := "aorus-master-16-bxh"; p_product_name := "AORUS MASTER 16 BXH";
     specs := [bxh_cpu] |}.

(** Two scraped products, with one category outside the mapping table. *)
Definition raw_bxh : RawProduct :=
  {| raw_product_name := "AORUS MASTER 16 BXH";
     raw_specs := [ {| raw_category := "中央處理器"; raw_value := "Ultra 9" |};
                    {| raw_category := "保固"; raw_value := "2 years" |} ] |}.
Definition raw_byh : RawProduct :=
  {| raw_product_name := "AORUS MASTER 16 BYH";
     raw_specs := [ {| raw_category := "電池"; raw_value := "99Wh" |} ] |}.
Definition raw_catalog : list RawProduct := [raw_bxh; raw_byh].

End Samples.

(** * Properties *)

(** ** Text *)

Lemma prefix_lower (p s : string) :
  String.prefix p s = true -> String.prefix (Text.lower p) (Text.lower s) = true.
Proof.
  revert s. induction p as [|c p IH]; intros [|d s] H; simpl in *;
    try reflexivity; try discriminate.
  destruct (Ascii.ascii_dec c d) as [->|]; [|discriminate].
  destruct (Ascii.ascii_dec (Text.lower_char d) (Text.lower_char d)); [|congruence].
  auto.
Qed.

Lemma contains_lower (hay needle : string) :
  Text.contains hay needle = true ->
  Text.contains (Text.lower hay) (Text.lower needle) = true.
Proof.
  induction hay as [|c hay IH]; intros H; apply orb_true_iff in H as [H|H].
  - apply prefix_lower in H. cbn. simpl in H. rewrite H. reflexivity.
  - discriminate.
  - apply prefix_lower in H. change (Text.lower (String c hay)) with
      (String (Text.lower_char c) (Text.lower hay)) in *.
    unfold Text.contains; fold Text.contains. rewrite H. reflexivity.
  - change (Text.lower (String c hay)) with
      (String (Text.lower_char c) (Text.lower hay)).
    unfold Text.contains; fold Text.contains. rewrite (IH H). apply orb_true_r.
Qed.

(** ** Sorting and slicing *)

Lemma insert_index_perm a i l : insert_index a i l ≡ₚ i :: l.
Proof.
  induction l as [|j l IH]; simpl; [reflexivity|].
  destruct (Qle_bool _ _); [reflexivity|].
  rewrite IH. apply Permutation_swap.
Qed.

Lemma foldr_insert_index_perm a l : foldr (insert_index a) [] l ≡ₚ l.
Proof.
  induction l as [|i l IH]; simpl; [reflexivity|].
  rewrite insert_index_perm. by rewrite IH.
Qed.

Lemma argsort_perm a : argsort a ≡ₚ seq 0 (length a).
Proof. apply foldr_insert_index_perm. Qed.


Lemma argsort_NoDup a : NoDup (argsort a).
Proof. rewrite argsort_perm. apply NoDup_seq. Qed.

Lemma argsort_length a : length (argsort a) = length a.
Proof. rewrite argsort_perm. apply length_seq. Qed.

Lemma key_lt_trans_le a x y z :
  (nth x a 0 <= nth y a 0)%Q -> x < z -> (y = z \/ key_lt a y z) -> key_lt a x z.
Proof.
  intros Hxy Hxz [->|[Hlt|[Heq Hlt]]]; unfold key_lt.
  - apply Qle_lt_or_eq in Hxy as [?|?]; auto.
  - left. eapply Qle_lt_trans; eauto.
  - rewrite <- Heq. apply Qle_lt_or_eq in Hxy as [?|?]; auto.
Qed.

Lemma insert_index_sorted a i l :
  Forall (fun x => i < x) l ->
  StronglySorted (key_lt a) l -> StronglySorted (key_lt a) (insert_index a i l).
Proof.
  induction l as [|j l IH]; simpl; intros Hlt Hs.
  - repeat constructor.
  - apply Forall_cons in Hlt as [Hij Hlt].
    apply StronglySorted_inv in Hs as [Hs Hj].
    destruct (Qle_bool _ _) eqn:E.
    + apply Qle_bool_iff in E. constructor; [by constructor|].
      constructor.
      * apply (key_lt_trans_le a i j j); auto.
      * rewrite Forall_forall in *. intros x Hx.
        apply (key_lt_trans_le a i j x); auto.
    + assert (nth j a 0 < nth i a 0)%Q as Hji.
      { apply Qnot_le_lt. intros Hle. apply Qle_bool_iff in Hle. congruence. }
      constructor; [auto|].
      rewrite Forall_forall. intros x Hx.
      rewrite insert_index_perm in Hx. apply elem_of_cons in Hx as [->|Hx].
      * by left.
      * rewrite Forall_forall in Hj. auto.
Qed.

Lemma argsort_sorted a : StronglySorted (key_lt a) (argsort a).
Proof.
  unfold argsort. generalize 0 as s. generalize (length a) as n.
  induction n as [|n IH]; intros s; simpl; [constructor|].
  apply insert_index_sorted; [|apply IH].
  rewrite Forall_forall. intros x Hx.
  rewrite foldr_insert_index_perm in Hx. apply elem_of_seq in Hx. lia.
Qed.

Lemma StronglySorted_lookup {A} (R : relation A) l p q x y :
  StronglySorted R l -> p < q -> l !! p = Some x -> l !! q = Some y -> R x y.
Proof.
  intros Hs. revert p q. induction Hs as [|z l Hs IH Hz]; intros p q Hpq Hp Hq.
  - by rewrite lookup_nil in Hp.
  - destruct q as [|q]; [lia|]. destruct p as [|p]; simpl in *.
    + injection Hp as ->. rewrite Forall_forall in Hz. apply Hz.
      by eapply list_elem_of_lookup_2.
    + eapply IH; [|eauto..]. lia.
Qed.


Lemma slice_to_take {A} (k : Z) (l : list A) : exists n, slice_to k l = take n l.
Proof. unfold slice_to. destruct (0 <=? k)%Z; eauto. Qed.

Lemma StronglySorted_of_lookup {A} (R : relation A) (l : list A) :
  (forall p q x y, p < q -> l !! p = Some x -> l !! q = Some y -> R x y) ->
  StronglySorted R l.
Proof.
  induction l as [|a l IH]; intros H; constructor.
  - apply IH. intros p q x y Hpq Hp Hq. by apply (H (S p) (S q) x y); [lia|..].
  - rewrite Forall_forall. intros y Hy. apply list_elem_of_lookup in Hy as [q Hq].
    by apply (H 0 (S q) a y); [lia|..].
Qed.

Lemma key_lt_le a x y : key_lt a x y -> (nth x a 0 <= nth y a 0)%Q.
Proof. intros [H|[H _]]; [by apply Qlt_le_weak|rewrite H; apply Qle_refl]. Qed.

(** The insertion sort meets the contract of [np.argsort], and keeps equal
    values in index order. *)
Lemma argsort_meets_contract : argsort_contract argsort.
Proof.
  intros a. split; [apply argsort_perm|].
  apply StronglySorted_of_lookup. intros p q x y Hpq Hp Hq.
  apply key_lt_le. by apply (StronglySorted_lookup _ _ p q x y (argsort_sorted a)).
Qed.


(** So does the sort that puts equal values in descending index order. *)
Lemma insert_index_behind_perm a i l : insert_index_behind a i l ≡ₚ i :: l.
Proof.
  induction l as [|j l IH]; simpl; [reflexivity|].
  destruct (Qle_bool _ _); [|reflexivity].
  rewrite IH. apply Permutation_swap.
Qed.

Lemma insert_index_behind_sorted a i l :
  StronglySorted (fun x y => (nth x a 0 <= nth y a 0)%Q) l ->
  StronglySorted (fun x y => (nth x a 0 <= nth y a 0)%Q) (insert_index_behind a i l).
Proof.
  induction l as [|j l IH]; simpl; intros Hs.
  - repeat constructor.
  - apply StronglySorted_inv in Hs as [Hs Hj].
    destruct (Qle_bool _ _) eqn:E.
    + apply Qle_bool_iff in E. constructor; [auto|].
      rewrite Forall_forall. intros x Hx.
      rewrite insert_index_behind_perm in Hx. apply elem_of_cons in Hx as [->|Hx].
      * done.
      * rewrite Forall_forall in Hj. auto.
    + assert (nth i a 0 < nth j a 0)%Q as Hij.
      { apply Qnot_le_lt. intros Hle. apply Qle_bool_iff in Hle. congruence. }
      constructor; [by constructor|].
      constructor; [by apply Qlt_le_weak|].
      rewrite Forall_forall in Hj. rewrite Forall_forall. intros x Hx.
      eapply Qle_trans; [apply Qlt_le_weak, Hij|auto].
Qed.

Lemma argsort_ties_descending_meets_contract : argsort_contract argsort_ties_descending.
Proof.
  intros a. unfold argsort_ties_descending. split.
  - generalize (seq 0 (length a)) as l.
    induction l as [|i l IH]; simpl; [reflexivity|].
    rewrite insert_index_behind_perm. by rewrite IH.
  - generalize (seq 0 (length a)) as l.
    induction l as [|i l IH]; simpl; [constructor|].
    by apply insert_index_behind_sorted.
Qed.

(** ** Comprehensions and lookups *)

Lemma pick_cons {A} (l : list A) i idxs x :
  l !! i = Some x -> pick l (i :: idxs) = x :: pick l idxs.
Proof. intros H. unfold pick. simpl. by rewrite H. Qed.

Lemma pick_length {A} (l : list A) idxs :
  Forall (fun i => i < length l) idxs -> length (pick l idxs) = length idxs.
Proof.
  induction 1 as [|i idxs Hi _ IH]; [reflexivity|].
  apply lookup_lt_is_Some in Hi as [x Hx].
  rewrite (pick_cons _ _ _ _ Hx). simpl. by rewrite IH.
Qed.

Lemma pick_fmap {A B} (f : A -> B) (l : list A) idxs :
  pick (f <$> l) idxs = f <$> pick l idxs.
Proof.
  unfold pick. induction idxs as [|i idxs IH]; [reflexivity|].
  cbn [omap list_omap]. rewrite list_lookup_fmap, IH.
  by destruct (l !! i).
Qed.

Lemma pick_prefix {A} (l : list A) idxs1 idxs2 :
  idxs1 `prefix_of` idxs2 -> pick l idxs1 `prefix_of` pick l idxs2.
Proof.
  intros [rest ->]. unfold pick. rewrite omap_app. by eexists.
Qed.

Lemma for_each_item {A} (l : list A) idxs :
  Forall (fun i => i < length l) idxs ->
  for_each (item l) idxs = (Ok (pick l idxs), []).
Proof.
  induction 1 as [|i idxs Hi _ IH]; [reflexivity|].
  apply lookup_lt_is_Some in Hi as [x Hx].
  rewrite (pick_cons _ _ _ _ Hx). cbn [for_each].
  unfold item at 1. rewrite Hx, IH. reflexivity.
Qed.

Lemma for_each_embed {A} (e : EmbeddingEngine) (f : A -> string) l :
  for_each (fun x => embed e (f x)) l
  = (Ok (map (fun x => create_embedding e (f x)) l), map (fun x => EvEmbed (f x)) l).
Proof.
  induction l as [|x l IH]; [reflexivity|].
  simpl. rewrite IH. simpl. by rewrite app_nil_r.
Qed.

Lemma pick_lookup {A} (l : list A) idxs p :
  Forall (fun i => i < length l) idxs ->
  pick l idxs !! p = idxs !! p ≫= (fun i => l !! i).
Proof.
  intros H. revert p. induction H as [|i idxs Hi _ IH]; intros p; [done|].
  apply lookup_lt_is_Some in Hi as [x Hx]. rewrite (pick_cons _ _ _ _ Hx).
  destruct p as [|p]; simpl; [by rewrite Hx|apply IH].
Qed.

Section Properties.

Variable linalg_norm : vec -> Q.
Variable np_argsort : list Q -> list nat.
Variable format_score : Q -> string.

(** Of [np.argsort], only NumPy's contract is assumed. *)
Hypothesis np_argsort_sorts : argsort_contract np_argsort.

(** ** Ranking by [np.argsort] *)

Lemma np_argsort_perm a : np_argsort a ≡ₚ seq 0 (length a).
Proof. apply np_argsort_sorts. Qed.

Lemma np_argsort_sorted a :
  StronglySorted (fun i j => (nth i a 0 <= nth j a 0)%Q) (np_argsort a).
Proof. apply np_argsort_sorts. Qed.

Lemma np_argsort_elem_of a i : i ∈ np_argsort a <-> i < length a.
Proof.
  rewrite np_argsort_perm, elem_of_seq. lia.
Qed.


Lemma np_argsort_length a : length (np_argsort a) = length a.
Proof. rewrite np_argsort_perm. apply length_seq. Qed.

Lemma top_indices_lt scores k i :
  i ∈ top_indices_of np_argsort scores k -> i < length scores.
Proof.
  unfold top_indices_of. destruct (slice_to_take k (reverse (np_argsort scores))) as [n ->].
  intros H. apply elem_of_take in H as (p & H & _).
  apply list_elem_of_lookup_2 in H. rewrite elem_of_reverse in H.
  by apply np_argsort_elem_of.
Qed.



Lemma top_indices_prefix scores (n : Z) :
  (0 <= n)%Z ->
  top_indices_of np_argsort scores n `prefix_of` top_indices_of np_argsort scores (n + 1).
Proof.
  intros Hn. unfold top_indices_of, slice_to.
  destruct (Z.leb_spec 0 n); [|lia]. destruct (Z.leb_spec 0 (n + 1)); [|lia].
  replace (Z.to_nat (n + 1)) with (S (Z.to_nat n)) by lia.
  generalize (reverse (np_argsort scores)) as l. generalize (Z.to_nat n) as m.
  induction m as [|m IH]; intros l; [apply prefix_nil|].
  destruct l as [|x l]; [done|]. simpl. apply prefix_cons, IH.
Qed.

Lemma top_indices_length scores (n : Z) :
  (0 <= n)%Z ->
  length (top_indices_of np_argsort scores n) = Z.to_nat n `min` length scores.
Proof.
  intros Hn. unfold top_indices_of, slice_to.
  destruct (Z.leb_spec 0 n); [|lia].
  by rewrite length_take, length_reverse, np_argsort_length.
Qed.

Lemma top_indices_nil k : top_indices_of np_argsort [] k = [].
Proof.
  unfold top_indices_of, slice_to.
  assert (np_argsort [] = []) as ->.
  { apply length_zero_iff_nil. by rewrite np_argsort_length. }
  destruct (0 <=? k)%Z; apply take_nil.
Qed.

Lemma top_indices_lookup scores k p i :
  top_indices_of np_argsort scores k !! p = Some i ->
  np_argsort scores !! (length scores - S p) = Some i /\ p < length scores.
Proof.
  unfold top_indices_of. destruct (slice_to_take k (reverse (np_argsort scores))) as [n ->].
  intros H. apply lookup_take_Some in H as [H _].
  apply reverse_lookup_Some in H as [H Hlen]. rewrite np_argsort_length in *. done.
Qed.

(** The ranking lists the scores in non-increasing order. *)
Lemma top_indices_desc scores k p q i j :
  p < q ->
  top_indices_of np_argsort scores k !! p = Some i ->
  top_indices_of np_argsort scores k !! q = Some j ->
  (nth j scores 0 <= nth i scores 0)%Q.
Proof.
  intros Hpq Hp Hq.
  apply top_indices_lookup in Hp as [Hp Hpl]. apply top_indices_lookup in Hq as [Hq Hql].
  apply (StronglySorted_lookup (fun i j => (nth i scores 0 <= nth j scores 0)%Q)
           (np_argsort scores) (length scores - S q) (length scores - S p));
    [apply np_argsort_sorted|lia|done|done].
Qed.

(** The first index of the ranking holds a largest score. *)
Lemma top_indices_best scores k i j :
  top_indices_of np_argsort scores k !! 0 = Some i -> j < length scores ->
  (nth j scores 0 <= nth i scores 0)%Q.
Proof.
  intros Hi Hj. apply top_indices_lookup in Hi as [Hi _].
  assert (j ∈ np_argsort scores) as Hin by (by apply np_argsort_elem_of).
  apply list_elem_of_lookup in Hin as [pj Hpj].
  assert (pj < length scores) as Hlt
    by (rewrite <- (np_argsort_length scores); by eapply lookup_lt_Some).
  destruct (decide (pj = length scores - 1)) as [->|Hne].
  - rewrite Hpj in Hi. injection Hi as ->. apply Qle_refl.
  - apply (StronglySorted_lookup (fun i j => (nth i scores 0 <= nth j scores 0)%Q)
             (np_argsort scores) pj (length scores - 1));
      [apply np_argsort_sorted|lia|done|done].
Qed.

Lemma slice_to_length {A} (k : Z) (l : list A) :
  length (slice_to k l)
  = if (0 <=? k)%Z then Z.to_nat k `min` length l else length l - Z.to_nat (- k).
Proof.
  unfold slice_to. destruct (0 <=? k)%Z; rewrite length_take; lia.
Qed.

Lemma top_indices_length_any scores k :
  length (top_indices_of np_argsort scores k)
  = if (0 <=? k)%Z then Z.to_nat k `min` length scores
    else length scores - Z.to_nat (- k).
Proof.
  unfold top_indices_of. by rewrite slice_to_length, length_reverse, np_argsort_length.
Qed.

(** The scores picked along the ranking are in non-increasing order, and
    the first of them bounds every score. *)
Lemma ranked_scores_sorted scores k :
  StronglySorted (fun x y => (y <= x)%Q) (pick scores (top_indices_of np_argsort scores k))
  /\ (forall s0 s, pick scores (top_indices_of np_argsort scores k) !! 0 = Some s0 ->
                  s ∈ scores -> (s <= s0)%Q).
Proof.
  assert (Forall (fun i => i < length scores) (top_indices_of np_argsort scores k)) as Hin.
  { rewrite Forall_forall. intros i Hi. by apply top_indices_lt in Hi. }
  split.
  - apply StronglySorted_of_lookup. intros p q x y Hpq Hp Hq.
    rewrite pick_lookup in Hp, Hq by done.
    destruct (top_indices_of np_argsort scores k !! p) as [i|] eqn:Ei; [|done].
    destruct (top_indices_of np_argsort scores k !! q) as [j|] eqn:Ej; [|done].
    simpl in *. pose proof (top_indices_desc _ _ _ _ _ _ Hpq Ei Ej) as H.
    by rewrite (nth_lookup_Some _ _ _ _ Hp), (nth_lookup_Some _ _ _ _ Hq) in H.
  - intros s0 s H0 Hs. rewrite pick_lookup in H0 by done.
    destruct (top_indices_of np_argsort scores k !! 0) as [i|] eqn:Ei; [|done]. simpl in H0.
    apply list_elem_of_lookup in Hs as [j Hj].
    pose proof (top_indices_best _ _ _ j Ei (lookup_lt_Some _ _ _ Hj)) as H.
    by rewrite (nth_lookup_Some _ _ _ _ H0), (nth_lookup_Some _ _ _ _ Hj) in H.
Qed.


(** ** ChunkRetriever: the index and the shape of a search *)

Lemma add_chunks_indexed self cs idx tr :
  add_chunks linalg_norm self cs = (Ok idx, tr) ->
  cs <> [] /\ idx = indexed linalg_norm (engine self) cs
  /\ tr = map (fun c => EvEmbed (content c)) cs.
Proof.
  unfold add_chunks. rewrite for_each_embed. simpl.
  destruct cs as [|c cs]; simpl; [discriminate|].
  intros [= <- <-]. split_and!; [done| |by rewrite !app_nil_r].
  unfold indexed. simpl. do 3 f_equal.
  by rewrite <- list_fmap_compose.
Qed.

Lemma add_chunks_nonempty self cs :
  cs <> [] ->
  add_chunks linalg_norm self cs
  = (Ok (indexed linalg_norm (engine self) cs), map (fun c => EvEmbed (content c)) cs).
Proof.
  intros Hcs. unfold add_chunks. rewrite for_each_embed. simpl.
  destruct cs as [|c cs]; [done|]. simpl. rewrite !app_nil_r.
  unfold indexed. simpl. do 4 f_equal.
  by rewrite <- list_fmap_compose.
Qed.

Lemma index_of_Some cs t i :
  index_of cs t = Some i -> cs !! i = Some t.
Proof.
  unfold index_of. destruct (list_find _ cs) as [[j c]|] eqn:E; [|discriminate].
  simpl. intros [= ->]. apply list_find_Some in E as (E & -> & _). done.
Qed.

Lemma index_of_None cs t : index_of cs t = None -> t ∉ cs.
Proof.
  unfold index_of. destruct (list_find _ cs) as [[j c]|] eqn:E; [discriminate|].
  intros _. apply list_find_None in E. rewrite Forall_forall in E.
  intros Hin. by apply (E t).
Qed.

Lemma resolve_targets_indexed e cs target :
  exists idxs,
    resolve_targets (indexed linalg_norm e cs) target
    = (Ok (idxs, map (fun c => unit_vector linalg_norm e (content c)) (resolved cs target)), []).
Proof.
  induction target as [|t target [idxs IH]]; [by eexists|].
  simpl. destruct (index_of cs t) as [i|] eqn:E.
  - apply index_of_Some in E.
    assert (t ∈ cs) as Hin by (by eapply list_elem_of_lookup_2).
    unfold resolved; simpl. rewrite (bool_decide_eq_true_2 _ Hin).
    unfold vector_at; simpl. unfold item. rewrite list_lookup_fmap, E. simpl.
    fold (resolved cs target). rewrite IH. simpl. by eexists.
  - apply index_of_None in E.
    unfold resolved; simpl. rewrite (bool_decide_eq_false_2 _ E).
    fold (resolved cs target). eauto.
Qed.

Lemma resolved_length cs target : length (resolved cs target) <= length target.
Proof. unfold resolved. apply filter_length_le. Qed.

Lemma resolved_all cs target :
  Forall (fun t => t ∈ cs) target -> resolved cs target = target.
Proof.
  induction 1 as [|t target Ht _ IH]; [reflexivity|].
  unfold resolved in *. simpl. by rewrite (bool_decide_eq_true_2 _ Ht), IH.
Qed.

Lemma fuse_aligned tokens target scores :
  length scores <= length target ->
  fuse tokens target scores
  = (Ok (zip_with (fun s t => (s + keyword_score tokens t)%Q) scores target), []).
Proof.
  unfold fuse.
  enough (forall k, length scores + k <= length target ->
    for_each (fun '(i, score) => do chunk <- item target i;
                                 ret (score + keyword_score tokens chunk)%Q)
             (imap (fun i score => (k + i, score)) scores)
    = (Ok (zip_with (fun s t => (s + keyword_score tokens t)%Q) scores (drop k target)), []))
    as H.
  { intros Hlen. specialize (H 0). rewrite drop_0 in H. apply H. lia. }
  induction scores as [|s scores IH]; intros k Hlen; [reflexivity|].
  simpl in Hlen.
  destruct (lookup_lt_is_Some_2 target k) as [t Ht]; [lia|].
  rewrite (drop_S _ _ _ Ht). rewrite imap_cons. simpl.
  rewrite Nat.add_0_r. unfold item at 1. rewrite Ht. simpl.
  erewrite imap_ext; [rewrite (IH (S k)); [reflexivity|lia]|].
  intros i x _. simpl. f_equal. lia.
Qed.

Lemma fused_length e query cs target :
  length (fused linalg_norm e query cs target) <= length target.
Proof. unfold fused. rewrite length_zip_with. lia. Qed.

(** A search on an indexed corpus ranks the fused scores and returns the
    supplied candidates at the ranked positions. *)
Lemma search_indexed e cs query top_k candidate_chunks :
  let target := default cs candidate_chunks in
  let final := fused linalg_norm e query cs target in
  let top := top_indices_of np_argsort final top_k in
  ChunkRetriever_search linalg_norm np_argsort (indexed linalg_norm e cs) query top_k candidate_chunks
  = (Ok (pick target top, pick final top), [EvEmbed query]).
Proof.
  intros target final top. unfold ChunkRetriever_search.
  change (default (chunks (indexed linalg_norm e cs)) candidate_chunks) with target.
  unfold embed at 1. cbn [bind engine indexed].
  destruct target as [|t0 target'] eqn:Etarget.
  { subst final top. unfold fused. rewrite zip_with_nil_r, top_indices_nil. reflexivity. }
  rewrite <- Etarget.
  destruct (resolve_targets_indexed e cs target) as [idxs ->]. cbn [bind].
  destruct (resolved cs target) as [|r0 res'] eqn:Eres.
  { subst final top. unfold fused. rewrite <- Etarget, Eres.
    rewrite zip_with_nil_l, top_indices_nil. reflexivity. }
  rewrite <- Eres.
  destruct (map (fun c => unit_vector linalg_norm e (content c)) (resolved cs target))
    as [|v0 vs'] eqn:Evs.
  { rewrite Eres in Evs. discriminate. }
  assert (map (fun v => dot v (normalize linalg_norm (create_embedding e query))) (v0 :: vs')
          = map (fun c => cosine linalg_norm e query (content c)) (resolved cs target)) as ->.
  { rewrite <- Evs, <- list_fmap_compose. reflexivity. }
  rewrite fuse_aligned by (rewrite length_fmap; apply resolved_length).
  rewrite zip_with_fmap_l.
  change (zip_with _ (resolved cs target) target) with (fused linalg_norm e query cs target).
  rewrite Etarget in *. fold final. fold top. cbn [bind].
  rewrite for_each_item, for_each_item; [reflexivity| |].
  - rewrite Forall_forall. intros i Hi. by apply top_indices_lt in Hi.
  - rewrite Forall_forall. intros i Hi. apply top_indices_lt in Hi.
    pose proof (fused_length e query cs (t0 :: target')). fold final in H. lia.
Qed.

Lemma resolve_targets_none (self : ChunkRetriever) target :
  Forall (fun t => t ∉ chunks self) target ->
  resolve_targets self target = (Ok ([], []), []).
Proof.
  induction 1 as [|t target Ht _ IH]; [reflexivity|].
  simpl. destruct (index_of (chunks self) t) as [i|] eqn:E; [|done].
  apply index_of_Some in E. destruct Ht. by eapply list_elem_of_lookup_2.
Qed.

(** ** QARetriever: loading and the shape of a search *)

Lemma QARetriever_init_loaded e qa_file :
  QARetriever_init linalg_norm e qa_file
  = (Ok (loaded linalg_norm e (default [] qa_file)),
     map (fun qa => EvEmbed (question qa)) (default [] qa_file)).
Proof.
  destruct qa_file as [pairs|]; [|reflexivity].
  unfold QARetriever_init, _load_qa_dataset. cbn [qa_engine qa_items qa_vectors].
  rewrite for_each_embed. cbn [bind ret default]. rewrite app_nil_r.
  destruct pairs as [|qa pairs]; [reflexivity|].
  unfold loaded. simpl. do 4 f_equal. by rewrite <- list_fmap_compose.
Qed.

Lemma scope_indices_range scope k items :
  Forall (fun i => k <= i < k + length items) (scope_indices scope k items).
Proof.
  revert k. induction items as [|qa items IH]; intros k; simpl; [constructor|].
  assert (Forall (fun i => k <= i < k + S (length items)) (scope_indices scope (S k) items)).
  { eapply Forall_impl; [apply IH|]. simpl. intros. lia. }
  destruct (in_scope scope qa); [constructor; [lia|]|]; done.
Qed.

Lemma candidate_indices_lt scope items :
  Forall (fun i => i < length items) (candidate_indices_of scope items).
Proof.
  unfold candidate_indices_of.
  pose proof (scope_indices_range scope 0 items) as H.
  destruct (scope_indices scope 0 items) as [|i l].
  - rewrite Forall_forall. intros i Hi. apply elem_of_seq in Hi. lia.
  - eapply Forall_impl; [exact H|]. simpl. intros. lia.
Qed.

Lemma for_each_item_item {A} (l : list A) cand idxs :
  Forall (fun i => i < length cand) idxs ->
  Forall (fun c => c < length l) cand ->
  for_each (fun i => do ci <- item cand i; item l ci) idxs
  = (Ok (pick l (pick cand idxs)), []).
Proof.
  intros Hidxs Hcand. induction Hidxs as [|i idxs Hi _ IH]; [reflexivity|].
  apply lookup_lt_is_Some in Hi as [ci Hci].
  assert (ci < length l) as Hlt.
  { rewrite Forall_forall in Hcand. apply Hcand. by eapply list_elem_of_lookup_2. }
  apply lookup_lt_is_Some in Hlt as [x Hx].
  rewrite (pick_cons _ _ _ _ Hci), (pick_cons _ _ _ _ Hx). cbn [for_each].
  unfold item at 1 2. rewrite Hci. cbn [bind ret]. rewrite Hx, IH. reflexivity.
Qed.

Lemma qa_scores_length e query items cand :
  Forall (fun i => i < length items) cand ->
  length (qa_scores_of linalg_norm e query items cand) = length cand.
Proof. intros H. unfold qa_scores_of. by rewrite length_fmap, pick_length. Qed.

(** A search on a loaded, non-empty QA set ranks the cosines of the
    candidates in scope. *)
Lemma qa_search_loaded e pairs query product_name top_k :
  pairs <> [] ->
  let cand := candidate_indices_of (default "overall" product_name) pairs in
  let scores := qa_scores_of linalg_norm e query pairs cand in
  let top := top_indices_of np_argsort scores top_k in
  QARetriever_search linalg_norm np_argsort (loaded linalg_norm e pairs) query product_name top_k
  = (Ok (pick pairs (pick cand top), pick scores top), [EvEmbed query]).
Proof.
  intros Hne cand scores top.
  pose proof (candidate_indices_lt (default "overall" product_name) pairs) as Hcand.
  fold cand in Hcand.
  unfold QARetriever_search.
  destruct pairs as [|qa0 pairs']; [done|].
  cbn [qa_items qa_vectors loaded].
  set (pairs := qa0 :: pairs') in *.
  fold cand. unfold embed. cbn [bind qa_engine loaded].
  rewrite for_each_item by (by rewrite length_fmap).
  cbn [bind]. rewrite pick_fmap, <- list_fmap_compose.
  change (map _ (pick pairs cand)) with scores. fold top.
  assert (Forall (fun i => i < length scores) top) as Htop.
  { rewrite Forall_forall. intros i Hi. by apply top_indices_lt in Hi. }
  rewrite for_each_item_item; [|by rewrite <- (qa_scores_length e query pairs cand)|done].
  cbn [bind]. rewrite for_each_item by done. reflexivity.
Qed.

Lemma qa_search_empty (self : QARetriever) query product_name top_k :
  qa_items self = [] ->
  QARetriever_search linalg_norm np_argsort self query product_name top_k = (Ok ([], []), []).
Proof. intros H. unfold QARetriever_search. by rewrite H. Qed.

(** ** Search results *)

(** When every supplied candidate occurs in the corpus, each returned chunk
    carries its own hybrid score: its cosine similarity plus
    [min(0.05 * n, 0.5)] for the [n] distinct query tokens found in its
    lower-cased content. *)
Lemma search_scores_resolved e cs query top_k candidate_chunks :
  let target := default cs candidate_chunks in
  Forall (fun t => t ∈ cs) target ->
  exists top,
    ChunkRetriever_search linalg_norm np_argsort (indexed linalg_norm e cs) query top_k candidate_chunks
    = (Ok (pick target top, map (hybrid linalg_norm e query) (pick target top)),
       [EvEmbed query]).
Proof.
  intros target Hall. rewrite search_indexed. fold target.
  unfold fused. rewrite (resolved_all _ _ Hall), zip_with_diag.
  eexists. by rewrite pick_fmap.
Qed.

(** The keyword bonus vanishes when no query token occurs in the chunk, and
    the hybrid score is then the cosine similarity. *)
Lemma hybrid_without_overlap e query c :
  overlap (query_tokens_of query) c = 0 ->
  (hybrid linalg_norm e query c == cosine linalg_norm e query (content c))%Q.
Proof.
  intros H. unfold hybrid, keyword_score. rewrite H.
  assert (Qmin (inject_Z (Z.of_nat 0) * 0.05) 0.5 == 0)%Q as -> by reflexivity.
  apply Qplus_0_r.
Qed.

(** C8 (empty results are not errors): a chunk search none of whose
    candidates occurs in the corpus returns two empty sequences after
    embedding the query, and a QA search on an empty index returns two empty
    sequences without embedding anything. Neither raises. *)
Theorem empty_results_are_not_errors :
  (forall (self : ChunkRetriever) query top_k candidate_chunks,
      Forall (fun t => t ∉ chunks self) (default (chunks self) candidate_chunks) ->
      ChunkRetriever_search linalg_norm np_argsort self query top_k candidate_chunks
      = (Ok ([], []), [EvEmbed query]))
  /\ (forall (self : QARetriever) query product_name top_k,
      qa_items self = [] ->
      QARetriever_search linalg_norm np_argsort self query product_name top_k
      = (Ok ([], []), [])).
Proof.
  split; [|apply qa_search_empty].
  intros self query top_k candidate_chunks Hnone.
  unfold ChunkRetriever_search, embed. cbn [bind].
  destruct (default (chunks self) candidate_chunks) as [|t target] eqn:E; [reflexivity|].
  rewrite <- E in *. by rewrite resolve_targets_none.
Qed.

(** C6 (top-k prefix monotonicity): on an indexed corpus and on a loaded QA
    set, the result of a search with [top_k = n >= 0] is a prefix of the
    result with [top_k = n + 1], for the items and for the scores. *)
Theorem top_k_prefix_monotone :
  (forall e cs idx tr query candidate_chunks (n : Z),
      add_chunks linalg_norm (ChunkRetriever_init e) cs = (Ok idx, tr) ->
      (0 <= n)%Z ->
      exists r1 s1 r2 s2,
        result_of (ChunkRetriever_search linalg_norm np_argsort idx query n candidate_chunks)
        = Ok (r1, s1)
        /\ result_of (ChunkRetriever_search linalg_norm np_argsort idx query (n + 1) candidate_chunks)
           = Ok (r2, s2)
        /\ r1 `prefix_of` r2 /\ s1 `prefix_of` s2)
  /\ (forall e qa_file qa tr query product_name (n : Z),
      QARetriever_init linalg_norm e qa_file = (Ok qa, tr) ->
      (0 <= n)%Z ->
      exists r1 s1 r2 s2,
        result_of (QARetriever_search linalg_norm np_argsort qa query product_name n)
        = Ok (r1, s1)
        /\ result_of (QARetriever_search linalg_norm np_argsort qa query product_name (n + 1))
           = Ok (r2, s2)
        /\ r1 `prefix_of` r2 /\ s1 `prefix_of` s2).
Proof.
  split.
  - intros e cs idx tr query candidate_chunks n Hidx Hn.
    apply add_chunks_indexed in Hidx as (_ & -> & _). cbn [engine ChunkRetriever_init].
    rewrite !search_indexed. do 4 eexists. split_and!; try reflexivity;
      by apply pick_prefix, top_indices_prefix.
  - intros e qa_file qa tr query product_name n Hqa Hn.
    rewrite QARetriever_init_loaded in Hqa. injection Hqa as <- _.
    destruct (default [] qa_file) as [|qa0 pairs] eqn:E.
    + rewrite !qa_search_empty by done. by exists [], [], [], [].
    + rewrite !qa_search_loaded by done. do 4 eexists.
      split_and!; try reflexivity;
        by repeat apply pick_prefix; apply top_indices_prefix.
Qed.


Lemma pick_seq_lt n idxs :
  Forall (fun i => i < n) idxs -> pick (seq 0 n) idxs = idxs.
Proof.
  induction 1 as [|i idxs Hi _ IH]; [reflexivity|].
  rewrite (pick_cons _ _ _ i); [by rewrite IH|].
  by apply lookup_seq_lt.
Qed.

Lemma pick_seq_app {A} (l1 l2 : list A) :
  pick (l1 ++ l2) (seq (length l1) (length l2)) = l2.
Proof.
  revert l1. induction l2 as [|x l2 IH]; intros l1; [reflexivity|].
  cbn [length seq]. rewrite (pick_cons _ _ _ x) by (by apply list_lookup_middle).
  f_equal. specialize (IH (l1 ++ [x])).
  rewrite <- app_assoc, length_app in IH. simpl in IH.
  by rewrite Nat.add_1_r in IH.
Qed.

Lemma pick_all {A} (l : list A) : pick l (seq 0 (length l)) = l.
Proof. apply (pick_seq_app [] l). Qed.

Lemma scope_indices_elem scope k items i :
  i ∈ scope_indices scope k items
  <-> exists it, k <= i /\ items !! (i - k) = Some it /\ in_scope scope it = true.
Proof.
  revert k. induction items as [|qa items IH]; intros k; simpl.
  - split; [by intros ?%elem_of_nil|]. intros (it & _ & H & _). by rewrite lookup_nil in H.
  - assert (i ∈ scope_indices scope (S k) items
            <-> exists it, S k <= i /\ (qa :: items) !! (i - k) = Some it
                           /\ in_scope scope it = true) as Htail.
    { rewrite IH. split; intros (it & Hle & Hit & Hs); exists it; split_and!; auto.
      - replace (i - k) with (S (i - S k)) by lia. done.
      - replace (i - k) with (S (i - S k)) in Hit by lia. done. }
    destruct (in_scope scope qa) eqn:E.
    + rewrite elem_of_cons, Htail. split.
      * intros [->|(it & Hle & Hit & Hs)].
        -- exists qa. rewrite Nat.sub_diag. auto.
        -- exists it. split_and!; auto. lia.
      * intros (it & Hle & Hit & Hs).
        destruct (decide (i = k)) as [->|]; [by left|right].
        exists it. split_and!; auto. lia.
    + rewrite Htail. split.
      * intros (it & Hle & Hit & Hs). exists it. split_and!; auto. lia.
      * intros (it & Hle & Hit & Hs).
        destruct (decide (i = k)) as [->|].
        -- rewrite Nat.sub_diag in Hit. simpl in Hit. congruence.
        -- exists it. split_and!; auto. lia.
Qed.

Lemma scope_indices_nil scope k items :
  Forall (fun it => in_scope scope it = false) items ->
  scope_indices scope k items = [].
Proof.
  intros H. revert k. induction H as [|it items Hit _ IH]; intros k; [reflexivity|].
  simpl. by rewrite Hit.
Qed.

Lemma in_scope_overall it :
  in_scope "overall" it = true
  <-> product_name it = "" \/ Text.upper (product_name it) = "OVERALL".
Proof.
  unfold in_scope, p_name_of.
  change (Text.upper "overall") with "OVERALL".
  destruct (decide (product_name it = "")) as [E|E].
  - split; [by left|]. intros _. reflexivity.
  - rewrite orb_true_iff, !bool_decide_eq_true. split.
    + intros [H| ->]; right; [done|reflexivity].
    + intros [H|H]; [done|by left].
Qed.

(** C7 (QA scope fallback), as the code has it: when no item's product name
    is empty, equals ["overall"] or equals the scope up to case, the search
    ranks the whole item set: it returns the items at the top positions of
    the cosine ranking of all questions, [min(top_k, number of items)] of
    them for a non-negative [top_k]. *)
Theorem qa_scope_fallback e pairs qa tr query product_scope top_k :
  QARetriever_init linalg_norm e (Some pairs) = (Ok qa, tr) ->
  pairs <> [] ->
  (forall it, it ∈ pairs ->
     product_name it <> ""
     /\ Text.upper (product_name it) <> Text.upper (default "overall" product_scope)
     /\ product_name it <> "overall") ->
  let scores := map (fun it => cosine linalg_norm e query (question it)) pairs in
  let top := top_indices_of np_argsort scores top_k in
  QARetriever_search linalg_norm np_argsort qa query product_scope top_k
  = (Ok (pick pairs top, pick scores top), [EvEmbed query])
  /\ ((0 <= top_k)%Z -> length (pick pairs top) = Z.to_nat top_k `min` length pairs).
Proof.
  intros Hqa Hne Hscope scores top.
  rewrite QARetriever_init_loaded in Hqa. injection Hqa as <- _. cbn [default].
  assert (candidate_indices_of (default "overall" product_scope) pairs
          = seq 0 (length pairs)) as Hcand.
  { unfold candidate_indices_of. rewrite scope_indices_nil; [done|].
    rewrite Forall_forall. intros it Hit. destruct (Hscope it Hit) as (H1 & H2 & H3).
    unfold in_scope, p_name_of. destruct (decide (product_name it = "")); [done|].
    by rewrite !bool_decide_eq_false_2. }
  assert (Forall (fun i => i < length pairs) top) as Htop.
  { rewrite Forall_forall. intros i Hi. apply top_indices_lt in Hi.
    subst scores. by rewrite length_fmap in Hi. }
  split.
  - rewrite qa_search_loaded by done. rewrite Hcand.
    unfold qa_scores_of. rewrite pick_all. fold scores. fold top.
    by rewrite pick_seq_lt.
  - intros Hk. rewrite pick_length by done. subst top.
    rewrite top_indices_length by done. subst scores. by rewrite length_fmap.
Qed.

(** C10 (a missing scope), as the code has it: a search with
    [product_name = None] is the search with [product_name = "overall"]; on a
    loaded, non-empty QA set it ranks the items whose product name is empty
    or equals ["overall"] up to case, and every item when there is none. *)
Theorem none_scope_is_overall :
  (forall (self : QARetriever) query top_k,
      QARetriever_search linalg_norm np_argsort self query None top_k
      = QARetriever_search linalg_norm np_argsort self query (Some "overall") top_k)
  /\ (forall e pairs qa tr query top_k,
      QARetriever_init linalg_norm e (Some pairs) = (Ok qa, tr) ->
      pairs <> [] ->
      let overall it :=
        product_name it = "" \/ Text.upper (product_name it) = "OVERALL" in
      exists cand,
        (forall i, i ∈ cand
                   <-> exists it, pairs !! i = Some it
                                  /\ (overall it \/ Forall (fun it' => ~ overall it') pairs))
        /\ let scores := qa_scores_of linalg_norm e query pairs cand in
           let top := top_indices_of np_argsort scores top_k in
           QARetriever_search linalg_norm np_argsort qa query None top_k
           = (Ok (pick pairs (pick cand top), pick scores top), [EvEmbed query])).
Proof.
  split; [reflexivity|].
  intros e pairs qa tr query top_k Hqa Hne overall.
  rewrite QARetriever_init_loaded in Hqa. injection Hqa as <- _. cbn [default].
  exists (candidate_indices_of "overall" pairs). split; [|by apply qa_search_loaded].
  intros i. unfold candidate_indices_of.
  destruct (scope_indices "overall" 0 pairs) as [|c l] eqn:E.
  - assert (Forall (fun it' => ~ overall it') pairs) as Hnone.
    { rewrite Forall_forall. intros it Hit Hov.
      apply list_elem_of_lookup in Hit as [j Hj].
      assert (j ∈ scope_indices "overall" 0 pairs) as Hin.
      { apply scope_indices_elem. exists it. rewrite Nat.sub_0_r.
        split_and!; [lia|done|by apply in_scope_overall]. }
      rewrite E in Hin. by apply elem_of_nil in Hin. }
    rewrite elem_of_seq. split.
    + intros [_ Hi]. simpl in Hi. apply lookup_lt_is_Some in Hi as [it Hit]. eauto.
    + intros (it & Hit & _). apply lookup_lt_Some in Hit. lia.
  - rewrite <- E, scope_indices_elem, Nat.sub_0_r. split.
    + intros (it & _ & Hit & Hs). exists it. split; [done|].
      left. by apply in_scope_overall.
    + intros (it & Hit & [Hov|Hnone]).
      * exists it. split_and!; [lia|done|by apply in_scope_overall].
      * exfalso. assert (c ∈ scope_indices "overall" 0 pairs) as Hc
          by (rewrite E; apply elem_of_cons; by left).
        apply scope_indices_elem in Hc as (it' & _ & Hit' & Hs).
        rewrite Nat.sub_0_r in Hit'. apply in_scope_overall in Hs.
        rewrite Forall_forall in Hnone. apply (Hnone it'); [|done].
        by eapply list_elem_of_lookup_2.
Qed.

(** ** Product extraction *)

Lemma append_assoc (a b c : string) : (a +:+ b) +:+ c = a +:+ b +:+ c.
Proof.
  induction a as [|x a IH]; [reflexivity|].
  change (String x ((a +:+ b) +:+ c) = String x (a +:+ b +:+ c)). by rewrite IH.
Qed.

Lemma split_on_shape sep s :
  exists init seg,
    Text.split_on sep s = init ++ [seg]
    /\ ~ In sep (list_ascii_of_string seg)
    /\ s = fold_right (fun t acc => t +:+ String sep acc) seg init.
Proof.
  induction s as [|c s (init & seg & Hsplit & Hseg & Hs)].
  - exists [], "". simpl. auto.
  - simpl. destruct (decide (c = sep)) as [->|Hc].
    + exists ("" :: init), seg. rewrite Hsplit. simpl. split_and!; auto. by rewrite <- Hs.
    + rewrite Hsplit. destruct init as [|t init]; simpl.
      * exists [], (String c seg). simpl in *. split_and!; auto; [|by rewrite Hs].
        intros [?|?]; auto.
      * exists (String c t :: init), seg. simpl in *. split_and!; auto. by rewrite Hs.
Qed.

(** The suffix of an id is its part after the last ['-'], upper-cased. *)
Lemma suffix_of_last_segment pid :
  exists pre seg,
    pid = pre +:+ seg
    /\ ~ In "-"%char (list_ascii_of_string seg)
    /\ (pre = "" \/ exists pre', pre = pre' +:+ "-")
    /\ ProductNameExtractor.suffix_of pid = Text.upper seg.
Proof.
  destruct (split_on_shape "-" pid) as (init & seg & Hsplit & Hseg & Hs).
  unfold ProductNameExtractor.suffix_of. rewrite Hsplit, last_last.
  enough (exists pre, fold_right (fun t acc => t +:+ String "-" acc) seg init = pre +:+ seg
                      /\ (pre = "" \/ exists pre', pre = pre' +:+ "-")) as (pre & Hpre & Hend).
  { exists pre, seg. split_and!; auto. congruence. }
  clear. induction init as [|t init (pre & Hpre & Hend)]; simpl.
  - exists "". auto.
  - rewrite Hpre. exists (t +:+ "-" +:+ pre). split.
    + change (String "-" (pre +:+ seg)) with (("-" +:+ pre) +:+ seg).
      by rewrite !append_assoc.
    + right. destruct Hend as [->|[pre' ->]].
      * by exists t.
      * exists (t +:+ "-" +:+ pre'). by rewrite !append_assoc.
Qed.

Lemma scan_models_first products query_upper :
  let hit p := Text.contains query_upper
                 (ProductNameExtractor.suffix_of (product_id p)) in
  match ProductNameExtractor.scan_models
          (map (fun p => (product_id p, p_product_name p)) products) query_upper with
  | Some pid =>
      exists before p after,
        products = before ++ p :: after /\ product_id p = pid
        /\ hit p = true /\ Forall (fun p' => hit p' = false) before
  | None => Forall (fun p => hit p = false) products
  end.
Proof.
  intros hit. induction products as [|p products IH]; simpl; [constructor|].
  fold (hit p). destruct (hit p) eqn:E.
  - exists [], p, products. auto.
  - destruct (ProductNameExtractor.scan_models _ _) as [pid|].
    + destruct IH as (before & p' & after & -> & Hpid & Hhit & Hbefore).
      exists (p :: before), p', after. split_and!; auto.
    + by constructor.
Qed.

(** C9 (product extraction): with a non-empty catalog, [extract] returns
    the id of the first product, in catalog order, whose suffix occurs in the
    upper-cased query, and [None] when no suffix occurs; the suffix of an id
    is its part after the last ['-'], upper-cased. *)
Theorem extract_first_suffix_match products query :
  products <> [] ->
  let self := ProductNameExtractor.init (Some products) in
  let hit p := Text.contains (Text.upper query)
                 (ProductNameExtractor.suffix_of (product_id p)) in
  match ProductNameExtractor.extract self query with
  | Some pid =>
      exists before p after,
        products = before ++ p :: after /\ product_id p = pid
        /\ hit p = true /\ Forall (fun p' => hit p' = false) before
  | None => Forall (fun p => hit p = false) products
  end
  /\ forall pid, exists pre seg,
       pid = pre +:+ seg
       /\ ~ In "-"%char (list_ascii_of_string seg)
       /\ (pre = "" \/ exists pre', pre = pre' +:+ "-")
       /\ ProductNameExtractor.suffix_of pid = Text.upper seg.
Proof.
  intros Hne self hit. split; [|apply suffix_of_last_segment].
  pose proof (scan_models_first products (Text.upper query)) as H. cbv zeta in H.
  unfold ProductNameExtractor.extract, self, ProductNameExtractor.init.
  cbn [ProductNameExtractor.known_models ProductNameExtractor.fallback_suffixes].
  destruct (ProductNameExtractor.scan_models _ _) as [pid|]; [exact H|].
  destruct products as [|p products]; [done|]. exact H.
Qed.

(** ** The orchestrator *)

Lemma chunk_data_nonempty products :
  products <> [] -> ConvertSpec.chunk_data products <> [].
Proof.
  destruct products as [|p products]; [done|]. intros _. simpl.
  by destruct (map (ConvertSpec.spec_chunk p) (specs p)).
Qed.

Lemma RAGSystem_init_built e spec_file qa_file self tr :
  RAGSystem_init linalg_norm e spec_file qa_file = (Ok self, tr) ->
  spec_file <> []
  /\ self = {| embed_engine := e;
               index := indexed linalg_norm e (ConvertSpec.chunk_data spec_file);
               loader := spec_file;
               rag_chunks := ConvertSpec.chunk_data spec_file;
               qa_retriever := loaded linalg_norm e (default [] qa_file);
               product_extractor := ProductNameExtractor.init (Some spec_file) |}.
Proof.
  unfold RAGSystem_init. destruct spec_file as [|p ps]; [intros H; cbn in H; discriminate|].
  rewrite add_chunks_nonempty by (by apply chunk_data_nonempty).
  cbn [bind]. rewrite QARetriever_init_loaded. cbn [bind ret].
  intros [= <- _]. done.
Qed.

Lemma is_full_specs_spec_chunk p sp :
  is_full_specs (ConvertSpec.spec_chunk p sp) = bool_decide (key sp = "Full Specs").
Proof.
  unfold is_full_specs, ConvertSpec.spec_chunk, ConvertSpec.chunk_metadata.
  cbn [metadata]. rewrite !lookup_insert_ne by done. rewrite lookup_singleton_eq.
  apply bool_decide_ext. split; congruence.
Qed.

Lemma is_full_specs_rollup p : is_full_specs (ConvertSpec.full_specs_chunk p) = true.
Proof.
  unfold is_full_specs, ConvertSpec.full_specs_chunk, ConvertSpec.chunk_metadata.
  cbn [metadata]. rewrite !lookup_insert_ne by done. rewrite lookup_singleton_eq.
  by apply bool_decide_eq_true.
Qed.

(** One rollup chunk per product, in catalog order, unless a spec entry is
    itself keyed ["Full Specs"]. *)
Lemma chunk_data_rollups products :
  Forall (fun p => Forall (fun sp => key sp <> "Full Specs") (specs p)) products ->
  List.filter is_full_specs (ConvertSpec.chunk_data products)
  = map ConvertSpec.full_specs_chunk products.
Proof.
  induction 1 as [|p products Hp _ IH]; [reflexivity|].
  simpl. rewrite List.filter_app. simpl. rewrite is_full_specs_rollup, IH.
  assert (List.filter is_full_specs (map (ConvertSpec.spec_chunk p) (specs p)) = []) as ->;
    [|reflexivity].
  induction Hp as [|sp sps Hsp _ IHsp]; [reflexivity|].
  simpl. rewrite is_full_specs_spec_chunk, (bool_decide_eq_false_2 _ Hsp). exact IHsp.
Qed.

Lemma classify_comparison (self : RAGSystem) query :
  classify self query = Comparison <-> QueryFilter.is_comparison_query query = true.
Proof.
  unfold classify. destruct (QueryFilter.is_comparison_query query); [done|].
  destruct (truthy _); [done|].
  by destruct (QueryFilter.is_product_list_query query).
Qed.

Lemma any_keyword_elem keywords query_lower kw :
  kw ∈ keywords -> Text.contains query_lower (Text.lower kw) = true ->
  QueryFilter.any_keyword keywords query_lower = true.
Proof.
  induction 1 as [kw keywords|kw kw' keywords _ IH]; simpl; intros H.
  - by rewrite H.
  - rewrite (IH H). destruct (Text.contains query_lower (Text.lower kw')); reflexivity.
Qed.

Lemma search_trace_starts (self : ChunkRetriever) query top_k candidate_chunks :
  exists rest,
    trace_of (ChunkRetriever_search linalg_norm np_argsort self query top_k candidate_chunks)
    = EvEmbed query :: rest.
Proof.
  unfold ChunkRetriever_search, embed. cbn [bind].
  destruct (match default (chunks self) candidate_chunks with [] => _ | _ => _ end)
    as [r t]. simpl. eauto.
Qed.

Lemma retrieve_chunks_comparison (self : RAGSystem) query :
  classify self query = Comparison ->
  retrieve_chunks linalg_norm np_argsort self query
  = (Ok (List.filter is_full_specs (rag_chunks self),
         repeat 1.0%Q (length (List.filter is_full_specs (rag_chunks self))), []), []).
Proof. intros Hmode. unfold retrieve_chunks. by rewrite Hmode. Qed.

(** The rollup of every product is in the corpus, in catalog order. *)
Lemma chunk_data_rollups_sublist products :
  map ConvertSpec.full_specs_chunk products
  `sublist_of` List.filter is_full_specs (ConvertSpec.chunk_data products).
Proof.
  induction products as [|p products IH]; [constructor|].
  simpl. rewrite List.filter_app. simpl. rewrite is_full_specs_rollup.
  apply sublist_inserts_l. by apply sublist_skip.
Qed.

(** C3 (comparison bypass): for a query classified as Comparison the chunk
    step returns the chunks keyed ["Full Specs"] in corpus order, each with
    score 1.0, and records no embedder call, whereas every call of
    [ChunkRetriever.search] records one. On the corpus built from a catalog
    these chunks hold the rollup of every product, in catalog order, and
    nothing else unless a spec entry is itself keyed ["Full Specs"]. *)
Theorem comparison_returns_all_full_specs (self : RAGSystem) query :
  classify self query = Comparison ->
  let rollups := List.filter is_full_specs (rag_chunks self) in
  retrieve_chunks linalg_norm np_argsort self query
  = (Ok (rollups, repeat 1.0%Q (length rollups), []), [])
  /\ (forall idx q top_k candidate_chunks, exists rest,
        trace_of (ChunkRetriever_search linalg_norm np_argsort idx q top_k candidate_chunks)
        = EvEmbed q :: rest)
  /\ (forall e spec_file qa_file tr,
        RAGSystem_init linalg_norm e spec_file qa_file = (Ok self, tr) ->
        map ConvertSpec.full_specs_chunk spec_file `sublist_of` rollups
        /\ (Forall (fun p => Forall (fun sp => key sp <> "Full Specs") (specs p)) spec_file ->
            rollups = map ConvertSpec.full_specs_chunk spec_file)).
Proof.
  intros Hmode rollups. split_and!.
  - by apply retrieve_chunks_comparison.
  - apply search_trace_starts.
  - intros e spec_file qa_file tr Hinit.
    apply RAGSystem_init_built in Hinit as [_ ->]. subst rollups. cbn [rag_chunks].
    split; [apply chunk_data_rollups_sublist|apply chunk_data_rollups].
Qed.

(** What each answer of the router says about the three tests. *)
Lemma classify_cases (self : RAGSystem) q :
  match classify self q with
  | Comparison => QueryFilter.is_comparison_query q = true
  | SpecificProduct pid' =>
      QueryFilter.is_comparison_query q = false
      /\ truthy (ProductNameExtractor.extract (product_extractor self) q) = Some pid'
  | ProductList =>
      QueryFilter.is_comparison_query q = false
      /\ truthy (ProductNameExtractor.extract (product_extractor self) q) = None
      /\ QueryFilter.is_product_list_query q = true
  | General =>
      QueryFilter.is_comparison_query q = false
      /\ truthy (ProductNameExtractor.extract (product_extractor self) q) = None
      /\ QueryFilter.is_product_list_query q = false
  end.
Proof.
  unfold classify. destruct (QueryFilter.is_comparison_query q); [done|].
  destruct (truthy _); [done|].
  by destruct (QueryFilter.is_product_list_query q).
Qed.

(** C4 (mode priority): the four modes are decided in the fixed order
    Comparison, SpecificProduct, ProductList, General, and the first test
    that passes wins. A query is Comparison exactly when it contains a
    comparison keyword, whatever [extract] returns; SpecificProduct exactly
    when it has none and a non-empty id is extracted; ProductList exactly
    when neither holds and it contains a product-list keyword; General
    exactly when all three tests fail. So a query with a comparison keyword
    and an extractable product id takes the Full-Specs bypass. *)
Theorem comparison_takes_priority (self : RAGSystem) query kw pid :
  kw ∈ QueryFilter.COMPARISON_KEYWORDS ->
  Text.contains query kw = true
  \/ Text.contains (Text.lower query) (Text.lower kw) = true ->
  ProductNameExtractor.extract (product_extractor self) query = Some pid ->
  classify self query = Comparison
  /\ retrieve_chunks linalg_norm np_argsort self query
     = (Ok (List.filter is_full_specs (rag_chunks self),
            repeat 1.0%Q (length (List.filter is_full_specs (rag_chunks self))), []), [])
  /\ (forall q,
        classify self q = Comparison <-> QueryFilter.is_comparison_query q = true)
  /\ (forall q pid',
        classify self q = SpecificProduct pid' <->
        QueryFilter.is_comparison_query q = false
        /\ truthy (ProductNameExtractor.extract (product_extractor self) q) = Some pid')
  /\ (forall q,
        classify self q = ProductList <->
        QueryFilter.is_comparison_query q = false
        /\ truthy (ProductNameExtractor.extract (product_extractor self) q) = None
        /\ QueryFilter.is_product_list_query q = true)
  /\ (forall q,
        classify self q = General <->
        QueryFilter.is_comparison_query q = false
        /\ truthy (ProductNameExtractor.extract (product_extractor self) q) = None
        /\ QueryFilter.is_product_list_query q = false).
Proof.
  intros Hkw Hin Hpid.
  assert (classify self query = Comparison) as Hmode.
  { apply classify_comparison. unfold QueryFilter.is_comparison_query.
    eapply any_keyword_elem; [exact Hkw|].
    destruct Hin as [Hin|Hin]; [by apply contains_lower|done]. }
  split_and!; [done|by apply retrieve_chunks_comparison|..].
  - intros q. split.
    + intros H. pose proof (classify_cases self q) as C. by rewrite H in C.
    + intros H. unfold classify. by rewrite H.
  - intros q pid'. split.
    + intros H. pose proof (classify_cases self q) as C. by rewrite H in C.
    + intros [H1 H2]. unfold classify. by rewrite H1, H2.
  - intros q. split.
    + intros H. pose proof (classify_cases self q) as C. by rewrite H in C.
    + intros (H1 & H2 & H3). unfold classify. by rewrite H1, H2, H3.
  - intros q. split.
    + intros H. pose proof (classify_cases self q) as C. by rewrite H in C.
    + intros (H1 & H2 & H3). unfold classify. by rewrite H1, H2, H3.
Qed.

Lemma filter_results_filter include pairs :
  filter_results include pairs
  = List.filter (fun cs => negb (negb include && is_full_specs (fst cs))) pairs.
Proof.
  induction pairs as [|[c s] pairs IH]; [reflexivity|].
  simpl. rewrite IH. by destruct (negb include && is_full_specs c).
Qed.

Lemma include_full_specs_false is_comparison facts scores :
  include_full_specs is_comparison facts scores = false
  <-> is_comparison = false
      /\ (facts <> [] \/ exists s0 rest, scores = s0 :: rest /\ (1.2 < s0)%Q).
Proof.
  unfold include_full_specs. destruct is_comparison; [by split; [|intros [? _]]|].
  destruct scores as [|s0 rest].
  - destruct facts; split; try done.
    + intros [_ [?|(? & ? & ? & _)]]; done.
    + intros _. split; [done|]. by left.
  - destruct (Qle_bool s0 1.2) eqn:E; simpl.
    + apply Qle_bool_iff in E. destruct facts; split; try done.
      * intros [_ [?|(s0' & rest' & [= <- <-] & Hlt)]]; [done|].
        by apply Qlt_not_le in Hlt.
      * intros _. split; [done|]. by left.
    + assert (1.2 < s0)%Q as Hlt.
      { apply Qnot_le_lt. intros Hle. apply Qle_bool_iff in Hle. congruence. }
      split; [|done]. intros _. split; [done|]. right. eauto.
Qed.

Lemma search_corpus_subset e cs query top_k target :
  Forall (fun t => t ∈ cs) target ->
  exists results,
    ChunkRetriever_search linalg_norm np_argsort (indexed linalg_norm e cs) query top_k (Some target)
    = (Ok (results, map (hybrid linalg_norm e query) results), [EvEmbed query]).
Proof.
  intros Hall.
  destruct (search_scores_resolved e cs query top_k (Some target) Hall) as [top ->].
  eauto.
Qed.

Lemma retrieve_chunks_built e spec_file qa_file self tr query :
  RAGSystem_init linalg_norm e spec_file qa_file = (Ok self, tr) ->
  exists results scores,
    retrieve_chunks linalg_norm np_argsort self query
    = (Ok (results, scores,
           match classify self query with
           | ProductList => [product_list_fact self]
           | _ => []
           end),
       match classify self query with
       | Comparison => []
       | _ => [EvEmbed query]
       end)
    /\ (classify self query <> Comparison ->
        scores = map (hybrid linalg_norm e query) results).
Proof.
  intros Hinit. apply RAGSystem_init_built in Hinit as [_ ->].
  set (cs := ConvertSpec.chunk_data spec_file).
  assert (Forall (fun t => t ∈ cs) cs) as Hall by (by apply Forall_forall).
  unfold retrieve_chunks. destruct (classify _ query) as [|pid| |]; cbn [index rag_chunks].
  - do 2 eexists. split; [reflexivity|done].
  - destruct (search_corpus_subset e cs query RETRIEVAL_TOP_K
                (List.filter (fun c => bool_decide (metadata c !! "product_id" = Some pid)) cs))
      as [results ->].
    { rewrite Forall_forall. intros t Ht. apply list_elem_of_In, filter_In in Ht as [Ht _].
      by apply list_elem_of_In. }
    cbn [bind ret]. do 2 eexists. split; [reflexivity|done].
  - destruct (search_corpus_subset e cs query RETRIEVAL_TOP_K cs Hall) as [results ->].
    cbn [bind ret]. do 2 eexists. split; [reflexivity|done].
  - destruct (search_corpus_subset e cs query RETRIEVAL_TOP_K cs Hall) as [results ->].
    cbn [bind ret]. do 2 eexists. split; [reflexivity|done].
Qed.

Lemma qa_search_built e pairs query scope top_k :
  exists r,
    QARetriever_search linalg_norm np_argsort (loaded linalg_norm e pairs) query scope top_k
    = (Ok r, match pairs with [] => [] | _ => [EvEmbed query] end).
Proof.
  destruct pairs as [|qa pairs].
  - rewrite qa_search_empty by done. eauto.
  - rewrite qa_search_loaded by done. eauto.
Qed.

(** C2 (Full-Specs inclusion policy): the context step keeps the ranked
    pairs of the chunk step in their order and drops exactly the chunks
    keyed ["Full Specs"] when the query is not a comparison and either a
    fact was injected (ProductList mode) or the first score, the hybrid
    score of the top-ranked chunk, exceeds 1.2; in Comparison mode nothing
    is dropped. The embedder calls of
    [_process_query] are those of the chunk step followed by the one of the
    QA search: the chunk search is not run again. *)
Theorem full_specs_policy e spec_file qa_file self tr query :
  RAGSystem_init linalg_norm e spec_file qa_file = (Ok self, tr) ->
  exists results scores facts tr_chunks tr_qa out (excluded : bool),
    retrieve_chunks linalg_norm np_argsort self query = (Ok (results, scores, facts), tr_chunks)
    /\ _process_query linalg_norm np_argsort format_score self query = (Ok out, tr_chunks ++ tr_qa)
    /\ tr_chunks = match classify self query with
                   | Comparison => []
                   | _ => [EvEmbed query]
                   end
    /\ tr_qa = match default [] qa_file with [] => [] | _ => [EvEmbed query] end
    /\ (facts <> [] <-> classify self query = ProductList)
    /\ (classify self query <> Comparison ->
        scores = map (hybrid linalg_norm e query) results)
    /\ (excluded = true
        <-> classify self query <> Comparison
            /\ (facts <> [] \/ exists s0 rest, scores = s0 :: rest /\ (1.2 < s0)%Q))
    /\ zip (final_chunk_results out) (final_chunk_scores out)
       = List.filter (fun cs => negb (excluded && is_full_specs (fst cs)))
           (zip results scores)
    /\ retrieval_metadata out
       = map chunk_evidence (zip (final_chunk_results out) (final_chunk_scores out))
         ++ map qa_evidence (zip (qa_results out) (qa_scores out)).
Proof.
  intros Hinit.
  destruct (retrieve_chunks_built _ _ _ _ _ query Hinit)
    as (results & scores & Hstep & Hscores).
  pose proof Hinit as Hbuilt. apply RAGSystem_init_built in Hbuilt as [_ Hself].
  set (facts := match classify self query with
                | ProductList => [product_list_fact self] | _ => [] end) in *.
  set (is_cmp := QueryFilter.is_comparison_query query).
  set (include := include_full_specs is_cmp facts scores).
  set (scope := match truthy (ProductNameExtractor.extract (product_extractor self) query) with
                | Some pid => ProductNameExtractor.suffix_of pid
                | None => "overall" end).
  destruct (qa_search_built e (default [] qa_file) query (Some scope) 1) as [[qr qs] Hqa].
  assert (qa_retriever self = loaded linalg_norm e (default [] qa_file)) as Hqr
    by (by rewrite Hself).
  rewrite <- Hqr in Hqa.
  eexists results, scores, facts, _, _, _, (negb include).
  split_and!.
  - exact Hstep.
  - unfold _process_query. rewrite Hstep. cbn [bind]. fold is_cmp. fold scope.
    rewrite Hqa. cbn [bind ret]. rewrite app_nil_r. reflexivity.
  - reflexivity.
  - reflexivity.
  - subst facts. destruct (classify self query); split; done.
  - exact Hscores.
  - rewrite negb_true_iff. subst include. rewrite include_full_specs_false.
    subst is_cmp. pose proof (classify_comparison self query) as Hc.
    destruct (QueryFilter.is_comparison_query query).
    + split; [by intros [? _]|]. intros [Hne _]. destruct Hne. by apply Hc.
    + assert (classify self query <> Comparison) as Hne.
      { intros Hcmp. apply Hc in Hcmp. discriminate. }
      tauto.
  - cbn [final_chunk_results final_chunk_scores]. rewrite zip_fst_snd.
    apply filter_results_filter.
  - cbn [final_chunk_results final_chunk_scores retrieval_metadata qa_results qa_scores].
    by rewrite zip_fst_snd.
Qed.

(** * Further properties of the engine and of the knowledge-base tools *)

(** ** Text *)

Lemma upper_lower_char c : Text.upper_char (Text.lower_char c) = Text.upper_char c.
Proof. destruct c as [[] [] [] [] [] [] [] []]; reflexivity. Qed.

Lemma lower_upper_char c : Text.lower_char (Text.upper_char c) = Text.lower_char c.
Proof. destruct c as [[] [] [] [] [] [] [] []]; reflexivity. Qed.

Lemma upper_upper_char c : Text.upper_char (Text.upper_char c) = Text.upper_char c.
Proof. destruct c as [[] [] [] [] [] [] [] []]; reflexivity. Qed.

Lemma lower_lower_char c : Text.lower_char (Text.lower_char c) = Text.lower_char c.
Proof. destruct c as [[] [] [] [] [] [] [] []]; reflexivity. Qed.

Lemma upper_lower s : Text.upper (Text.lower s) = Text.upper s.
Proof. induction s as [|c s IH]; simpl; [done|]. by rewrite upper_lower_char, IH. Qed.

Lemma lower_upper s : Text.lower (Text.upper s) = Text.lower s.
Proof. induction s as [|c s IH]; simpl; [done|]. by rewrite lower_upper_char, IH. Qed.

Lemma upper_upper s : Text.upper (Text.upper s) = Text.upper s.
Proof. induction s as [|c s IH]; simpl; [done|]. by rewrite upper_upper_char, IH. Qed.

Lemma lower_lower s : Text.lower (Text.lower s) = Text.lower s.
Proof. induction s as [|c s IH]; simpl; [done|]. by rewrite lower_lower_char, IH. Qed.

Lemma lower_app a b : Text.lower (a +:+ b) = Text.lower a +:+ Text.lower b.
Proof.
  induction a as [|c a IH]; [done|].
  change (String (Text.lower_char c) (Text.lower (a +:+ b))
          = String (Text.lower_char c) (Text.lower a +:+ Text.lower b)).
  by rewrite IH.
Qed.

Lemma upper_app a b : Text.upper (a +:+ b) = Text.upper a +:+ Text.upper b.
Proof.
  induction a as [|c a IH]; [done|].
  change (String (Text.upper_char c) (Text.upper (a +:+ b))
          = String (Text.upper_char c) (Text.upper a +:+ Text.upper b)).
  by rewrite IH.
Qed.

Lemma append_nil_r (s : string) : s +:+ "" = s.
Proof.
  induction s as [|c s IH]; [done|].
  change (String c (s +:+ "") = String c s). by rewrite IH.
Qed.

Lemma prefix_spec p s : String.prefix p s = true <-> exists b, s = p +:+ b.
Proof.
  revert s. induction p as [|c p IH]; intros [|d s]; simpl.
  - split; [by exists ""|done].
  - split; [by exists (String d s)|done].
  - split; [done|]. intros [b Hb]. discriminate.
  - destruct (Ascii.ascii_dec c d) as [->|Hne].
    + rewrite IH. split; intros [b Hb]; exists b.
      * change (String d s = String d (p +:+ b)). by rewrite Hb.
      * change (String d s = String d (p +:+ b)) in Hb. congruence.
    + split; [done|]. intros [b Hb].
      change (String d s = String c (p +:+ b)) in Hb. congruence.
Qed.

(** Substring containment, as a decomposition of the text. *)
Lemma contains_spec hay needle :
  Text.contains hay needle = true <-> exists a b, hay = a +:+ needle +:+ b.
Proof.
  induction hay as [|c hay IH].
  - unfold Text.contains. rewrite orb_false_r, prefix_spec. split.
    + intros [b Hb]. by exists "", b.
    + intros (a & b & H). destruct a as [|x a]; [by exists b|discriminate].
  - unfold Text.contains; fold Text.contains.
    rewrite orb_true_iff, prefix_spec, IH. split.
    + intros [[b Hb]|(a & b & H)].
      * by exists "", b.
      * exists (String c a), b. change (String c hay = String c (a +:+ needle +:+ b)).
        by rewrite H.
    + intros (a & b & H). destruct a as [|x a].
      * left. by exists b.
      * right. exists a, b.
        change (String c hay = String x (a +:+ needle +:+ b)) in H. congruence.
Qed.

Lemma contains_refl s : Text.contains s s = true.
Proof. apply contains_spec. exists "", "". by rewrite append_nil_r. Qed.

Lemma contains_trans a b c :
  Text.contains a b = true -> Text.contains b c = true -> Text.contains a c = true.
Proof.
  rewrite !contains_spec. intros (a1 & a2 & ->) (b1 & b2 & ->).
  exists (a1 +:+ b1), (b2 +:+ a2). by rewrite !append_assoc.
Qed.

Lemma contains_app_l a b x :
  Text.contains a x = true -> Text.contains (a +:+ b) x = true.
Proof.
  rewrite !contains_spec. intros (a1 & a2 & ->).
  exists a1, (a2 +:+ b). by rewrite !append_assoc.
Qed.

Lemma contains_app_r a b x :
  Text.contains b x = true -> Text.contains (a +:+ b) x = true.
Proof.
  rewrite !contains_spec. intros (b1 & b2 & ->).
  exists (a +:+ b1), b2. by rewrite !append_assoc.
Qed.
(** ** ChunkRetriever *)

(** X1: a search on an indexed corpus embeds the query once, never raises,
    returns only chunks of the candidate list with one score each, and
    returns [min(top_k, r)] of them for [top_k >= 0] and [r - |top_k|] (or
    none) for a negative [top_k], where [r] candidates occur in the corpus. *)
Theorem search_returns_candidates e cs idx tr query top_k candidate_chunks :
  add_chunks linalg_norm (ChunkRetriever_init e) cs = (Ok idx, tr) ->
  let target := default cs candidate_chunks in
  exists results scores,
    ChunkRetriever_search linalg_norm np_argsort idx query top_k candidate_chunks
    = (Ok (results, scores), [EvEmbed query])
    /\ Forall (fun c => c ∈ target) results
    /\ length scores = length results
    /\ length results
       = if (0 <=? top_k)%Z then Z.to_nat top_k `min` length (resolved cs target)
         else length (resolved cs target) - Z.to_nat (- top_k).
Proof.
  intros Hidx target.
  apply add_chunks_indexed in Hidx as (_ & -> & _). cbn [engine ChunkRetriever_init].
  rewrite search_indexed. fold target.
  set (final := fused linalg_norm e query cs target).
  assert (length final = length (resolved cs target)) as Hlen.
  { unfold final, fused. rewrite length_zip_with.
    pose proof (resolved_length cs target). lia. }
  assert (Forall (fun i => i < length final) (top_indices_of np_argsort final top_k)) as Hfin.
  { rewrite Forall_forall. intros i Hi. by apply top_indices_lt in Hi. }
  assert (Forall (fun i => i < length target) (top_indices_of np_argsort final top_k)) as Htar.
  { eapply Forall_impl; [exact Hfin|]. simpl. intros i Hi.
    pose proof (resolved_length cs target). lia. }
  do 2 eexists. split_and!; [reflexivity| | |].
  - rewrite Forall_forall. intros c Hc. unfold pick in Hc.
    apply list_elem_of_omap in Hc as (i & _ & Hi). by eapply list_elem_of_lookup_2.
  - by rewrite !pick_length.
  - by rewrite pick_length, top_indices_length_any, Hlen.
Qed.

(** X2: the scores of a search come in non-increasing order, and the first
    one is the largest score any candidate received. *)
Theorem search_scores_descending e cs idx tr query top_k candidate_chunks :
  add_chunks linalg_norm (ChunkRetriever_init e) cs = (Ok idx, tr) ->
  exists results scores,
    result_of (ChunkRetriever_search linalg_norm np_argsort idx query top_k candidate_chunks)
    = Ok (results, scores)
    /\ StronglySorted (fun x y => (y <= x)%Q) scores
    /\ (forall s0 s, scores !! 0 = Some s0 ->
          s ∈ fused linalg_norm e query cs (default cs candidate_chunks) ->
          (s <= s0)%Q).
Proof.
  intros Hidx.
  apply add_chunks_indexed in Hidx as (_ & -> & _). cbn [engine ChunkRetriever_init].
  rewrite search_indexed. do 2 eexists. split; [reflexivity|].
  apply ranked_scores_sorted.
Qed.

(** X3: when every candidate is in the corpus, each returned chunk is paired
    with its own hybrid score, which is its cosine similarity when no query
    token occurs in it. *)
Theorem hybrid_scores_when_candidates_resolve e cs idx tr query top_k candidate_chunks :
  add_chunks linalg_norm (ChunkRetriever_init e) cs = (Ok idx, tr) ->
  Forall (fun t => t ∈ cs) (default cs candidate_chunks) ->
  exists results,
    ChunkRetriever_search linalg_norm np_argsort idx query top_k candidate_chunks
    = (Ok (results, map (hybrid linalg_norm e query) results), [EvEmbed query])
    /\ Forall (fun c => c ∈ cs) results
    /\ Forall (fun c => overlap (query_tokens_of query) c = 0 ->
                        (hybrid linalg_norm e query c
                         == cosine linalg_norm e query (content c))%Q) results.
Proof.
  intros Hidx Hall.
  apply add_chunks_indexed in Hidx as (_ & -> & _). cbn [engine ChunkRetriever_init].
  destruct (search_scores_resolved e cs query top_k candidate_chunks Hall)
    as [top ->].
  eexists. split_and!; [reflexivity| |].
  - rewrite Forall_forall. intros c Hc. unfold pick in Hc.
    apply list_elem_of_omap in Hc as (i & _ & Hi).
    rewrite Forall_forall in Hall. apply Hall. by eapply list_elem_of_lookup_2.
  - rewrite Forall_forall. intros c _. apply hybrid_without_overlap.
Qed.

(** X4: the keyword bonus is 0.05 per distinct query token found in the
    chunk, capped at 0.5 from ten tokens on; it lies between 0 and 0.5, so
    the hybrid score lies between the cosine and the cosine plus 0.5. *)
Theorem keyword_bonus_bounds e query c :
  let n := overlap (query_tokens_of query) c in
  let bonus := keyword_score (query_tokens_of query) c in
  (bonus == if (n <=? 10)%nat then inject_Z (Z.of_nat n) * 0.05 else 0.5)%Q
  /\ (0 <= bonus)%Q /\ (bonus <= 0.5)%Q
  /\ n <= length (query_tokens_of query)
  /\ (cosine linalg_norm e query (content c) <= hybrid linalg_norm e query c)%Q
  /\ (hybrid linalg_norm e query c <= cosine linalg_norm e query (content c) + 0.5)%Q.
Proof.
  intros n bonus.
  assert (0 <= inject_Z (Z.of_nat n) * 0.05)%Q as Hpos.
  { apply Qmult_le_0_compat; [|done].
    change 0%Q with (inject_Z 0). rewrite <- Zle_Qle. lia. }
  assert (bonus == if (n <=? 10)%nat then inject_Z (Z.of_nat n) * 0.05 else 0.5)%Q as Hval.
  { unfold bonus, keyword_score. fold n.
    destruct (Nat.leb_spec n 10) as [Hle|Hgt].
    - apply Q.min_l.
      assert (inject_Z (Z.of_nat n) <= inject_Z 10)%Q as H by (rewrite <- Zle_Qle; lia).
      apply (Qmult_le_compat_r _ _ 0.05) in H; [|done].
      eapply Qle_trans; [exact H|]. done.
    - apply Q.min_r.
      assert (inject_Z 10 <= inject_Z (Z.of_nat n))%Q as H by (rewrite <- Zle_Qle; lia).
      apply (Qmult_le_compat_r _ _ 0.05) in H; [|done].
      eapply Qle_trans; [|exact H]. done. }
  assert (0 <= bonus)%Q as H0.
  { unfold bonus, keyword_score. fold n. apply Q.min_glb; [exact Hpos|done]. }
  assert (bonus <= 0.5)%Q as H5.
  { unfold bonus, keyword_score. apply Q.le_min_r. }
  split_and!; auto.
  - unfold n, overlap. apply filter_length_le.
  - unfold hybrid. fold bonus.
    rewrite <- (Qplus_0_r (cosine linalg_norm e query (content c))) at 1.
    by apply Qplus_le_r.
  - unfold hybrid. fold bonus. by apply Qplus_le_r.
Qed.

Lemma filter_length_perm {A} (f : A -> bool) l1 l2 :
  l1 ≡ₚ l2 -> length (List.filter f l1) = length (List.filter f l2).
Proof.
  induction 1 as [|x l1 l2 _ IH|x y l|l1 l2 l3 _ IH1 _ IH2]; simpl.
  - done.
  - destruct (f x); simpl; by rewrite IH.
  - destruct (f x), (f y); done.
  - by rewrite IH1.
Qed.

(** X5: the bonus depends on the query only through its set of lower-cased
    tokens: repeating or reordering tokens leaves it unchanged. For an ASCII
    query, upper-casing the query leaves it unchanged, and for an ASCII
    chunk text so does upper-casing the text. *)
Theorem keyword_bonus_token_set query1 query2 c :
  (forall t, t ∈ Text.split (Text.lower query1) <-> t ∈ Text.split (Text.lower query2)) ->
  keyword_score (query_tokens_of query1) c = keyword_score (query_tokens_of query2) c
  /\ (Text.is_ascii query1 = true ->
      keyword_score (query_tokens_of (Text.upper query1)) c
      = keyword_score (query_tokens_of query1) c)
  /\ (Text.is_ascii (content c) = true ->
      keyword_score (query_tokens_of query1)
        {| content := Text.upper (content c); metadata := metadata c |}
      = keyword_score (query_tokens_of query1) c).
Proof.
  intros Hset. split_and!; [|intros _|intros _].
  - unfold keyword_score, overlap, query_tokens_of. do 4 f_equal.
    apply filter_length_perm.
    apply NoDup_Permutation; try apply NoDup_remove_dups.
    intros t. by rewrite !elem_of_remove_dups.
  - unfold query_tokens_of. by rewrite lower_upper.
  - unfold keyword_score, overlap. cbn [content]. by rewrite lower_upper.
Qed.

(** X6: [add_chunks] raises on an empty list; on a non-empty list it
    replaces the index, whatever was indexed before, by the chunks and one
    normalized vector per chunk at the same position, and it calls the
    embedder exactly once per chunk, in order. *)
Theorem add_chunks_builds_parallel_index (self : ChunkRetriever) cs :
  cs <> [] ->
  add_chunks linalg_norm self [] = (Raise ValueError, [])
  /\ exists vs,
       add_chunks linalg_norm self cs
       = (Ok {| engine := engine self; chunks := cs; vectors := Some vs |},
          map (fun c => EvEmbed (content c)) cs)
       /\ length vs = length cs
       /\ forall i c, cs !! i = Some c ->
            vs !! i = Some (unit_vector linalg_norm (engine self) (content c)).
Proof.
  intros Hne. split; [reflexivity|].
  rewrite add_chunks_nonempty by done. unfold indexed. eexists.
  split_and!; [reflexivity|by rewrite length_fmap|].
  intros i c Hc. by rewrite list_lookup_fmap, Hc.
Qed.

(** ** QARetriever *)

(** X7: a QA file that does not exist or is not valid JSON (the two
    failures [_load_qa_dataset] catches, the input [None]), or a file
    without pairs, leaves an empty index on which every search returns two
    empty lists without calling the embedder; a file with pairs is loaded in
    file order, each question embedded exactly once, with one vector per
    pair. Files that fail in another way are not covered: the code lets
    those errors escape. *)
Theorem qa_load_degrades_to_empty e pairs :
  pairs <> [] ->
  (forall qa_file, qa_file = None \/ qa_file = Some [] ->
     exists qa,
       QARetriever_init linalg_norm e qa_file = (Ok qa, [])
       /\ forall query scope top_k,
            QARetriever_search linalg_norm np_argsort qa query scope top_k = (Ok ([], []), []))
  /\ exists qa vs,
       QARetriever_init linalg_norm e (Some pairs)
       = (Ok qa, map (fun it => EvEmbed (question it)) pairs)
       /\ qa_items qa = pairs
       /\ qa_vectors qa = Some vs
       /\ length vs = length pairs.
Proof.
  intros Hne. split.
  - intros qa_file [-> | ->]; rewrite QARetriever_init_loaded; eexists;
      (split; [reflexivity|]); intros; by apply qa_search_empty.
  - rewrite QARetriever_init_loaded. cbn [default].
    destruct pairs as [|it pairs]; [done|].
    do 2 eexists. split_and!; [reflexivity|reflexivity|reflexivity|].
    by rewrite length_fmap.
Qed.

Lemma in_scope_matches scope it :
  in_scope scope it = true
  <-> product_name it = "" \/ product_name it = "overall"
      \/ Text.upper (product_name it) = Text.upper scope.
Proof.
  unfold in_scope, p_name_of. rewrite orb_true_iff, !bool_decide_eq_true.
  destruct (decide (product_name it = "")) as [E|E]; [by split; auto|].
  split; [intros [?|?]; auto|]. intros [?|[?|?]]; auto. done.
Qed.

Lemma pick_subset {A} (l : list A) idxs x : x ∈ pick l idxs -> x ∈ l.
Proof.
  unfold pick. rewrite list_elem_of_omap. intros (i & _ & Hi).
  by eapply list_elem_of_lookup_2.
Qed.

Lemma pick_source {A} (l : list A) idxs x :
  x ∈ pick l idxs -> exists i, i ∈ idxs /\ l !! i = Some x.
Proof. unfold pick. by rewrite list_elem_of_omap. Qed.

(** X8: when at least one item is in scope, a QA search returns only items
    in scope: items whose product name is empty, is ["overall"], or equals
    the scope up to case. *)
Theorem qa_results_in_scope e pairs qa tr query scope top_k :
  QARetriever_init linalg_norm e (Some pairs) = (Ok qa, tr) ->
  let matches it :=
    product_name it = "" \/ product_name it = "overall"
    \/ Text.upper (product_name it) = Text.upper (default "overall" scope) in
  Exists matches pairs ->
  exists results scores,
    QARetriever_search linalg_norm np_argsort qa query scope top_k
    = (Ok (results, scores), [EvEmbed query])
    /\ Forall matches results.
Proof.
  intros Hqa matches Hex.
  rewrite QARetriever_init_loaded in Hqa. injection Hqa as <- _. cbn [default].
  assert (pairs <> []) as Hne by (intros ->; by apply Exists_nil in Hex).
  rewrite qa_search_loaded by done. do 2 eexists. split; [reflexivity|].
  set (s := default "overall" scope) in *.
  assert (candidate_indices_of s pairs = scope_indices s 0 pairs) as Hcand.
  { unfold candidate_indices_of.
    destruct (scope_indices s 0 pairs) as [|i l] eqn:E; [|done]. exfalso.
    apply Exists_exists in Hex as (it & Hit & Hm).
    apply list_elem_of_lookup in Hit as [j Hj].
    assert (j ∈ scope_indices s 0 pairs) as Hin.
    { apply scope_indices_elem. exists it. rewrite Nat.sub_0_r.
      split_and!; [lia|done|by apply in_scope_matches]. }
    rewrite E in Hin. by apply elem_of_nil in Hin. }
  rewrite Hcand. rewrite Forall_forall. intros r Hr.
  apply pick_source in Hr as (i & Hi & Hr). apply pick_subset in Hi.
  apply scope_indices_elem in Hi as (it & _ & Hit & Hs). rewrite Nat.sub_0_r in Hit.
  rewrite Hr in Hit. injection Hit as <-. by apply in_scope_matches.
Qed.

(** X9: a search on a non-empty QA set embeds the query once, never raises,
    and returns items of the set with one score each, in non-increasing
    order of score; it returns [min(top_k, m)] items for [top_k >= 0] and
    [m - |top_k|] (or none) for a negative [top_k], where [m] items are
    candidates; the first score is the largest cosine of a candidate. *)
Theorem qa_search_ranked e pairs qa tr query scope top_k :
  QARetriever_init linalg_norm e (Some pairs) = (Ok qa, tr) ->
  pairs <> [] ->
  let cand := candidate_indices_of (default "overall" scope) pairs in
  exists results scores,
    QARetriever_search linalg_norm np_argsort qa query scope top_k
    = (Ok (results, scores), [EvEmbed query])
    /\ Forall (fun it => it ∈ pairs) results
    /\ length scores = length results
    /\ length results
       = (if (0 <=? top_k)%Z then Z.to_nat top_k `min` length cand
          else length cand - Z.to_nat (- top_k))
    /\ 0 < length cand
    /\ StronglySorted (fun x y => (y <= x)%Q) scores
    /\ (forall s0 s, scores !! 0 = Some s0 ->
          s ∈ qa_scores_of linalg_norm e query pairs cand -> (s <= s0)%Q).
Proof.
  intros Hqa Hne cand.
  rewrite QARetriever_init_loaded in Hqa. injection Hqa as <- _. cbn [default].
  rewrite qa_search_loaded by done. fold cand.
  set (scores := qa_scores_of linalg_norm e query pairs cand).
  pose proof (candidate_indices_lt (default "overall" scope) pairs) as Hcand.
  fold cand in Hcand.
  assert (length scores = length cand) as Hlen by (by apply qa_scores_length).
  assert (Forall (fun i => i < length scores) (top_indices_of np_argsort scores top_k)) as Htop.
  { rewrite Forall_forall. intros i Hi. by apply top_indices_lt in Hi. }
  assert (Forall (fun i => i < length cand) (top_indices_of np_argsort scores top_k)) as Htop'
    by (by rewrite <- Hlen).
  assert (Forall (fun i => i < length pairs) (pick cand (top_indices_of np_argsort scores top_k)))
    as Hpc.
  { rewrite Forall_forall. intros i Hi. apply pick_subset in Hi.
    rewrite Forall_forall in Hcand. by apply Hcand. }
  do 2 eexists. split_and!; [reflexivity|..].
  - rewrite Forall_forall. intros it Hit. by apply pick_subset in Hit.
  - by rewrite !pick_length.
  - by rewrite !pick_length, top_indices_length_any, Hlen.
  - unfold cand, candidate_indices_of.
    destruct (scope_indices _ 0 pairs); simpl; [|lia].
    rewrite length_seq. destruct pairs; [done|simpl; lia].
  - apply ranked_scores_sorted.
  - apply ranked_scores_sorted.
Qed.

Lemma scope_indices_ext s1 s2 k items :
  Text.upper s1 = Text.upper s2 ->
  scope_indices s1 k items = scope_indices s2 k items.
Proof.
  intros H. revert k. induction items as [|it items IH]; intros k; [done|].
  simpl. unfold in_scope. by rewrite H, !IH.
Qed.

(** X10: the scope of a QA search is read through its upper-case form: two
    scopes with the same upper-case form give the same result on every
    index; so does an ASCII scope and its lower-case form. *)
Theorem qa_scope_case_insensitive (self : QARetriever) query s1 s2 top_k :
  Text.upper s1 = Text.upper s2 ->
  QARetriever_search linalg_norm np_argsort self query (Some s1) top_k
  = QARetriever_search linalg_norm np_argsort self query (Some s2) top_k
  /\ (Text.is_ascii s1 = true ->
      QARetriever_search linalg_norm np_argsort self query (Some (Text.lower s1)) top_k
      = QARetriever_search linalg_norm np_argsort self query (Some s1) top_k).
Proof.
  assert (forall a b, Text.upper a = Text.upper b ->
            QARetriever_search linalg_norm np_argsort self query (Some a) top_k
            = QARetriever_search linalg_norm np_argsort self query (Some b) top_k) as Hgen.
  { intros a b H. unfold QARetriever_search, candidate_indices_of. cbn [default].
    by rewrite (scope_indices_ext a b 0 _ H). }
  intros H. split; [by apply Hgen|]. intros _. apply Hgen, upper_lower.
Qed.

(** ** Query analysis *)

(** X11: without a catalog ([None] or an empty list) [extract] falls back to
    the suffixes BXH, BYH, BZH: it returns the first of them, in this order,
    that occurs in the upper-cased query, as the bare suffix, and [None] when
    none occurs. *)
Theorem extract_falls_back_to_suffixes product_list query :
  product_list = None \/ product_list = Some [] ->
  let self := ProductNameExtractor.init product_list in
  let hit s := Text.contains (Text.upper query) s in
  match ProductNameExtractor.extract self query with
  | Some s =>
      exists before after,
        ["BXH"; "BYH"; "BZH"] = before ++ s :: after
        /\ hit s = true /\ Forall (fun s' => hit s' = false) before
  | None => Forall (fun s => hit s = false) ["BXH"; "BYH"; "BZH"]
  end.
Proof.
  intros Hlist self hit.
  assert (ProductNameExtractor.extract self query
          = ProductNameExtractor.scan_fallback ["BXH"; "BYH"; "BZH"] (Text.upper query))
    as -> by (by destruct Hlist as [-> | ->]).
  simpl. fold (hit "BXH") (hit "BYH") (hit "BZH").
  destruct (hit "BXH") eqn:E1; [by exists [], ["BYH"; "BZH"]|].
  destruct (hit "BYH") eqn:E2; [exists ["BXH"], ["BZH"]; by repeat constructor|].
  destruct (hit "BZH") eqn:E3; [exists ["BXH"; "BYH"], []; by repeat constructor|].
  by repeat constructor.
Qed.

(** X12: [extract] reads an ASCII query up to case: its lower-case and its
    upper-case form give the result of the query itself. *)
Theorem extract_case_insensitive (self : ProductNameExtractor.t) query :
  Text.is_ascii query = true ->
  ProductNameExtractor.extract self (Text.lower query)
  = ProductNameExtractor.extract self query
  /\ ProductNameExtractor.extract self (Text.upper query)
     = ProductNameExtractor.extract self query.
Proof.
  intros _. unfold ProductNameExtractor.extract. by rewrite upper_lower, upper_upper.
Qed.

Lemma any_keyword_true keywords query_lower :
  QueryFilter.any_keyword keywords query_lower = true
  <-> exists kw, kw ∈ keywords /\ Text.contains query_lower (Text.lower kw) = true.
Proof.
  split; [|intros (kw & Hkw & H); by eapply any_keyword_elem].
  induction keywords as [|k keywords IH]; simpl; [done|].
  destruct (Text.contains query_lower (Text.lower k)) eqn:E.
  - intros _. exists k. split; [by left|done].
  - intros H. destruct (IH H) as (kw & Hkw & Hc). exists kw. split; [by right|done].
Qed.

Lemma any_keyword_extend keywords a q b :
  QueryFilter.any_keyword keywords (Text.lower q) = true ->
  QueryFilter.any_keyword keywords (Text.lower (a +:+ q +:+ b)) = true.
Proof.
  rewrite !any_keyword_true. intros (kw & Hkw & H). exists kw. split; [done|].
  rewrite !lower_app. apply contains_app_r, contains_app_l, H.
Qed.

(** X13: the three intent tests match keywords anywhere in the query: text
    added before or after a query that passes a test gives a query that
    passes it. They read an ASCII query up to case: its upper-case form
    passes exactly the tests the query passes. *)
Theorem intent_tests_substring_match a query b :
  (Text.is_ascii query = true ->
   QueryFilter.is_comparison_query (Text.upper query)
   = QueryFilter.is_comparison_query query
   /\ QueryFilter.is_product_list_query (Text.upper query)
      = QueryFilter.is_product_list_query query
   /\ QueryFilter.is_general_spec_query (Text.upper query)
      = QueryFilter.is_general_spec_query query)
  /\ (QueryFilter.is_comparison_query query = true ->
      QueryFilter.is_comparison_query (a +:+ query +:+ b) = true)
  /\ (QueryFilter.is_product_list_query query = true ->
      QueryFilter.is_product_list_query (a +:+ query +:+ b) = true)
  /\ (QueryFilter.is_general_spec_query query = true ->
      QueryFilter.is_general_spec_query (a +:+ query +:+ b) = true).
Proof.
  unfold QueryFilter.is_comparison_query, QueryFilter.is_product_list_query,
    QueryFilter.is_general_spec_query.
  rewrite lower_upper. split_and!; try (intros _; by split_and!);
    apply any_keyword_extend.
Qed.

(** X14: the comparison keyword 產品 occurs in four of the product-list
    keywords, so a query matching one of these four is routed to Comparison
    and never to ProductList. *)
Theorem product_list_keywords_shadowed (self : RAGSystem) query kw :
  kw ∈ QueryFilter.PRODUCT_LIST_KEYWORDS ->
  Text.contains kw "產品" = true ->
  Text.contains (Text.lower query) (Text.lower kw) = true ->
  QueryFilter.is_product_list_query query = true
  /\ QueryFilter.is_comparison_query query = true
  /\ classify self query = Comparison
  /\ List.filter (fun k => Text.contains k "產品") QueryFilter.PRODUCT_LIST_KEYWORDS
     = ["有哪些產品"; "甚麼產品"; "什麼產品"; "所有產品"].
Proof.
  intros Hkw Hsub Hq.
  assert (QueryFilter.is_comparison_query query = true) as Hcmp.
  { unfold QueryFilter.is_comparison_query.
    apply (any_keyword_elem _ _ "產品").
    - apply (bool_decide_unpack _). vm_compute. exact I.
    - eapply contains_trans; [exact Hq|]. by apply contains_lower. }
  split_and!; [|done|by apply classify_comparison|reflexivity].
  unfold QueryFilter.is_product_list_query. by eapply any_keyword_elem.
Qed.

(** ** The catalog *)

Lemma chunk_metadata_lookups pid pname cat k :
  ConvertSpec.chunk_metadata pid pname cat k !! "product_id" = Some pid
  /\ ConvertSpec.chunk_metadata pid pname cat k !! "product_name" = Some pname
  /\ ConvertSpec.chunk_metadata pid pname cat k !! "category" = Some cat
  /\ ConvertSpec.chunk_metadata pid pname cat k !! "key" = Some k
  /\ dom (ConvertSpec.chunk_metadata pid pname cat k)
     = ({[ "product_id"; "product_name"; "category"; "key" ]} : gset string).
Proof.
  unfold ConvertSpec.chunk_metadata. split_and!.
  - by rewrite lookup_insert_eq.
  - rewrite lookup_insert_ne by done. by rewrite lookup_insert_eq.
  - rewrite !lookup_insert_ne by done. by rewrite lookup_insert_eq.
  - rewrite !lookup_insert_ne by done. by rewrite lookup_singleton_eq.
  - rewrite !dom_insert_L, dom_singleton_L. set_solver.
Qed.

Lemma prefix_app a b : String.prefix a (a +:+ b) = true.
Proof. apply prefix_spec. by exists b. Qed.

Lemma join_head_prefix sep p ps :
  String.prefix p (Text.join sep (p :: ps)) = true.
Proof.
  destruct ps as [|q ps]; simpl.
  - apply prefix_spec. exists "". by rewrite append_nil_r.
  - apply prefix_app.
Qed.

Lemma join_contains sep parts p :
  p ∈ parts -> Text.contains (Text.join sep parts) p = true.
Proof.
  induction parts as [|q parts IH]; [by intros ?%elem_of_nil|].
  intros Hp. destruct parts as [|r parts].
  - apply list_elem_of_singleton in Hp as ->. apply contains_refl.
  - change (Text.join sep (q :: r :: parts))
      with (q +:+ sep +:+ Text.join sep (r :: parts)).
    apply elem_of_cons in Hp as [->|Hp].
    + apply contains_app_l, contains_refl.
    + by apply contains_app_r, contains_app_r, IH.
Qed.

Lemma chunk_data_elem products c :
  c ∈ ConvertSpec.chunk_data products
  <-> exists p, p ∈ products
      /\ (c = ConvertSpec.full_specs_chunk p
          \/ exists sp, sp ∈ specs p /\ c = ConvertSpec.spec_chunk p sp).
Proof.
  induction products as [|p products IH]; simpl.
  - split; [by intros ?%elem_of_nil|]. intros (p & Hp & _). by apply elem_of_nil in Hp.
  - rewrite elem_of_app, elem_of_cons, IH, list_elem_of_fmap. split.
    + intros [(sp & -> & Hsp)|[->|(p' & Hp' & H)]].
      * exists p. split; [by left|]. right. eauto.
      * exists p. split; [by left|]. by left.
      * exists p'. split; [by right|done].
    + intros (p' & Hp' & H). apply elem_of_cons in Hp' as [->|Hp'].
      * destruct H as [->|(sp & Hsp & ->)]; [right; by left|left; eauto].
      * right. right. eauto.
Qed.

(** X15: [chunk_data] yields, for each product in catalog order, one chunk
    per spec entry followed by one rollup chunk. Every chunk carries exactly
    the metadata keys product_id, product_name, category and key, with the id
    and name of a product of the catalog, and its text starts with the
    product line. *)
Theorem chunk_data_structure products :
  length (ConvertSpec.chunk_data products)
  = sum_list (map (fun p => S (length (specs p))) products)
  /\ Forall (fun c =>
       exists p, p ∈ products
         /\ metadata c !! "product_id" = Some (product_id p)
         /\ metadata c !! "product_name" = Some (p_product_name p)
         /\ dom (metadata c)
            = ({[ "product_id"; "product_name"; "category"; "key" ]} : gset string)
         /\ String.prefix ("Product: " +:+ p_product_name p) (content c) = true)
       (ConvertSpec.chunk_data products).
Proof.
  split.
  - induction products as [|p products IH]; simpl; [done|].
    rewrite length_app, length_fmap. simpl. lia.
  - rewrite Forall_forall. intros c Hc.
    apply chunk_data_elem in Hc as (p & Hp & [->|(sp & Hsp & ->)]); exists p;
      split; try done.
    + unfold ConvertSpec.full_specs_chunk. cbn [metadata content].
      destruct (chunk_metadata_lookups (product_id p) (p_product_name p)
                  "Overall Specification" "Full Specs") as (? & ? & _ & _ & ?).
      split_and!; try done. apply join_head_prefix.
    + unfold ConvertSpec.spec_chunk. cbn [metadata content].
      destruct (chunk_metadata_lookups (product_id p) (p_product_name p)
                  (category sp) (key sp)) as (? & ? & _ & _ & ?).
      split_and!; try done.
      destruct (decide (ConvertSpec._get_related_words (category sp) (key sp) = ""));
        apply join_head_prefix.
Qed.

(** X16: the chunk of a spec entry is in the corpus, is keyed by the entry's
    category and key, and its text contains the product name and the entry's
    category, key and value unchanged; the rollup chunk of the product is in
    the corpus and contains the category and key of every entry, and each
    value with its line breaks replaced by spaces. *)
Theorem chunk_text_keeps_spec_fields products p sp :
  p ∈ products -> sp ∈ specs p ->
  let c := ConvertSpec.spec_chunk p sp in
  let r := ConvertSpec.full_specs_chunk p in
  (c ∈ ConvertSpec.chunk_data products
   /\ metadata c !! "category" = Some (category sp)
   /\ metadata c !! "key" = Some (key sp)
   /\ Text.contains (content c) (p_product_name p) = true
   /\ Text.contains (content c) (category sp) = true
   /\ Text.contains (content c) (key sp) = true
   /\ Text.contains (content c) (value sp) = true)
  /\ (r ∈ ConvertSpec.chunk_data products
      /\ is_full_specs r = true
      /\ Text.contains (content r) (category sp) = true
      /\ Text.contains (content r) (key sp) = true
      /\ Text.contains (content r)
           (Text.replace_char (ascii_of_N 10) " " (value sp)) = true).
Proof using Type.
  clear np_argsort_sorts.
  intros Hp Hsp c r. split.
  - destruct (chunk_metadata_lookups (product_id p) (p_product_name p)
                (category sp) (key sp)) as (_ & _ & Hcat & Hkey & _).
    split_and!; [apply chunk_data_elem; exists p; eauto|exact Hcat|exact Hkey|..];
      unfold c, ConvertSpec.spec_chunk; cbn [content];
      set (parts := if decide (_ = "") then _ else _);
      [eapply (contains_trans _ ("Product: " +:+ p_product_name p))
      |eapply (contains_trans _ ("Category: " +:+ category sp))
      |eapply (contains_trans _ ("Specification: " +:+ key sp))
      |eapply (contains_trans _ ("Value: " +:+ value sp))];
      try (apply contains_app_r, contains_refl);
      apply join_contains; unfold parts;
      destruct (decide (_ = "")); set_solver.
  - split_and!; [apply chunk_data_elem; exists p; eauto|apply is_full_specs_rollup|..];
      unfold r, ConvertSpec.full_specs_chunk; cbn [content];
      set (line := "- " +:+ category sp +:+ " - " +:+ key sp +:+ ": "
                   +:+ Text.replace_char (ascii_of_N 10) " " (value sp));
      set (lines := map _ (specs p));
      set (body := Text.join Text.newline lines);
      (assert (Text.contains body line = true) as Hline
         by (apply join_contains, list_elem_of_fmap; by exists sp));
      (eapply (contains_trans _ body);
         [apply join_contains; set_solver|]);
      (eapply contains_trans; [exact Hline|]); unfold line.
    + apply contains_app_r, contains_app_l, contains_refl.
    + do 3 apply contains_app_r. apply contains_app_l, contains_refl.
    + do 5 apply contains_app_r. apply contains_refl.
Qed.

Lemma get_product_by_id_first products pid :
  match ConvertSpec.get_product_by_id products pid with
  | Some p =>
      exists before after,
        products = before ++ p :: after /\ product_id p = pid
        /\ Forall (fun p' => product_id p' <> pid) before
  | None => Forall (fun p' => product_id p' <> pid) products
  end.
Proof.
  induction products as [|q products IH]; simpl; [constructor|].
  destruct (decide (product_id q = pid)) as [E|E].
  - by exists [], products.
  - destruct (ConvertSpec.get_product_by_id products pid) as [p|].
    + destruct IH as (before & after & -> & Hp & Hb).
      exists (q :: before), after. split_and!; auto.
    + by constructor.
Qed.

(** X17: on every catalog, [get_product_by_id] returns the first product
    with the given id, and [None] when there is none; looking up the id of a
    product of the catalog returns a product with that id, the first one.
    When the ids of the catalog are distinct, it returns that very
    product. *)
Theorem get_product_by_id_round_trip products pid :
  match ConvertSpec.get_product_by_id products pid with
  | Some p =>
      exists before after,
        products = before ++ p :: after /\ product_id p = pid
        /\ Forall (fun p' => product_id p' <> pid) before
  | None => Forall (fun p' => product_id p' <> pid) products
  end
  /\ (forall p, p ∈ products ->
        exists p', ConvertSpec.get_product_by_id products (product_id p) = Some p'
                   /\ product_id p' = product_id p)
  /\ (NoDup (map product_id products) ->
      forall p, p ∈ products ->
        ConvertSpec.get_product_by_id products (product_id p) = Some p).
Proof.
  split; [apply get_product_by_id_first|]. split.
  { intros p Hp. pose proof (get_product_by_id_first products (product_id p)) as H.
    destruct (ConvertSpec.get_product_by_id products (product_id p)) as [q|].
    - destruct H as (before & after & _ & Hq & _). by exists q.
    - rewrite Forall_forall in H. by destruct (H p Hp). }
  intros Hnd p Hp. pose proof (get_product_by_id_first products (product_id p)) as H.
  destruct (ConvertSpec.get_product_by_id products (product_id p)) as [q|].
  - destruct H as (before & after & -> & Hq & _). f_equal.
    apply list_elem_of_lookup in Hp as [i Hi].
    assert ((before ++ q :: after) !! length before = Some q) as Hj
      by (by apply list_lookup_middle).
    assert (i = length before) as ->.
    { eapply (NoDup_lookup _ _ _ (product_id p)); [exact Hnd|..];
        rewrite list_lookup_fmap; [by rewrite Hi|by rewrite Hj, <- Hq]. }
    congruence.
  - rewrite Forall_forall in H. by destruct (H p Hp).
Qed.

Lemma write_specs_app d l1 l2 :
  ConvertSpec.write_specs d (l1 ++ l2)
  = ConvertSpec.write_specs (ConvertSpec.write_specs d l1) l2.
Proof. revert d. induction l1 as [|sp l1 IH]; intros d; simpl; [done|]. by rewrite IH. Qed.

Lemma write_specs_untouched d l k :
  Forall (fun sp => k ∉ spec_keys sp) l ->
  ConvertSpec.write_specs d l !! k = d !! k.
Proof using Type.
  clear np_argsort_sorts.
  intros H. revert d. induction H as [|sp l Hk _ IH]; intros d; simpl; [done|].
  rewrite IH. unfold spec_keys in Hk.
  rewrite !lookup_insert_ne; [done|set_solver..].
Qed.

Lemma write_specs_origin d l k v :
  ConvertSpec.write_specs d l !! k = Some v ->
  d !! k = Some v \/ exists sp, sp ∈ l /\ k ∈ spec_keys sp /\ v = value sp.
Proof using Type.
  clear np_argsort_sorts.
  revert d. induction l as [|sp l IH]; intros d; simpl; [by left|].
  intros H. apply IH in H as [H|(sp' & Hsp' & Hk & Hv)].
  - destruct (decide (Text.lower (category sp) +:+ " " +:+ Text.lower (key sp) = k))
      as [<-|Hne1].
    + rewrite lookup_insert_eq in H. injection H as <-. right. exists sp.
      split_and!; [by left|unfold spec_keys; set_solver|done].
    + rewrite lookup_insert_ne in H by done.
      destruct (decide (Text.lower (key sp) = k)) as [<-|Hne2].
      * rewrite lookup_insert_eq in H. injection H as <-. right. exists sp.
        split_and!; [by left|unfold spec_keys; set_solver|done].
      * rewrite lookup_insert_ne in H by done. by left.
  - right. exists sp'. split_and!; [by right|done..].
Qed.

(** X18: [get_product_specs] is empty for an unknown id. For a known product
    every entry of the dictionary holds the value of a spec of that product
    under its lower-cased key or its lower-cased category and key, and a
    spec's value is found under both keys unless a later spec of the product
    writes the same key. *)
Theorem get_product_specs_lookup products pid p before sp after k :
  ConvertSpec.get_product_by_id products pid = Some p ->
  specs p = before ++ sp :: after ->
  k ∈ spec_keys sp ->
  Forall (fun sp' => k ∉ spec_keys sp') after ->
  ConvertSpec.get_product_specs products pid !! k = Some (value sp)
  /\ (forall k' v, ConvertSpec.get_product_specs products pid !! k' = Some v ->
        exists sp', sp' ∈ specs p /\ k' ∈ spec_keys sp' /\ v = value sp')
  /\ (forall pid', ConvertSpec.get_product_by_id products pid' = None ->
        ConvertSpec.get_product_specs products pid' = ∅).
Proof.
  intros Hp Hspecs Hk Hafter. unfold ConvertSpec.get_product_specs.
  rewrite Hp. split_and!.
  - rewrite Hspecs, write_specs_app. simpl.
    rewrite write_specs_untouched by done.
    unfold spec_keys in Hk.
    apply elem_of_cons in Hk as [->|Hk]; [|apply list_elem_of_singleton in Hk as ->].
    + destruct (decide (Text.lower (category sp) +:+ " " +:+ Text.lower (key sp)
                        = Text.lower (key sp))) as [E|E].
      * rewrite E. by rewrite lookup_insert_eq.
      * rewrite lookup_insert_ne by done. by rewrite lookup_insert_eq.
    + by rewrite lookup_insert_eq.
  - intros k' v H. apply write_specs_origin in H as [H|H]; [|done].
    by rewrite lookup_empty in H.
  - intros pid' H. by rewrite H.
Qed.

Lemma kw_matches_hit category key kws :
  existsb (ConvertSpec.kw_matches [Text.lower category; Text.lower key]) kws = true
  <-> exists kw, kw ∈ kws
      /\ (Text.contains (Text.lower category) (Text.lower kw) = true
          \/ Text.contains (Text.lower key) (Text.lower kw) = true).
Proof.
  rewrite existsb_exists. unfold ConvertSpec.kw_matches. simpl.
  split; intros (kw & Hkw & H); exists kw; (split; [by apply list_elem_of_In|]).
  - apply orb_true_iff in H as [H|H].
    + apply bool_decide_eq_true in H.
      apply elem_of_cons in H as [H|H]; [|apply list_elem_of_singleton in H];
        rewrite <- H; [left|right]; apply contains_refl.
    + rewrite orb_false_r in H. by apply orb_true_iff in H.
  - rewrite orb_false_r. apply orb_true_iff. right. by apply orb_true_iff.
Qed.

(** X19: [_get_related_words] answers with the keywords of the first row of
    the table one of whose keywords, lower-cased, occurs in the lower-cased
    category or key, and with the empty string when no row has one; the exact
    match the code also tests never decides. *)
Theorem related_words_first_matching_row category key :
  let result := ConvertSpec._get_related_words category key in
  (result = ""
   /\ Forall (fun row => ~ row_hit category key row) ConvertSpec.CANONICAL_TO_KEYS)
  \/ exists before row after,
       ConvertSpec.CANONICAL_TO_KEYS = before ++ row :: after
       /\ row_hit category key row
       /\ Forall (fun row' => ~ row_hit category key row') before
       /\ result = "Related words: " +:+ Text.join "、" (snd row).
Proof.
  unfold ConvertSpec._get_related_words.
  generalize ConvertSpec.CANONICAL_TO_KEYS as table.
  induction table as [|[canonical kws] table IH]; simpl.
  - left. by split.
  - destruct (existsb _ kws) eqn:E.
    + right. exists [], (canonical, kws), table. split_and!; try done.
      by apply kw_matches_hit.
    + assert (~ row_hit category key (canonical, kws)) as Hno.
      { intros H. apply kw_matches_hit in H. simpl in H. congruence. }
      destruct IH as [[-> Hall]|(before & row & after & -> & Hhit & Hb & ->)].
      * left. split; [done|by constructor].
      * right. exists ((canonical, kws) :: before), row, after.
        split_and!; try done. by constructor.
Qed.

(** ** The orchestrator *)

Lemma filter_sublist {A} (f : A -> bool) (l : list A) : List.filter f l `sublist_of` l.
Proof.
  induction l as [|x l IH]; simpl; [constructor|].
  destruct (f x); [by apply sublist_skip|by apply sublist_cons].
Qed.

Lemma length_repeat_eq {A} (x : A) n : length (repeat x n) = n.
Proof. induction n; simpl; congruence. Qed.

Lemma retrieve_chunks_results e spec_file qa_file self tr query :
  RAGSystem_init linalg_norm e spec_file qa_file = (Ok self, tr) ->
  exists results scores,
    retrieve_chunks linalg_norm np_argsort self query
    = (Ok (results, scores,
           match classify self query with
           | ProductList => [product_list_fact self]
           | _ => []
           end),
       match classify self query with
       | Comparison => []
       | _ => [EvEmbed query]
       end)
    /\ Forall (fun c => c ∈ rag_chunks self) results
    /\ length scores = length results
    /\ (classify self query <> Comparison -> length results <= 5)
    /\ (forall pid, classify self query = SpecificProduct pid ->
          Forall (fun c => metadata c !! "product_id" = Some pid) results).
Proof.
  intros Hinit. apply RAGSystem_init_built in Hinit as [_ ->].
  set (cs := ConvertSpec.chunk_data spec_file).
  assert (forall target,
            Forall (fun t => t ∈ cs) target ->
            exists results scores,
              ChunkRetriever_search linalg_norm np_argsort (indexed linalg_norm e cs) query
                RETRIEVAL_TOP_K (Some target)
              = (Ok (results, scores), [EvEmbed query])
              /\ Forall (fun c => c ∈ target) results
              /\ length scores = length results
              /\ length results <= 5) as Hsearch.
  { intros target Hall. rewrite search_indexed. cbn [default].
    set (final := fused linalg_norm e query cs target).
    assert (Forall (fun i => i < length final) (top_indices_of np_argsort final RETRIEVAL_TOP_K))
      as Hfin.
    { rewrite Forall_forall. intros i Hi. by apply top_indices_lt in Hi. }
    assert (Forall (fun i => i < length target) (top_indices_of np_argsort final RETRIEVAL_TOP_K))
      as Htar.
    { eapply Forall_impl; [exact Hfin|]. simpl. intros i Hi.
      pose proof (fused_length e query cs target). fold final in H. lia. }
    do 2 eexists. split_and!; [reflexivity|..].
    - rewrite Forall_forall. intros c Hc. by apply pick_subset in Hc.
    - by rewrite !pick_length.
    - rewrite pick_length, top_indices_length_any by done.
      unfold RETRIEVAL_TOP_K. change (0 <=? 5)%Z with true. cbv iota.
      change (Z.to_nat 5) with 5. lia. }
  assert (Forall (fun t => t ∈ cs) cs) as Hall by (by apply Forall_forall).
  unfold retrieve_chunks. destruct (classify _ query) as [|pid| |] eqn:Emode;
    cbn [index rag_chunks].
  - do 2 eexists. split_and!; [reflexivity| |by rewrite length_repeat_eq|done|done].
    rewrite Forall_forall. intros c Hc. apply list_elem_of_In, filter_In in Hc as [Hc _].
    by apply list_elem_of_In.
  - set (target := List.filter _ cs).
    assert (Forall (fun t => t ∈ cs /\ metadata t !! "product_id" = Some pid) target)
      as Htarget.
    { rewrite Forall_forall. intros t Ht.
      apply list_elem_of_In, filter_In in Ht as [Ht Hpid].
      split; [by apply list_elem_of_In|by apply bool_decide_eq_true in Hpid]. }
    destruct (Hsearch target) as (results & scores & -> & Hres & Hlen & Hfive).
    { eapply Forall_impl; [exact Htarget|]. by intros t [? _]. }
    rewrite Forall_forall in Hres, Htarget.
    cbn [bind ret]. do 2 eexists. split_and!; [reflexivity| |done|done|].
    + rewrite Forall_forall. intros c Hc. by apply Htarget, Hres.
    + intros pid' [= <-]. rewrite Forall_forall. intros c Hc. by apply Htarget, Hres.
  - destruct (Hsearch cs Hall) as (results & scores & -> & Hres & Hlen & Hfive).
    cbn [bind ret]. do 2 eexists. split_and!; [reflexivity|done|done|done|done].
  - destruct (Hsearch cs Hall) as (results & scores & -> & Hres & Hlen & Hfive).
    cbn [bind ret]. do 2 eexists. split_and!; [reflexivity|done|done|done|done].
Qed.

Lemma qa_search_results e pairs query scope :
  exists qr qs,
    QARetriever_search linalg_norm np_argsort (loaded linalg_norm e pairs) query scope 1
    = (Ok (qr, qs), match pairs with [] => [] | _ => [EvEmbed query] end)
    /\ length qs = length qr /\ length qr <= 1
    /\ Forall (fun it => it ∈ pairs) qr.
Proof.
  destruct pairs as [|qa pairs].
  - rewrite qa_search_empty by done. exists [], [].
    split_and!; [reflexivity|reflexivity|simpl; lia|constructor].
  - rewrite qa_search_loaded by done.
    set (items := qa :: pairs).
    set (cand := candidate_indices_of (default "overall" scope) items).
    set (scores := qa_scores_of linalg_norm e query items cand).
    pose proof (candidate_indices_lt (default "overall" scope) items) as Hcand.
    fold cand in Hcand.
    assert (length scores = length cand) as Hlen by (by apply qa_scores_length).
    assert (Forall (fun i => i < length scores) (top_indices_of np_argsort scores 1)) as Htop.
    { rewrite Forall_forall. intros i Hi. by apply top_indices_lt in Hi. }
    assert (Forall (fun i => i < length cand) (top_indices_of np_argsort scores 1)) as Htop'
      by (by rewrite <- Hlen).
    assert (Forall (fun i => i < length items) (pick cand (top_indices_of np_argsort scores 1)))
      as Hpc.
    { rewrite Forall_forall. intros i Hi. apply pick_subset in Hi.
      rewrite Forall_forall in Hcand. by apply Hcand. }
    do 2 eexists. split_and!; [reflexivity|..].
    + by rewrite !pick_length.
    + rewrite !pick_length, top_indices_length_any by done.
      change (0 <=? 1)%Z with true. cbv iota. change (Z.to_nat 1) with 1. lia.
    + rewrite Forall_forall. intros it Hit. by apply pick_subset in Hit.
Qed.

(** The result of [_process_query] on a built system, in terms of its two
    retrieval steps. *)
Lemma process_query_built e spec_file qa_file self tr query :
  RAGSystem_init linalg_norm e spec_file qa_file = (Ok self, tr) ->
  exists results scores qr qs out tr',
    _process_query linalg_norm np_argsort format_score self query = (Ok out, tr')
    /\ tr' = match classify self query with Comparison => [] | _ => [EvEmbed query] end
             ++ match default [] qa_file with [] => [] | _ => [EvEmbed query] end
    /\ chunk_results out = results /\ chunk_scores out = scores
    /\ deterministic_facts out
       = match classify self query with
         | ProductList => [product_list_fact self]
         | _ => []
         end
    /\ qa_results out = qr /\ qa_scores out = qs
    /\ (exists include,
          final_chunk_results out
          = map fst (List.filter (fun cs => negb (negb include && is_full_specs (fst cs)))
                       (zip results scores))
          /\ final_chunk_scores out
             = map snd (List.filter (fun cs => negb (negb include && is_full_specs (fst cs)))
                          (zip results scores)))
    /\ retrieval_metadata out
       = map chunk_evidence (zip (final_chunk_results out) (final_chunk_scores out))
         ++ map qa_evidence (zip qr qs)
    /\ Forall (fun c => c ∈ rag_chunks self) results
    /\ length scores = length results
    /\ (classify self query <> Comparison -> length results <= 5)
    /\ (forall pid, classify self query = SpecificProduct pid ->
          Forall (fun c => metadata c !! "product_id" = Some pid) results)
    /\ length qs = length qr /\ length qr <= 1
    /\ Forall (fun it => it ∈ default [] qa_file) qr.
Proof.
  intros Hinit.
  destruct (retrieve_chunks_results _ _ _ _ _ query Hinit)
    as (results & scores & Hstep & Hin & Hlen & Hfive & Hpid).
  pose proof Hinit as Hbuilt. apply RAGSystem_init_built in Hbuilt as [_ Hself].
  set (scope := match truthy (ProductNameExtractor.extract (product_extractor self) query) with
                | Some pid => ProductNameExtractor.suffix_of pid
                | None => "overall" end).
  destruct (qa_search_results e (default [] qa_file) query (Some scope))
    as (qr & qs & Hqa & Hqlen & Hqone & Hqin).
  assert (qa_retriever self = loaded linalg_norm e (default [] qa_file)) as Hqr
    by (by rewrite Hself).
  rewrite <- Hqr in Hqa.
  eexists results, scores, qr, qs, _, _. split_and!.
  - unfold _process_query. rewrite Hstep. cbn [bind]. fold scope.
    rewrite Hqa. cbn [bind ret]. rewrite app_nil_r. reflexivity.
  - reflexivity.
  - reflexivity.
  - reflexivity.
  - reflexivity.
  - reflexivity.
  - reflexivity.
  - eexists. cbn [final_chunk_results final_chunk_scores].
    rewrite filter_results_filter. split; reflexivity.
  - cbn [retrieval_metadata final_chunk_results final_chunk_scores].
    by rewrite zip_fst_snd.
  - done.
  - done.
  - done.
  - done.
  - done.
  - done.
  - done.
Qed.

(** X20: in specific-product mode the extracted id is the id of a catalog
    product whose suffix occurs in the upper-cased question, and the search
    is confined to that product: every retrieved chunk is a corpus chunk
    filed under this id, at most five are retrieved, and no fact is
    injected. *)
Theorem specific_product_mode_is_restricted e spec_file qa_file self tr query pid :
  RAGSystem_init linalg_norm e spec_file qa_file = (Ok self, tr) ->
  classify self query = SpecificProduct pid ->
  QueryFilter.is_comparison_query query = false
  /\ pid <> ""
  /\ (exists p, p ∈ spec_file /\ product_id p = pid
        /\ Text.contains (Text.upper query) (ProductNameExtractor.suffix_of pid) = true)
  /\ exists out tr',
       _process_query linalg_norm np_argsort format_score self query = (Ok out, tr')
       /\ Forall (fun c => c ∈ rag_chunks self
                           /\ metadata c !! "product_id" = Some pid)
            (chunk_results out)
       /\ Forall (fun c => metadata c !! "product_id" = Some pid)
            (final_chunk_results out)
       /\ length (chunk_results out) <= 5
       /\ deterministic_facts out = [].
Proof.
  intros Hinit Hmode.
  destruct (process_query_built _ _ _ _ _ query Hinit)
    as (results & scores & qr & qs & out & tr' & Hrun & _ & Hres & _ & Hfacts & _ & _
        & (include & Hfinal & _) & _ & Hin & Hlen & Hfive & Hpid & _).
  apply RAGSystem_init_built in Hinit as [Hne Hself].
  assert (QueryFilter.is_comparison_query query = false
          /\ truthy (ProductNameExtractor.extract (product_extractor self) query)
             = Some pid) as [Hcmp Hext].
  { unfold classify in Hmode.
    destruct (QueryFilter.is_comparison_query query); [discriminate|].
    destruct (truthy _) as [pid'|]; [by injection Hmode as ->|].
    by destruct (QueryFilter.is_product_list_query query). }
  assert (ProductNameExtractor.extract (product_extractor self) query = Some pid
          /\ pid <> "") as [Hextract Hpidne].
  { unfold truthy in Hext. destruct (ProductNameExtractor.extract _ query) as [s|];
      [|discriminate]. destruct (decide (s = "")); [discriminate|].
    by injection Hext as ->. }
  split_and!; [done|done| |].
  - rewrite Hself in Hextract. cbn [product_extractor] in Hextract.
    unfold ProductNameExtractor.extract, ProductNameExtractor.init in Hextract.
    cbn [ProductNameExtractor.known_models ProductNameExtractor.fallback_suffixes]
      in Hextract.
    pose proof (scan_models_first spec_file (Text.upper query)) as Hscan.
    cbv zeta in Hscan.
    destruct (ProductNameExtractor.scan_models _ (Text.upper query)) as [pid'|].
    + injection Hextract as ->.
      destruct Hscan as (before & p & after & -> & Hp & Hhit & _).
      exists p. split_and!; [|done|by rewrite <- Hp].
      apply elem_of_app. right. by left.
    + destruct spec_file as [|p0 ps]; [done|]. discriminate.
  - exists out, tr'. rewrite Hmode in Hfacts. specialize (Hpid pid Hmode).
    rewrite Hres. split_and!; [done| | |by apply Hfive; rewrite Hmode|done].
    + rewrite Forall_forall in Hin, Hpid. rewrite Forall_forall. intros c Hc. auto.
    + rewrite Hfinal. rewrite Forall_forall in Hpid. rewrite Forall_forall.
      intros c Hc. apply list_elem_of_fmap in Hc as ([c' s] & -> & Hcs).
      apply list_elem_of_In, filter_In in Hcs as [Hcs _].
      apply list_elem_of_In, elem_of_zip_l in Hcs. by apply Hpid.
Qed.

(** X21: on a built system [_process_query] never raises and embeds the
    question at most twice. Its context chunks are a sub-list of the
    retrieved corpus chunks, at most five outside comparison mode; at most
    one QA item accompanies them, taken from the loaded QA set; and the
    returned metadata lists the context chunks in order, then the QA
    items. *)
Theorem process_query_evidence e spec_file qa_file self tr query :
  RAGSystem_init linalg_norm e spec_file qa_file = (Ok self, tr) ->
  exists out tr',
    _process_query linalg_norm np_argsort format_score self query = (Ok out, tr')
    /\ Forall (fun ev => ev = EvEmbed query) tr' /\ length tr' <= 2
    /\ Forall (fun c => c ∈ rag_chunks self) (chunk_results out)
    /\ final_chunk_results out `sublist_of` chunk_results out
    /\ length (final_chunk_scores out) = length (final_chunk_results out)
    /\ (classify self query <> Comparison -> length (chunk_results out) <= 5)
    /\ length (qa_results out) <= 1
    /\ Forall (fun qa => qa ∈ default [] qa_file) (qa_results out)
    /\ map ev_type (retrieval_metadata out)
       = repeat "chunk" (length (final_chunk_results out))
         ++ repeat "qa" (length (qa_results out))
    /\ map ev_content (retrieval_metadata out)
       = map content (final_chunk_results out) ++ map qa_text (qa_results out)
    /\ map ev_score (retrieval_metadata out)
       = final_chunk_scores out ++ qa_scores out.
Proof.
  intros Hinit.
  destruct (process_query_built _ _ _ _ _ query Hinit)
    as (results & scores & qr & qs & out & tr' & Hrun & Htr & Hres & Hsc & _ & Hqr & Hqs
        & (include & Hfinal & Hfscores) & Hmeta & Hin & Hlen & Hfive & _
        & Hqlen & Hqone & Hqin).
  exists out, tr'.
  assert (length (final_chunk_scores out) = length (final_chunk_results out)) as Hflen
    by (by rewrite Hfinal, Hfscores, !length_fmap).
  assert (forall (l : list Chunk) (s : list Q), length s = length l ->
            map ev_type (map chunk_evidence (zip l s)) = repeat "chunk" (length l)
            /\ map ev_content (map chunk_evidence (zip l s)) = map content l
            /\ map ev_score (map chunk_evidence (zip l s)) = s) as Hchunks.
  { induction l as [|c l IH]; intros [|x s] Hl; simpl in *; try done.
    destruct (IH s) as (-> & -> & ->); [lia|done]. }
  assert (forall (l : list QAItem) (s : list Q), length s = length l ->
            map ev_type (map qa_evidence (zip l s)) = repeat "qa" (length l)
            /\ map ev_content (map qa_evidence (zip l s)) = map qa_text l
            /\ map ev_score (map qa_evidence (zip l s)) = s) as Hqas.
  { induction l as [|c l IH]; intros [|x s] Hl; simpl in *; try done.
    destruct (IH s) as (-> & -> & ->); [lia|done]. }
  destruct (Hchunks _ _ Hflen) as (Hc1 & Hc2 & Hc3).
  destruct (Hqas _ _ Hqlen) as (Hq1 & Hq2 & Hq3).
  rewrite Hres, Hqr, Hqs, Hmeta, !map_app, Hc1, Hc2, Hc3, Hq1, Hq2, Hq3.
  split_and!; try done.
  - rewrite Htr. destruct (classify self query), (default [] qa_file);
      repeat constructor.
  - rewrite Htr. destruct (classify self query), (default [] qa_file); simpl; lia.
  - rewrite Hfinal.
    assert (results = map fst (zip results scores)) as Hfst
      by (symmetry; apply fst_zip; lia).
    rewrite Hfst at 2. apply fmap_sublist, filter_sublist.
Qed.

(** X22: start-up on an empty catalog raises before any text is embedded
    and before the QA set is read. On a non-empty catalog it succeeds and
    embeds every chunk text once, in corpus order, then every question once,
    in file order; the index holds the corpus, and the extractor knows the
    catalog and has no fallback suffixes. *)
Theorem startup_embeds_each_text_once e spec_file qa_file :
  spec_file <> [] ->
  RAGSystem_init linalg_norm e [] qa_file = (Raise ValueError, [])
  /\ exists self,
       RAGSystem_init linalg_norm e spec_file qa_file
       = (Ok self,
          map (fun c => EvEmbed (content c)) (ConvertSpec.chunk_data spec_file)
          ++ map (fun qa => EvEmbed (question qa)) (default [] qa_file))
       /\ rag_chunks self = ConvertSpec.chunk_data spec_file
       /\ chunks (index self) = rag_chunks self
       /\ (exists m, vectors (index self) = Some m
                     /\ length m = length (rag_chunks self))
       /\ qa_items (qa_retriever self) = default [] qa_file
       /\ ProductNameExtractor.known_models (product_extractor self)
          = map (fun p => (product_id p, p_product_name p)) spec_file
       /\ ProductNameExtractor.fallback_suffixes (product_extractor self) = None.
Proof.
  intros Hne. split; [reflexivity|].
  unfold RAGSystem_init.
  rewrite add_chunks_nonempty by (by apply chunk_data_nonempty).
  cbn [bind]. rewrite QARetriever_init_loaded. cbn [bind ret].
  eexists. split; [by rewrite app_nil_r|].
  cbn [rag_chunks index qa_retriever product_extractor indexed chunks vectors
       loaded qa_items].
  split_and!.
  - reflexivity.
  - reflexivity.
  - eexists. split; [reflexivity|]. by rewrite !length_fmap.
  - reflexivity.
  - reflexivity.
  - destruct spec_file as [|p ps]; [done|reflexivity].
Qed.

(** ** Building the knowledge base *)

Lemma replace_char_app a b s t :
  Text.replace_char a b (s +:+ t) = Text.replace_char a b s +:+ Text.replace_char a b t.
Proof.
  induction s as [|c s IH]; [done|].
  change (Text.replace_char a b (String c s +:+ t))
    with ((if decide (c = a) then b else String c "") +:+ Text.replace_char a b (s +:+ t)).
  change (Text.replace_char a b (String c s))
    with ((if decide (c = a) then b else String c "") +:+ Text.replace_char a b s).
  by rewrite IH, append_assoc.
Qed.

Lemma replace_char_absent a b s :
  ~ In a (list_ascii_of_string s) -> Text.replace_char a b s = s.
Proof.
  induction s as [|c s IH]; [done|]. simpl. intros H.
  destruct (decide (c = a)) as [->|_]; [by destruct H; left|].
  rewrite IH by (intros Hin; apply H; by right). reflexivity.
Qed.

Lemma lower_char_fixes (x c : ascii) :
  Text.is_lower x = false -> Text.lower_char c = x -> c = x.
Proof.
  unfold Text.lower_char. destruct (Text.is_upper c) eqn:E; [|done].
  intros Hx <-. exfalso. revert E Hx.
  destruct c as [[] [] [] [] [] [] [] []]; vm_compute; congruence.
Qed.

Lemma lower_absent (x : ascii) s :
  Text.is_lower x = false ->
  ~ In x (list_ascii_of_string s) -> ~ In x (list_ascii_of_string (Text.lower s)).
Proof.
  intros Hx. induction s as [|c s IH]; [done|]. simpl. intros H [Hc|Hin].
  - apply H. left. by apply lower_char_fixes.
  - apply IH; [|done]. intros ?. apply H. by right.
Qed.

Lemma split_on_nonempty sep s : Text.split_on sep s <> [].
Proof.
  destruct (split_on_shape sep s) as (init & seg & -> & _). by destruct init.
Qed.

Lemma split_on_app sep x y :
  Text.split_on sep (x +:+ String sep y) = Text.split_on sep x ++ Text.split_on sep y.
Proof.
  induction x as [|c x IH].
  - change ("" +:+ String sep y) with (String sep y). simpl.
    by destruct (decide (sep = sep)).
  - change (String c x +:+ String sep y) with (String c (x +:+ String sep y)).
    simpl. rewrite IH. destruct (decide (c = sep)); [done|].
    pose proof (split_on_nonempty sep x) as Hne.
    by destruct (Text.split_on sep x) as [|t ts].
Qed.

Lemma split_on_absent sep s :
  ~ In sep (list_ascii_of_string s) -> Text.split_on sep s = [s].
Proof.
  induction s as [|c s IH]; [done|]. simpl. intros H.
  destruct (decide (c = sep)) as [->|_]; [by destruct H; left|].
  by rewrite IH by (intros Hin; apply H; by right).
Qed.

Lemma suffix_of_app x w :
  ~ In "-"%char (list_ascii_of_string w) ->
  ProductNameExtractor.suffix_of (x +:+ "-" +:+ w) = Text.upper w.
Proof.
  intros Hw. unfold ProductNameExtractor.suffix_of.
  change (x +:+ "-" +:+ w) with (x +:+ String "-" w).
  rewrite split_on_app, (split_on_absent _ w) by done. by rewrite last_last.
Qed.

Lemma make_product_id_last_word a w :
  ~ In " "%char (list_ascii_of_string w) ->
  ~ In "-"%char (list_ascii_of_string w) ->
  BuildKB.make_product_id (a +:+ " " +:+ w)
  = BuildKB.make_product_id a +:+ "-" +:+ Text.lower w
  /\ ProductNameExtractor.suffix_of (BuildKB.make_product_id (a +:+ " " +:+ w))
     = Text.upper w.
Proof.
  intros Hsp Hhy.
  assert (BuildKB.make_product_id (a +:+ " " +:+ w)
          = BuildKB.make_product_id a +:+ "-" +:+ Text.lower w) as Hid.
  { unfold BuildKB.make_product_id. rewrite !lower_app, !replace_char_app.
    rewrite (replace_char_absent _ _ (Text.lower w)) by (by apply lower_absent).
    reflexivity. }
  split; [done|]. rewrite Hid, suffix_of_app by (by apply lower_absent).
  apply upper_lower.
Qed.

Lemma replace_char_length a (b : ascii) s :
  String.length (Text.replace_char a (String b "") s) = String.length s.
Proof.
  induction s as [|c s IH]; [done|]. simpl.
  destruct (decide (c = a)).
  - change (String b "" +:+ Text.replace_char a (String b "") s)
      with (String b (Text.replace_char a (String b "") s)). simpl. by rewrite IH.
  - change (String c "" +:+ Text.replace_char a (String b "") s)
      with (String c (Text.replace_char a (String b "") s)). simpl. by rewrite IH.
Qed.

Lemma lower_length s : String.length (Text.lower s) = String.length s.
Proof. induction s as [|c s IH]; simpl; congruence. Qed.

Lemma replace_char_removes a (b : ascii) s :
  b <> a -> ~ In a (list_ascii_of_string (Text.replace_char a (String b "") s)).
Proof.
  intros Hb. induction s as [|c s IH]; [simpl; tauto|]. simpl.
  destruct (decide (c = a)).
  - change (String b "" +:+ Text.replace_char a (String b "") s)
      with (String b (Text.replace_char a (String b "") s)). simpl. intros [?|?]; [congruence|tauto].
  - change (String c "" +:+ Text.replace_char a (String b "") s)
      with (String c (Text.replace_char a (String b "") s)). simpl. intros [?|?]; [congruence|tauto].
Qed.

Lemma replace_char_keeps (P : ascii -> Prop) a (b : ascii) s :
  P b -> Forall P (list_ascii_of_string s) ->
  Forall P (list_ascii_of_string (Text.replace_char a (String b "") s)).
Proof.
  intros Hb. induction s as [|c s IH]; [done|]. simpl.
  intros [Hc Hs]%Forall_cons. destruct (decide (c = a)).
  - change (String b "" +:+ Text.replace_char a (String b "") s)
      with (String b (Text.replace_char a (String b "") s)). simpl. constructor; auto.
  - change (String c "" +:+ Text.replace_char a (String b "") s)
      with (String c (Text.replace_char a (String b "") s)). simpl. constructor; auto.
Qed.

Lemma lower_no_upper s :
  Forall (fun c => Text.is_upper c = false) (list_ascii_of_string (Text.lower s)).
Proof.
  induction s as [|c s IH]; simpl; constructor; [|done].
  destruct c as [[] [] [] [] [] [] [] []]; reflexivity.
Qed.

Lemma lower_fixed s :
  Forall (fun c => Text.is_upper c = false) (list_ascii_of_string s) -> Text.lower s = s.
Proof.
  induction s as [|c s IH]; [done|]. simpl. intros [Hc Hs]%Forall_cons.
  rewrite IH by done. unfold Text.lower_char. by rewrite Hc.
Qed.

(** X23: the id [build_kb] derives from a product name is a slug: it has no
    space and no upper-case ASCII letter. For an ASCII name it is as long as
    the name and unchanged when derived again, and names that differ only
    in letter case, or in a hyphen written for a space, receive the same
    id. *)
Theorem product_id_is_a_slug name :
  let pid := BuildKB.make_product_id name in
  ~ In " "%char (list_ascii_of_string pid)
  /\ Forall (fun c => Text.is_upper c = false) (list_ascii_of_string pid)
  /\ (Text.is_ascii name = true ->
      String.length pid = String.length name
      /\ BuildKB.make_product_id pid = pid
      /\ BuildKB.make_product_id (Text.upper name) = pid
      /\ BuildKB.make_product_id (Text.replace_char " " "-" name) = pid).
Proof.
  cbv zeta. unfold BuildKB.make_product_id.
  assert (Forall (fun c => Text.is_upper c = false)
            (list_ascii_of_string (Text.replace_char " " "-" (Text.lower name)))) as Hlow
    by (apply replace_char_keeps; [reflexivity|apply lower_no_upper]).
  assert (~ In " "%char
            (list_ascii_of_string (Text.replace_char " " "-" (Text.lower name)))) as Hsp
    by (by apply replace_char_removes).
  split; [done|]. split; [done|]. intros _. split_and!.
  - by rewrite replace_char_length, lower_length.
  - by rewrite lower_fixed, replace_char_absent.
  - by rewrite lower_upper.
  - clear Hlow Hsp. induction name as [|c name IH]; [done|].
    change (Text.replace_char " " "-" (String c name))
      with ((if decide (c = " "%char) then "-" else String c "")
            +:+ Text.replace_char " " "-" name).
    rewrite lower_app, replace_char_app, IH.
    change (Text.replace_char " " "-" (Text.lower (String c name)))
      with ((if decide (Text.lower_char c = " "%char) then "-"
             else String (Text.lower_char c) "")
            +:+ Text.replace_char " " "-" (Text.lower name)).
    f_equal. destruct (decide (c = " "%char)) as [->|Hc]; [reflexivity|].
    destruct (decide (Text.lower_char c = " "%char)) as [Hl|Hl].
    + by apply lower_char_fixes in Hl.
    + simpl. by destruct (decide (Text.lower_char c = " "%char)).
Qed.

(** X24: when a scraped ASCII product name ends in a word free of spaces
    and hyphens, the suffix of the id built for it is that word in upper
    case. A question whose upper-case form contains it is therefore routed
    by [extract] to a product of the built catalog whose suffix it
    mentions. *)
Theorem built_id_routes_by_last_word raw r a w query :
  r ∈ raw ->
  Text.is_ascii (raw_product_name r) = true ->
  raw_product_name r = a +:+ " " +:+ w ->
  ~ In " "%char (list_ascii_of_string w) ->
  ~ In "-"%char (list_ascii_of_string w) ->
  Text.contains (Text.upper query) (Text.upper w) = true ->
  ProductNameExtractor.suffix_of (BuildKB.make_product_id (raw_product_name r))
  = Text.upper w
  /\ exists r',
       r' ∈ raw
       /\ ProductNameExtractor.extract
            (ProductNameExtractor.init (Some (BuildKB.integrate_and_simplify_specs raw)))
            query
          = Some (BuildKB.make_product_id (raw_product_name r'))
       /\ Text.contains (Text.upper query)
            (ProductNameExtractor.suffix_of
               (BuildKB.make_product_id (raw_product_name r'))) = true.
Proof.
  intros Hr _ Hname Hsp Hhy Hq.
  destruct (make_product_id_last_word a w Hsp Hhy) as [_ Hsuf].
  rewrite <- Hname in Hsuf. split; [done|].
  unfold ProductNameExtractor.extract, ProductNameExtractor.init.
  cbn [ProductNameExtractor.known_models].
  pose proof (scan_models_first (BuildKB.integrate_and_simplify_specs raw)
                (Text.upper query)) as Hscan.
  cbv zeta in Hscan.
  destruct (ProductNameExtractor.scan_models _ (Text.upper query)) as [pid|].
  - destruct Hscan as (before & p & after & Hsplit & Hp & Hhit & _).
    assert (p ∈ BuildKB.integrate_and_simplify_specs raw) as Hin
      by (rewrite Hsplit; apply elem_of_app; right; by left).
    unfold BuildKB.integrate_and_simplify_specs in Hin.
    apply list_elem_of_fmap in Hin as (r' & -> & Hr').
    exists r'. cbn [BuildKB.convert_product product_id] in Hp, Hhit.
    by rewrite <- Hp.
  - exfalso. rewrite Forall_forall in Hscan.
    specialize (Hscan (BuildKB.convert_product r)).
    cbn [BuildKB.convert_product product_id] in Hscan.
    rewrite Hsuf, Hq in Hscan. enough (true = false) by done. apply Hscan.
    unfold BuildKB.integrate_and_simplify_specs. apply list_elem_of_fmap. eauto.
Qed.

Lemma lookup_elem table zh_cat v :
  BuildKB.lookup table zh_cat = Some v -> (zh_cat, v) ∈ table.
Proof.
  induction table as [|[k v'] table IH]; [done|]. simpl.
  destruct (decide (k = zh_cat)) as [->|_].
  - intros [= ->]. by left.
  - intros H. right. auto.
Qed.

Lemma convert_spec_key spec :
  raw_category spec <> "Full Specs" -> key (BuildKB.convert_spec spec) <> "Full Specs".
Proof.
  intros Hc. unfold BuildKB.convert_spec.
  destruct (BuildKB.lookup BuildKB.mapping (raw_category spec)) as [[en_cat en_key]|] eqn:E;
    [|done].
  apply lookup_elem in E. cbn [key].
  assert (Forall (fun row => snd (snd row) <> "Full Specs") BuildKB.mapping) as Hall
    by (repeat constructor; discriminate).
  rewrite Forall_forall in Hall. exact (Hall _ E).
Qed.

(** X25: a corpus chunked from a catalog that [build_kb] produced holds
    one chunk per scraped spec plus one rollup per product; when no scraped
    category is literally Full Specs, its Full Specs chunks are exactly the
    rollups, one per product in catalog order. *)
Theorem built_catalog_rollups raw :
  Forall (fun r => Forall (fun s => raw_category s <> "Full Specs") (raw_specs r)) raw ->
  let products := BuildKB.integrate_and_simplify_specs raw in
  length (ConvertSpec.chunk_data products)
  = sum_list (map (fun r => S (length (raw_specs r))) raw)
  /\ List.filter is_full_specs (ConvertSpec.chunk_data products)
     = map ConvertSpec.full_specs_chunk products
  /\ length (List.filter is_full_specs (ConvertSpec.chunk_data products)) = length raw.
Proof.
  intros Hraw. cbv zeta.
  assert (List.filter is_full_specs
            (ConvertSpec.chunk_data (BuildKB.integrate_and_simplify_specs raw))
          = map ConvertSpec.full_specs_chunk (BuildKB.integrate_and_simplify_specs raw))
    as Hroll.
  { apply chunk_data_rollups. unfold BuildKB.integrate_and_simplify_specs.
    rewrite Forall_forall. intros p (r & -> & Hr)%list_elem_of_fmap.
    rewrite Forall_forall in Hraw. specialize (Hraw r Hr).
    cbn [BuildKB.convert_product specs].
    rewrite Forall_forall. intros sp (s & -> & Hs)%list_elem_of_fmap.
    rewrite Forall_forall in Hraw. by apply convert_spec_key, Hraw. }
  split_and!; [|done|].
  - clear. unfold BuildKB.integrate_and_simplify_specs.
    induction raw as [|r raw IH]; [done|].
    simpl. rewrite length_app, !length_fmap. simpl. rewrite IH. lia.
  - rewrite Hroll. unfold BuildKB.integrate_and_simplify_specs.
    by rewrite !length_fmap.
Qed.

Lemma process_query_context (self : RAGSystem) query out tr' :
  _process_query linalg_norm np_argsort format_score self query = (Ok out, tr') ->
  context_str out
  = Text.join (Text.newline +:+ Text.newline)
      (match deterministic_facts out with
       | [] => []
       | _ => ["[Verified Facts]" +:+ Text.newline
               +:+ Text.join Text.newline (deterministic_facts out)]
       end
       ++ ["[Retrieval Results]" +:+ Text.newline
           +:+ Text.join separator
                 (map (fun '(c, s) => content c +:+ Text.newline +:+ "[信心分數: "
                                      +:+ format_score s +:+ "]")
                    (zip (final_chunk_results out) (final_chunk_scores out)));
           "[QA Database]" +:+ Text.newline
           +:+ Text.join separator
                 (map (fun '(qa, s) => qa_text qa +:+ Text.newline +:+ "Score: "
                                       +:+ format_score s)
                    (zip (qa_results out) (qa_scores out)))]).
Proof.
  unfold _process_query.
  destruct (retrieve_chunks linalg_norm np_argsort self query) as [[[[r s] f]|ex] t1];
    cbn [bind]; [|discriminate].
  destruct (QARetriever_search linalg_norm np_argsort (qa_retriever self) query _ 1)
    as [[[qr qs]|ex] t2]; cbn [bind ret]; [|discriminate].
  intros [= <- _].
  cbn [context_str deterministic_facts final_chunk_results final_chunk_scores
       qa_results qa_scores].
  by rewrite zip_fst_snd.
Qed.

Lemma zip_elem_l {A B} (l : list A) (k : list B) x :
  length k = length l -> x ∈ l -> exists y, (x, y) ∈ zip l k.
Proof.
  revert k. induction l as [|a l IH]; intros [|b k] Hlen Hx; simpl in *;
    try done; try (by apply elem_of_nil in Hx).
  apply elem_of_cons in Hx as [->|Hx].
  - exists b. by left.
  - destruct (IH k) as [y Hy]; [lia|done|]. exists y. by right.
Qed.

(** X26: the context string of a built system opens with the retrieval
    section, or in product-list mode with the verified fact that names every
    product of the catalog, followed by the retrieval section. It holds the
    QA section and quotes in full the text of every context chunk and every
    QA item of the evidence. *)
Theorem context_string_sections e spec_file qa_file self tr query :
  RAGSystem_init linalg_norm e spec_file qa_file = (Ok self, tr) ->
  exists out tr',
    _process_query linalg_norm np_argsort format_score self query = (Ok out, tr')
    /\ Forall (fun c => Text.contains (context_str out) (content c) = true)
         (final_chunk_results out)
    /\ Forall (fun qa => Text.contains (context_str out) (qa_text qa) = true)
         (qa_results out)
    /\ Text.contains (context_str out) "[QA Database]" = true
    /\ match classify self query with
       | ProductList =>
           String.prefix ("[Verified Facts]" +:+ Text.newline +:+ product_list_fact self
                          +:+ Text.newline +:+ Text.newline +:+ "[Retrieval Results]")
             (context_str out) = true
           /\ Forall (fun p => Text.contains (context_str out) (p_product_name p) = true)
                spec_file
       | _ => String.prefix "[Retrieval Results]" (context_str out) = true
       end.
Proof.
  intros Hinit.
  destruct (process_query_built _ _ _ _ _ query Hinit)
    as (results & scores & qr & qs & out & tr' & Hrun & _ & _ & _ & Hfacts & Hqr & Hqs
        & (include & Hfinal & Hfscores) & _ & _ & _ & _ & _ & Hqlen & _).
  apply RAGSystem_init_built in Hinit as [_ Hself].
  exists out, tr'. split; [done|].
  rewrite (process_query_context _ _ _ _ Hrun), Hqr, Hqs.
  set (entry := fun '(c, s) => content c +:+ Text.newline +:+ "[信心分數: "
                               +:+ format_score s +:+ "]").
  set (qa_entry := fun '(qa, s) => qa_text qa +:+ Text.newline +:+ "Score: "
                                   +:+ format_score s).
  set (R := "[Retrieval Results]" +:+ Text.newline +:+ Text.join separator _).
  set (D := "[QA Database]" +:+ Text.newline +:+ Text.join separator _).
  set (F := match deterministic_facts out with [] => [] | _ => _ end).
  set (ctx := Text.join _ (F ++ [R; D])).
  assert (Text.contains ctx R = true) as HR
    by (apply join_contains, elem_of_app; right; by left).
  assert (Text.contains ctx D = true) as HD
    by (apply join_contains, elem_of_app; right; right; by left).
  assert (length (final_chunk_scores out) = length (final_chunk_results out)) as Hflen
    by (by rewrite Hfinal, Hfscores, !length_fmap).
  split_and!.
  - rewrite Forall_forall. intros c Hc.
    destruct (zip_elem_l _ _ c Hflen Hc) as [s Hcs].
    eapply contains_trans; [exact HR|]. subst R.
    apply contains_app_r, contains_app_r.
    eapply contains_trans.
    + apply join_contains, list_elem_of_fmap. exists (c, s). split; [reflexivity|done].
    + unfold entry. cbv beta iota. apply contains_app_l, contains_refl.
  - rewrite Forall_forall. intros qa Hqa.
    destruct (zip_elem_l _ _ qa Hqlen Hqa) as [s Has].
    eapply contains_trans; [exact HD|]. subst D.
    apply contains_app_r, contains_app_r.
    eapply contains_trans.
    + apply join_contains, list_elem_of_fmap. exists (qa, s). split; [reflexivity|done].
    + unfold qa_entry. cbv beta iota. apply contains_app_l, contains_refl.
  - eapply contains_trans; [exact HD|]. subst D. apply contains_app_l, contains_refl.
  - assert (forall rest, String.prefix "[Retrieval Results]"
                           (Text.join (Text.newline +:+ Text.newline) (R :: rest)) = true)
      as Hplain.
    { intros rest. apply prefix_spec.
      destruct (proj1 (prefix_spec _ _) (join_head_prefix (Text.newline +:+ Text.newline)
                                           R rest)) as [b ->].
      subst R. eexists. by rewrite !append_assoc. }
    subst ctx F. rewrite Hfacts.
    destruct (classify self query) eqn:Emode; try apply Hplain.
    split.
    + apply prefix_spec. cbn [app Text.join].
      change (Text.join Text.newline [product_list_fact self])
        with (product_list_fact self).
      subst R. eexists. rewrite !append_assoc. reflexivity.
    + rewrite Forall_forall. intros p Hp.
      eapply contains_trans;
        [apply join_contains with (p := "[Verified Facts]" +:+ Text.newline
                                        +:+ product_list_fact self); by left|].
      apply contains_app_r, contains_app_r.
      unfold product_list_fact. apply contains_app_r, contains_app_l.
      rewrite Hself. cbn [loader]. unfold ConvertSpec.get_products.
      apply join_contains, list_elem_of_fmap. eauto.
Qed.

End Properties.

(** ** Examples on concrete inputs

    The examples rank with [argsort], the insertion sort, which meets the
    contract of [np.argsort] ([argsort_meets_contract]). *)

(** C1 (hybrid score composition), at a call with a candidate outside the
    corpus: corpus [[cpu_a; battery_a]], candidates
    [[stray; cpu_a; battery_a]], query ["which cpu"]. The chunk [cpu_a] is
    returned with the cosine of [battery_a] plus its own keyword bonus, which
    is not its hybrid score. *)
Theorem hybrid_score_misaligned :
  exists s_stray s_cpu,
    ChunkRetriever_search Demo.norm argsort (indexed Demo.norm Demo.model Demo.corpus)
      "which cpu" 5 (Some [Demo.stray; Demo.cpu_a; Demo.battery_a])
    = (Ok ([Demo.stray; Demo.cpu_a], [s_stray; s_cpu]), [EvEmbed "which cpu"])
    /\ (s_cpu == cosine Demo.norm Demo.model "which cpu" (content Demo.battery_a)
                 + keyword_score (query_tokens_of "which cpu") Demo.cpu_a)%Q
    /\ ~ (s_cpu == hybrid Demo.norm Demo.model "which cpu" Demo.cpu_a)%Q.
Proof.
  do 2 eexists. split_and!.
  - vm_compute. reflexivity.
  - vm_compute. reflexivity.
  - vm_compute. discriminate.
Qed.

Lemma full_specs_policy_witness :
  RAGSystem_init Demo.norm Demo.model Demo.catalog (Some Demo.qa_set)
  = (Ok Demo.system, Demo.system_trace)
  /\ exists results scores out,
       retrieve_chunks Demo.norm argsort Demo.system "list products please"
       = (Ok (results, scores, [product_list_fact Demo.system]),
          [EvEmbed "list products please"])
       /\ _process_query Demo.norm argsort Demo.fmt Demo.system "list products please"
          = (Ok out, [EvEmbed "list products please"; EvEmbed "list products please"])
       /\ zip (final_chunk_results out) (final_chunk_scores out)
          = List.filter (fun cs => negb (is_full_specs (fst cs))) (zip results scores).
Proof.
  assert (RAGSystem_init Demo.norm Demo.model Demo.catalog (Some Demo.qa_set)
          = (Ok Demo.system, Demo.system_trace)) as Hinit by (vm_compute; reflexivity).
  split; [exact Hinit|].
  destruct (full_specs_policy Demo.norm argsort Demo.fmt argsort_meets_contract _ _ _ _ _ "list products please" Hinit)
    as (results & scores & facts & tr_chunks & tr_qa & out & excluded
        & Hstep & Hrun & Htr & Htrqa & Hfacts & _ & Hexcl & Hfinal & _).
  assert (classify Demo.system "list products please" = ProductList) as Hmode
    by (vm_compute; reflexivity).
  rewrite Hmode in Htr. subst tr_chunks. simpl in Htrqa. subst tr_qa.
  assert (facts = [product_list_fact Demo.system]) as ->.
  { assert (retrieve_chunks Demo.norm argsort Demo.system "list products please"
            = (retrieve_chunks Demo.norm argsort Demo.system "list products please")) as E
      by reflexivity.
    rewrite Hstep in E at 1. unfold retrieve_chunks in E. rewrite Hmode in E.
    destruct (ChunkRetriever_search _ _ _ _ _) as [[[r s]|x] t]; cbn in E; congruence. }
  assert (excluded = true) as ->.
  { apply Hexcl. split; [congruence|]. by left. }
  exists results, scores, out. split_and!; [exact Hstep|exact Hrun|exact Hfinal].
Defined.

Lemma comparison_returns_all_full_specs_witness :
  classify Demo.system "compare bxh and byh" = Comparison
  /\ (RAGSystem_init Demo.norm Demo.model Demo.catalog (Some Demo.qa_set)
      = (Ok Demo.system, Demo.system_trace)
      /\ Forall (fun p => Forall (fun sp => key sp <> "Full Specs") (specs p)) Demo.catalog)
  /\ retrieve_chunks Demo.norm argsort Demo.system "compare bxh and byh"
     = (Ok (map ConvertSpec.full_specs_chunk Demo.catalog, [1.0; 1.0]%Q, []), []).
Proof.
  assert (classify Demo.system "compare bxh and byh" = Comparison) as Hmode
    by (vm_compute; reflexivity).
  assert (RAGSystem_init Demo.norm Demo.model Demo.catalog (Some Demo.qa_set)
          = (Ok Demo.system, Demo.system_trace)) as Hinit by (vm_compute; reflexivity).
  assert (Forall (fun p => Forall (fun sp => key sp <> "Full Specs") (specs p)) Demo.catalog)
    as Hkeys by (repeat constructor; discriminate).
  destruct (comparison_returns_all_full_specs Demo.norm argsort Demo.system _ Hmode)
    as (Hstep & _ & Hrollups).
  destruct (Hrollups _ _ _ _ Hinit) as [_ Hexact]. rewrite (Hexact Hkeys) in Hstep.
  split_and!; [exact Hmode|exact Hinit|exact Hkeys|exact Hstep].
Defined.

Lemma comparison_takes_priority_witness :
  ("compare" ∈ QueryFilter.COMPARISON_KEYWORDS
   /\ Text.contains "compare bxh and byh" "compare" = true
   /\ ProductNameExtractor.extract (product_extractor Demo.system) "compare bxh and byh"
      = Some "aorus-master-16-bxh")
  /\ classify Demo.system "compare bxh and byh" = Comparison
  /\ classify Demo.system "bxh battery" = SpecificProduct "aorus-master-16-bxh".
Proof.
  assert ("compare" ∈ QueryFilter.COMPARISON_KEYWORDS) as Hkw
    by (apply (bool_decide_unpack _); vm_compute; exact I).
  assert (Text.contains "compare bxh and byh" "compare" = true) as Hin
    by (vm_compute; reflexivity).
  assert (ProductNameExtractor.extract (product_extractor Demo.system) "compare bxh and byh"
          = Some "aorus-master-16-bxh") as Hpid by (vm_compute; reflexivity).
  split; [auto|].
  destruct (comparison_takes_priority Demo.norm argsort Demo.system "compare bxh and byh"
              "compare" "aorus-master-16-bxh" Hkw (or_introl Hin) Hpid)
    as (Hmode & _ & _ & Hproduct & _).
  split; [exact Hmode|].
  apply Hproduct. split; vm_compute; reflexivity.
Defined.


(** The tie order is that of [np.argsort]: on the same two tied candidates,
    the sort that puts equal values in descending index order, which meets
    the contract as well, makes the search return the earlier one first. *)
Lemma tie_order_follows_argsort :
  argsort_contract argsort_ties_descending
  /\ exists s,
       result_of (ChunkRetriever_search Demo.norm argsort_ties_descending
                    (indexed Demo.norm Demo.model Demo.tied_corpus) "which laptop" 2 None)
       = Ok ([Demo.cpu_a; Demo.cpu_a'], [s; s]).
Proof.
  split; [exact argsort_ties_descending_meets_contract|].
  eexists. vm_compute. reflexivity.
Qed.


Lemma top_k_prefix_monotone_witness :
  (add_chunks Demo.norm (ChunkRetriever_init Demo.model) Demo.corpus
   = (Ok Demo.retriever, Demo.retriever_trace)
   /\ (0 <= 1)%Z
   /\ exists r1 s1 r2 s2,
        result_of (ChunkRetriever_search Demo.norm argsort Demo.retriever "which cpu" 1 None)
        = Ok (r1, s1)
        /\ result_of (ChunkRetriever_search Demo.norm argsort Demo.retriever "which cpu" (1 + 1) None)
           = Ok (r2, s2)
        /\ r1 `prefix_of` r2 /\ s1 `prefix_of` s2)
  /\ (QARetriever_init Demo.norm Demo.model (Some Demo.qa_set)
      = (Ok Demo.qa_index, Demo.qa_trace)
      /\ exists r1 s1 r2 s2,
           result_of (QARetriever_search Demo.norm argsort Demo.qa_index "how long" (Some "BYH") 1)
           = Ok (r1, s1)
           /\ result_of (QARetriever_search Demo.norm argsort Demo.qa_index "how long" (Some "BYH") (1 + 1))
              = Ok (r2, s2)
           /\ r1 `prefix_of` r2 /\ s1 `prefix_of` s2).
Proof.
  destruct (top_k_prefix_monotone Demo.norm argsort argsort_meets_contract) as [Hchunk Hqa].
  assert (add_chunks Demo.norm (ChunkRetriever_init Demo.model) Demo.corpus
          = (Ok Demo.retriever, Demo.retriever_trace)) as Hidx by (vm_compute; reflexivity).
  assert (QARetriever_init Demo.norm Demo.model (Some Demo.qa_set)
          = (Ok Demo.qa_index, Demo.qa_trace)) as Hload by (vm_compute; reflexivity).
  assert (0 <= 1)%Z as Hn by lia.
  split_and!; [exact Hidx|exact Hn| |exact Hload|].
  - exact (Hchunk _ _ _ _ "which cpu" None 1%Z Hidx Hn).
  - exact (Hqa _ _ _ _ "how long" (Some "BYH") 1%Z Hload Hn).
Defined.

(** C7, as stated, fails: no item is named ["BXH"] or ["overall"], yet the
    search does not rank the whole set of two items. The item with an empty
    product name counts as ["overall"], is the only candidate, and is the
    only result for [top_k = 2]. *)
Lemma qa_scope_fallback_counterexample :
  let pairs := [Demo.qa_unnamed; Demo.qa_byh] in
  (forall it, it ∈ pairs ->
     Text.upper (product_name it) <> Text.upper "BXH" /\ product_name it <> "overall")
  /\ candidate_indices_of "BXH" pairs = [0]
  /\ (exists s,
        result_of (QARetriever_search Demo.norm argsort (loaded Demo.norm Demo.model pairs)
                     "which battery" (Some "BXH") 2)
        = Ok ([Demo.qa_unnamed], [s]))
  /\ (exists s0 s1,
        (pick pairs
           (top_indices_of argsort
              (map (fun it => cosine Demo.norm Demo.model "which battery" (question it)) pairs) 2),
         pick (map (fun it => cosine Demo.norm Demo.model "which battery" (question it)) pairs)
           (top_indices_of argsort
              (map (fun it => cosine Demo.norm Demo.model "which battery" (question it)) pairs) 2))
        = ([Demo.qa_byh; Demo.qa_unnamed], [s0; s1])).
Proof.
  intros pairs. split_and!.
  - intros it Hit. apply elem_of_cons in Hit as [->|Hit];
      [|apply list_elem_of_singleton in Hit as ->]; split; vm_compute; discriminate.
  - vm_compute. reflexivity.
  - eexists. vm_compute. reflexivity.
  - do 2 eexists. vm_compute. reflexivity.
Qed.

Lemma qa_scope_fallback_witness :
  let pairs := [Demo.qa_byh; Demo.qa_bzh] in
  let scores :=
    map (fun it => cosine Demo.norm Demo.model "which battery" (question it)) pairs in
  (QARetriever_init Demo.norm Demo.model (Some pairs)
   = (Ok (loaded Demo.norm Demo.model pairs),
      [EvEmbed "which battery"; EvEmbed "which display"])
   /\ pairs <> []
   /\ (forall it, it ∈ pairs ->
         product_name it <> ""
         /\ Text.upper (product_name it) <> Text.upper (default "overall" (Some "BXH"))
         /\ product_name it <> "overall"))
  /\ QARetriever_search Demo.norm argsort (loaded Demo.norm Demo.model pairs)
       "which battery" (Some "BXH") 2
     = (Ok (pick pairs (top_indices_of argsort scores 2), pick scores (top_indices_of argsort scores 2)),
        [EvEmbed "which battery"])
  /\ length (pick pairs (top_indices_of argsort scores 2)) = 2.
Proof.
  intros pairs scores.
  assert (QARetriever_init Demo.norm Demo.model (Some pairs)
          = (Ok (loaded Demo.norm Demo.model pairs),
             [EvEmbed "which battery"; EvEmbed "which display"])) as Hload
    by (vm_compute; reflexivity).
  assert (pairs <> []) as Hne by discriminate.
  assert (forall it, it ∈ pairs ->
            product_name it <> ""
            /\ Text.upper (product_name it) <> Text.upper (default "overall" (Some "BXH"))
            /\ product_name it <> "overall") as Hscope.
  { intros it Hit. apply elem_of_cons in Hit as [->|Hit];
      [|apply list_elem_of_singleton in Hit as ->]; split_and!; vm_compute; discriminate. }
  destruct (qa_scope_fallback Demo.norm argsort argsort_meets_contract Demo.model pairs _ _ "which battery"
              (Some "BXH") 2%Z Hload Hne Hscope) as [Hsearch Hlen].
  split_and!; [exact Hload|exact Hne|exact Hscope|exact Hsearch|].
  apply Hlen. lia.
Defined.

Lemma empty_results_are_not_errors_witness :
  (Forall (fun t => t ∉ chunks Demo.retriever)
     (default (chunks Demo.retriever) (Some [Demo.stray]))
   /\ ChunkRetriever_search Demo.norm argsort Demo.retriever "which cpu" 3 (Some [Demo.stray])
      = (Ok ([], []), [EvEmbed "which cpu"]))
  /\ (qa_items (loaded Demo.norm Demo.model []) = []
      /\ QARetriever_search Demo.norm argsort (loaded Demo.norm Demo.model []) "which cpu" None 2
         = (Ok ([], []), [])).
Proof.
  destruct (empty_results_are_not_errors Demo.norm argsort) as [Hchunk Hqa].
  assert (Forall (fun t => t ∉ chunks Demo.retriever)
            (default (chunks Demo.retriever) (Some [Demo.stray]))) as Hnone.
  { repeat constructor. apply (bool_decide_unpack _). vm_compute. exact I. }
  assert (qa_items (loaded Demo.norm Demo.model []) = []) as Hempty by reflexivity.
  split_and!; [exact Hnone| |exact Hempty|].
  - exact (Hchunk Demo.retriever "which cpu" 3%Z (Some [Demo.stray]) Hnone).
  - exact (Hqa (loaded Demo.norm Demo.model []) "which cpu" None 2%Z Hempty).
Defined.

Lemma extract_first_suffix_match_witness :
  Demo.catalog <> []
  /\ ProductNameExtractor.extract (ProductNameExtractor.init (Some Demo.catalog))
       "is the byh lighter than the BXH" = Some "aorus-master-16-bxh"
  /\ exists before p after,
       Demo.catalog = before ++ p :: after
       /\ product_id p = "aorus-master-16-bxh"
       /\ Text.contains (Text.upper "is the byh lighter than the BXH")
            (ProductNameExtractor.suffix_of (product_id p)) = true
       /\ Forall (fun p' =>
                    Text.contains (Text.upper "is the byh lighter than the BXH")
                      (ProductNameExtractor.suffix_of (product_id p')) = false) before.
Proof.
  assert (Demo.catalog <> []) as Hne by discriminate.
  assert (ProductNameExtractor.extract (ProductNameExtractor.init (Some Demo.catalog))
            "is the byh lighter than the BXH" = Some "aorus-master-16-bxh") as Hres
    by (vm_compute; reflexivity).
  destruct (extract_first_suffix_match Demo.catalog "is the byh lighter than the BXH" Hne)
    as [Hfirst _].
  rewrite Hres in Hfirst. split_and!; [exact Hne|exact Hres|exact Hfirst].
Defined.

(** C10, as stated, fails in its account of the selection: no item is named
    ["overall"], so the claim has the search fall back to both items, but the
    item named ["OVERALL"] matches up to case, is the only candidate, and is
    the only result for [top_k = 2]. *)
Lemma none_scope_counterexample :
  let pairs := [Demo.qa_upper; Demo.qa_byh] in
  (forall it, it ∈ pairs -> product_name it <> "overall")
  /\ candidate_indices_of "overall" pairs = [0]
  /\ exists s,
       result_of (QARetriever_search Demo.norm argsort (loaded Demo.norm Demo.model pairs)
                    "which battery" None 2)
       = Ok ([Demo.qa_upper], [s]).
Proof.
  intros pairs. split_and!.
  - intros it Hit. apply elem_of_cons in Hit as [->|Hit];
      [|apply list_elem_of_singleton in Hit as ->]; vm_compute; discriminate.
  - vm_compute. reflexivity.
  - eexists. vm_compute. reflexivity.
Qed.

Lemma none_scope_is_overall_witness :
  let pairs := [Demo.qa_upper; Demo.qa_byh] in
  (QARetriever_init Demo.norm Demo.model (Some pairs)
   = (Ok (loaded Demo.norm Demo.model pairs),
      [EvEmbed "which display"; EvEmbed "which battery"])
   /\ pairs <> [])
  /\ QARetriever_search Demo.norm argsort (loaded Demo.norm Demo.model pairs) "which battery" None 2
     = QARetriever_search Demo.norm argsort (loaded Demo.norm Demo.model pairs) "which battery"
         (Some "overall") 2
  /\ exists cand,
       (forall i, i ∈ cand
          <-> exists it, pairs !! i = Some it
               /\ ((product_name it = "" \/ Text.upper (product_name it) = "OVERALL")
                   \/ Forall (fun it' => ~ (product_name it' = ""
                                            \/ Text.upper (product_name it') = "OVERALL")) pairs))
       /\ QARetriever_search Demo.norm argsort (loaded Demo.norm Demo.model pairs) "which battery" None 2
          = (Ok (pick pairs
                   (pick cand
                      (top_indices_of argsort
                         (qa_scores_of Demo.norm Demo.model "which battery" pairs cand) 2)),
                 pick (qa_scores_of Demo.norm Demo.model "which battery" pairs cand)
                   (top_indices_of argsort
                      (qa_scores_of Demo.norm Demo.model "which battery" pairs cand) 2)),
             [EvEmbed "which battery"]).
Proof.
  intros pairs.
  destruct (none_scope_is_overall Demo.norm argsort argsort_meets_contract) as [Hsame Hsel].
  assert (QARetriever_init Demo.norm Demo.model (Some pairs)
          = (Ok (loaded Demo.norm Demo.model pairs),
             [EvEmbed "which display"; EvEmbed "which battery"])) as Hload
    by (vm_compute; reflexivity).
  assert (pairs <> []) as Hne by discriminate.
  split_and!; [exact Hload|exact Hne|apply Hsame|].
  exact (Hsel _ _ _ _ "which battery" 2%Z Hload Hne).
Defined.

(** ** Examples of the further properties *)

Lemma search_returns_candidates_witness :
  add_chunks Demo.norm (ChunkRetriever_init Demo.model) Demo.corpus
  = (Ok Demo.retriever, Demo.retriever_trace)
  /\ exists results scores,
       ChunkRetriever_search Demo.norm argsort Demo.retriever "which cpu" 1 None
       = (Ok (results, scores), [EvEmbed "which cpu"])
       /\ Forall (fun c => c ∈ Demo.corpus) results
       /\ length scores = length results
       /\ length results = 1.
Proof.
  assert (add_chunks Demo.norm (ChunkRetriever_init Demo.model) Demo.corpus
          = (Ok Demo.retriever, Demo.retriever_trace)) as H by (vm_compute; reflexivity).
  split; [exact H|].
  destruct (search_returns_candidates Demo.norm argsort argsort_meets_contract _ _ _ _ "which cpu" 1 None H)
    as (results & scores & Hrun & Hin & Hlen & Hn).
  exists results, scores. split_and!; [exact Hrun|exact Hin|exact Hlen|].
  rewrite Hn. vm_compute. reflexivity.
Defined.

Lemma search_scores_descending_witness :
  add_chunks Demo.norm (ChunkRetriever_init Demo.model) Demo.corpus
  = (Ok Demo.retriever, Demo.retriever_trace)
  /\ exists results scores,
       result_of (ChunkRetriever_search Demo.norm argsort Demo.retriever "which cpu" 5 None)
       = Ok (results, scores)
       /\ StronglySorted (fun x y => (y <= x)%Q) scores.
Proof.
  assert (add_chunks Demo.norm (ChunkRetriever_init Demo.model) Demo.corpus
          = (Ok Demo.retriever, Demo.retriever_trace)) as H by (vm_compute; reflexivity).
  split; [exact H|].
  destruct (search_scores_descending Demo.norm argsort argsort_meets_contract _ _ _ _ "which cpu" 5 None H)
    as (results & scores & Hrun & Hsorted & _).
  exists results, scores. split; [exact Hrun|exact Hsorted].
Defined.

Lemma hybrid_scores_when_candidates_resolve_witness :
  add_chunks Demo.norm (ChunkRetriever_init Demo.model) Demo.corpus
  = (Ok Demo.retriever, Demo.retriever_trace)
  /\ Forall (fun t => t ∈ Demo.corpus) (default Demo.corpus (Some [Demo.battery_a]))
  /\ exists results,
       ChunkRetriever_search Demo.norm argsort Demo.retriever "which cpu" 5
         (Some [Demo.battery_a])
       = (Ok (results, map (hybrid Demo.norm Demo.model "which cpu") results),
          [EvEmbed "which cpu"])
       /\ Forall (fun c => c ∈ Demo.corpus) results.
Proof.
  assert (add_chunks Demo.norm (ChunkRetriever_init Demo.model) Demo.corpus
          = (Ok Demo.retriever, Demo.retriever_trace)) as H by (vm_compute; reflexivity).
  assert (Forall (fun t => t ∈ Demo.corpus) (default Demo.corpus (Some [Demo.battery_a])))
    as Hall.
  { simpl. constructor; [|constructor]. right. left. }
  split; [exact H|]. split; [exact Hall|].
  destruct (hybrid_scores_when_candidates_resolve Demo.norm argsort argsort_meets_contract _ _ _ _ "which cpu" 5
              (Some [Demo.battery_a]) H Hall) as (results & Hrun & Hin & _).
  exists results. split; [exact Hrun|exact Hin].
Defined.

Lemma keyword_bonus_token_set_witness :
  (forall t, t ∈ Text.split (Text.lower "cpu  cpu") <-> t ∈ Text.split (Text.lower "CPU"))
  /\ Text.is_ascii "cpu  cpu" = true
  /\ keyword_score (query_tokens_of "cpu  cpu") Demo.cpu_a
     = keyword_score (query_tokens_of "CPU") Demo.cpu_a
  /\ keyword_score (query_tokens_of (Text.upper "cpu  cpu")) Demo.cpu_a
     = keyword_score (query_tokens_of "cpu  cpu") Demo.cpu_a.
Proof.
  assert (forall t, t ∈ Text.split (Text.lower "cpu  cpu")
                    <-> t ∈ Text.split (Text.lower "CPU")) as H.
  { intros t. change (Text.split (Text.lower "cpu  cpu")) with ["cpu"; "cpu"].
    change (Text.split (Text.lower "CPU")) with ["cpu"].
    rewrite !elem_of_cons. tauto. }
  assert (Text.is_ascii "cpu  cpu" = true) as Hascii by reflexivity.
  split; [exact H|]. split; [exact Hascii|].
  destruct (keyword_bonus_token_set "cpu  cpu" "CPU" Demo.cpu_a H) as (Hset & Hupper & _).
  split; [exact Hset|exact (Hupper Hascii)].
Defined.

Lemma add_chunks_builds_parallel_index_witness :
  Demo.corpus <> []
  /\ add_chunks Demo.norm (ChunkRetriever_init Demo.model) []
     = (Raise ValueError, [])
  /\ exists vs,
       add_chunks Demo.norm (ChunkRetriever_init Demo.model) Demo.corpus
       = (Ok {| engine := Demo.model; chunks := Demo.corpus; vectors := Some vs |},
          Demo.retriever_trace)
       /\ length vs = 2.
Proof.
  assert (Demo.corpus <> []) as H by discriminate.
  split; [exact H|].
  destruct (add_chunks_builds_parallel_index Demo.norm (ChunkRetriever_init Demo.model)
              Demo.corpus H) as (Hempty & vs & Hrun & Hlen & _).
  split; [exact Hempty|]. exists vs. split; [exact Hrun|exact Hlen].
Defined.

Lemma qa_load_degrades_to_empty_witness :
  Demo.qa_set <> []
  /\ (exists qa,
        QARetriever_init Demo.norm Demo.model None = (Ok qa, [])
        /\ QARetriever_search Demo.norm argsort qa "how long" None 2 = (Ok ([], []), []))
  /\ exists qa vs,
       QARetriever_init Demo.norm Demo.model (Some Demo.qa_set) = (Ok qa, Demo.qa_trace)
       /\ qa_items qa = Demo.qa_set
       /\ qa_vectors qa = Some vs
       /\ length vs = 2.
Proof.
  assert (Demo.qa_set <> []) as H by discriminate.
  split; [exact H|].
  destruct (qa_load_degrades_to_empty Demo.norm argsort Demo.model Demo.qa_set H)
    as (Hnone & qa & vs & Hrun & Hitems & Hvs & Hlen).
  split.
  - destruct (Hnone None (or_introl eq_refl)) as (qa0 & Hinit & Hsearch).
    exists qa0. split; [exact Hinit|apply Hsearch].
  - exists qa, vs. split_and!; [exact Hrun|exact Hitems|exact Hvs|exact Hlen].
Defined.

Lemma qa_results_in_scope_witness :
  QARetriever_init Demo.norm Demo.model (Some Demo.qa_set)
  = (Ok Demo.qa_index, Demo.qa_trace)
  /\ Exists (fun it => product_name it = "" \/ product_name it = "overall"
                       \/ Text.upper (product_name it) = Text.upper "bzh") Demo.qa_set
  /\ exists results scores,
       QARetriever_search Demo.norm argsort Demo.qa_index "which battery" (Some "bzh") 2
       = (Ok (results, scores), [EvEmbed "which battery"])
       /\ Forall (fun it => product_name it <> "BYH") results.
Proof.
  assert (QARetriever_init Demo.norm Demo.model (Some Demo.qa_set)
          = (Ok Demo.qa_index, Demo.qa_trace)) as H by (vm_compute; reflexivity).
  assert (Exists (fun it => product_name it = "" \/ product_name it = "overall"
                            \/ Text.upper (product_name it)
                               = Text.upper (default "overall" (Some "bzh")))
            Demo.qa_set) as Hex.
  { apply Exists_cons_hd. right. left. reflexivity. }
  split; [exact H|]. split; [exact Hex|].
  destruct (qa_results_in_scope Demo.norm argsort argsort_meets_contract _ _ _ _ "which battery" (Some "bzh") 2 H Hex)
    as (results & scores & Hrun & Hall).
  exists results, scores. split; [exact Hrun|].
  eapply Forall_impl; [exact Hall|]. simpl.
  intros it [Hn|[Hn|Hn]] Hbyh; rewrite Hbyh in Hn; discriminate.
Defined.

Lemma qa_search_ranked_witness :
  QARetriever_init Demo.norm Demo.model (Some Demo.qa_set)
  = (Ok Demo.qa_index, Demo.qa_trace)
  /\ Demo.qa_set <> []
  /\ exists results scores,
       QARetriever_search Demo.norm argsort Demo.qa_index "which battery" (Some "BYH") 2
       = (Ok (results, scores), [EvEmbed "which battery"])
       /\ Forall (fun it => it ∈ Demo.qa_set) results
       /\ length results = 2
       /\ StronglySorted (fun x y => (y <= x)%Q) scores.
Proof.
  assert (QARetriever_init Demo.norm Demo.model (Some Demo.qa_set)
          = (Ok Demo.qa_index, Demo.qa_trace)) as H by (vm_compute; reflexivity).
  assert (Demo.qa_set <> []) as Hne by discriminate.
  split; [exact H|]. split; [exact Hne|].
  destruct (qa_search_ranked Demo.norm argsort argsort_meets_contract _ _ _ _ "which battery" (Some "BYH") 2 H Hne)
    as (results & scores & Hrun & Hin & _ & Hn & _ & Hsorted & _).
  exists results, scores. split_and!; [exact Hrun|exact Hin| |exact Hsorted].
  rewrite Hn. vm_compute. reflexivity.
Defined.

Lemma qa_scope_case_insensitive_witness :
  Text.upper "Byh" = Text.upper "BYH"
  /\ Text.is_ascii "Byh" = true
  /\ QARetriever_search Demo.norm argsort Demo.qa_index "which battery" (Some "Byh") 1
     = QARetriever_search Demo.norm argsort Demo.qa_index "which battery" (Some "BYH") 1
  /\ QARetriever_search Demo.norm argsort Demo.qa_index "which battery"
       (Some (Text.lower "Byh")) 1
     = QARetriever_search Demo.norm argsort Demo.qa_index "which battery" (Some "Byh") 1.
Proof.
  assert (Text.upper "Byh" = Text.upper "BYH") as H by reflexivity.
  assert (Text.is_ascii "Byh" = true) as Hascii by reflexivity.
  split; [exact H|]. split; [exact Hascii|].
  destruct (qa_scope_case_insensitive Demo.norm argsort Demo.qa_index "which battery"
              "Byh" "BYH" 1 H) as [Hsame Hlower].
  split; [exact Hsame|exact (Hlower Hascii)].
Defined.

Lemma extract_case_insensitive_witness :
  Text.is_ascii "Which BXH model" = true
  /\ ProductNameExtractor.extract (product_extractor Demo.system)
       (Text.lower "Which BXH model")
     = ProductNameExtractor.extract (product_extractor Demo.system) "Which BXH model".
Proof.
  assert (Text.is_ascii "Which BXH model" = true) as H by reflexivity.
  split; [exact H|].
  exact (proj1 (extract_case_insensitive (product_extractor Demo.system)
                  "Which BXH model" H)).
Defined.

Lemma extract_falls_back_to_suffixes_witness :
  (@None (list Product) = None \/ @None (list Product) = Some [])
  /\ match ProductNameExtractor.extract (ProductNameExtractor.init None)
             "the bzh model" with
     | Some s =>
         exists before after,
           ["BXH"; "BYH"; "BZH"] = before ++ s :: after
           /\ Text.contains (Text.upper "the bzh model") s = true
           /\ Forall (fun s' => Text.contains (Text.upper "the bzh model") s' = false)
                before
     | None =>
         Forall (fun s => Text.contains (Text.upper "the bzh model") s = false)
           ["BXH"; "BYH"; "BZH"]
     end.
Proof.
  split; [left; reflexivity|].
  exact (extract_falls_back_to_suffixes None "the bzh model" (or_introl eq_refl)).
Defined.

Lemma intent_tests_substring_match_witness :
  QueryFilter.is_comparison_query "compare" = true
  /\ Text.is_ascii "compare" = true
  /\ QueryFilter.is_comparison_query ("please " +:+ "compare" +:+ " them") = true
  /\ QueryFilter.is_comparison_query (Text.upper "compare")
     = QueryFilter.is_comparison_query "compare".
Proof.
  assert (QueryFilter.is_comparison_query "compare" = true) as H
    by (vm_compute; reflexivity).
  assert (Text.is_ascii "compare" = true) as Hascii by reflexivity.
  split; [exact H|]. split; [exact Hascii|].
  destruct (intent_tests_substring_match "please " "compare" " them")
    as (Hcase & Hext & _).
  split; [exact (Hext H)|exact (proj1 (Hcase Hascii))].
Defined.

Lemma product_list_keywords_shadowed_witness :
  "有哪些產品" ∈ QueryFilter.PRODUCT_LIST_KEYWORDS
  /\ Text.contains "有哪些產品" "產品" = true
  /\ Text.contains (Text.lower "AORUS 有哪些產品?") (Text.lower "有哪些產品") = true
  /\ QueryFilter.is_product_list_query "AORUS 有哪些產品?" = true
  /\ classify Demo.system "AORUS 有哪些產品?" = Comparison.
Proof.
  assert ("有哪些產品" ∈ QueryFilter.PRODUCT_LIST_KEYWORDS) as H1 by left.
  assert (Text.contains "有哪些產品" "產品" = true) as H2 by (vm_compute; reflexivity).
  assert (Text.contains (Text.lower "AORUS 有哪些產品?") (Text.lower "有哪些產品") = true)
    as H3 by (vm_compute; reflexivity).
  split; [exact H1|]. split; [exact H2|]. split; [exact H3|].
  destruct (product_list_keywords_shadowed Demo.system "AORUS 有哪些產品?" "有哪些產品"
              H1 H2 H3) as (Hlist & _ & Hmode & _).
  split; [exact Hlist|exact Hmode].
Defined.

Lemma chunk_text_keeps_spec_fields_witness :
  Samples.bxh ∈ Demo.catalog
  /\ Samples.bxh_cpu ∈ specs Samples.bxh
  /\ ConvertSpec.spec_chunk Samples.bxh Samples.bxh_cpu
     ∈ ConvertSpec.chunk_data Demo.catalog
  /\ Text.contains (content (ConvertSpec.spec_chunk Samples.bxh Samples.bxh_cpu))
       "Ultra 9" = true
  /\ Text.contains (content (ConvertSpec.full_specs_chunk Samples.bxh)) "CPU" = true.
Proof.
  assert (Samples.bxh ∈ Demo.catalog) as H1 by left.
  assert (Samples.bxh_cpu ∈ specs Samples.bxh) as H2 by left.
  split; [exact H1|]. split; [exact H2|].
  destruct (chunk_text_keeps_spec_fields Demo.catalog Samples.bxh Samples.bxh_cpu H1 H2)
    as ((Hin & _ & _ & _ & _ & _ & Hval) & (_ & _ & _ & Hkey & _)).
  split; [exact Hin|]. split; [exact Hval|exact Hkey].
Defined.

Lemma get_product_by_id_round_trip_witness :
  NoDup (map product_id Demo.catalog)
  /\ ConvertSpec.get_product_by_id Demo.catalog "aorus-master-16-bxh" = Some Samples.bxh.
Proof.
  assert (NoDup (map product_id Demo.catalog)) as H.
  { apply (bool_decide_unpack _). vm_compute. exact I. }
  assert (Samples.bxh ∈ Demo.catalog) as Hin by left.
  split; [exact H|].
  exact (proj2 (proj2 (get_product_by_id_round_trip Demo.catalog "aorus-master-16-bxh"))
           H Samples.bxh Hin).
Defined.

Lemma get_product_specs_lookup_witness :
  ConvertSpec.get_product_by_id Demo.catalog "aorus-master-16-bxh" = Some Samples.bxh
  /\ specs Samples.bxh = [] ++ Samples.bxh_cpu :: []
  /\ "processor cpu" ∈ spec_keys Samples.bxh_cpu
  /\ Forall (fun sp' => "processor cpu" ∉ spec_keys sp') []
  /\ ConvertSpec.get_product_specs Demo.catalog "aorus-master-16-bxh" !! "processor cpu"
     = Some "Ultra 9"
  /\ ConvertSpec.get_product_specs Demo.catalog "aorus-master-16-bzh" = ∅.
Proof.
  assert (ConvertSpec.get_product_by_id Demo.catalog "aorus-master-16-bxh"
          = Some Samples.bxh) as H1 by (vm_compute; reflexivity).
  assert (specs Samples.bxh = [] ++ Samples.bxh_cpu :: []) as H2 by reflexivity.
  assert ("processor cpu" ∈ spec_keys Samples.bxh_cpu) as H3 by (right; left).
  assert (Forall (fun sp' => "processor cpu" ∉ spec_keys sp') []) as H4 by constructor.
  split; [exact H1|]. split; [exact H2|]. split; [exact H3|]. split; [exact H4|].
  destruct (get_product_specs_lookup Demo.catalog "aorus-master-16-bxh" Samples.bxh
              [] Samples.bxh_cpu [] "processor cpu" H1 H2 H3 H4) as (Hk & _ & Hnone).
  split; [exact Hk|]. apply Hnone. vm_compute. reflexivity.
Defined.

Lemma specific_product_mode_is_restricted_witness :
  RAGSystem_init Demo.norm Demo.model Demo.catalog (Some Demo.qa_set)
  = (Ok Demo.system, Demo.system_trace)
  /\ classify Demo.system "bxh battery" = SpecificProduct "aorus-master-16-bxh"
  /\ exists out tr',
       _process_query Demo.norm argsort Demo.fmt Demo.system "bxh battery" = (Ok out, tr')
       /\ Forall (fun c => metadata c !! "product_id" = Some "aorus-master-16-bxh")
            (final_chunk_results out)
       /\ length (chunk_results out) <= 5
       /\ deterministic_facts out = [].
Proof.
  assert (RAGSystem_init Demo.norm Demo.model Demo.catalog (Some Demo.qa_set)
          = (Ok Demo.system, Demo.system_trace)) as Hinit by (vm_compute; reflexivity).
  assert (classify Demo.system "bxh battery" = SpecificProduct "aorus-master-16-bxh")
    as Hmode by (vm_compute; reflexivity).
  split; [exact Hinit|]. split; [exact Hmode|].
  destruct (specific_product_mode_is_restricted Demo.norm argsort Demo.fmt argsort_meets_contract _ _ _ _ _
              "bxh battery" "aorus-master-16-bxh" Hinit Hmode)
    as (_ & _ & _ & out & tr' & Hrun & _ & Hfinal & Hfive & Hfacts).
  exists out, tr'. split_and!; [exact Hrun|exact Hfinal|exact Hfive|exact Hfacts].
Defined.

Lemma process_query_evidence_witness :
  RAGSystem_init Demo.norm Demo.model Demo.catalog (Some Demo.qa_set)
  = (Ok Demo.system, Demo.system_trace)
  /\ exists out tr',
       _process_query Demo.norm argsort Demo.fmt Demo.system "battery life" = (Ok out, tr')
       /\ length tr' <= 2
       /\ final_chunk_results out `sublist_of` chunk_results out
       /\ length (qa_results out) <= 1
       /\ map ev_content (retrieval_metadata out)
          = map content (final_chunk_results out) ++ map qa_text (qa_results out).
Proof.
  assert (RAGSystem_init Demo.norm Demo.model Demo.catalog (Some Demo.qa_set)
          = (Ok Demo.system, Demo.system_trace)) as Hinit by (vm_compute; reflexivity).
  split; [exact Hinit|].
  destruct (process_query_evidence Demo.norm argsort Demo.fmt argsort_meets_contract _ _ _ _ _ "battery life" Hinit)
    as (out & tr' & Hrun & _ & Htr & _ & Hsub & _ & _ & Hqa & _ & _ & Hcontent & _).
  exists out, tr'. split_and!; [exact Hrun|exact Htr|exact Hsub|exact Hqa|exact Hcontent].
Defined.

Lemma startup_embeds_each_text_once_witness :
  Demo.catalog <> []
  /\ RAGSystem_init Demo.norm Demo.model [] (Some Demo.qa_set) = (Raise ValueError, [])
  /\ exists self,
       RAGSystem_init Demo.norm Demo.model Demo.catalog (Some Demo.qa_set)
       = (Ok self, Demo.system_trace)
       /\ chunks (index self) = rag_chunks self.
Proof.
  assert (Demo.catalog <> []) as H by discriminate.
  split; [exact H|].
  destruct (startup_embeds_each_text_once Demo.norm Demo.model Demo.catalog
              (Some Demo.qa_set) H) as (Hempty & self & Hrun & _ & Hchunks & _).
  split; [exact Hempty|]. exists self. split; [exact Hrun|exact Hchunks].
Defined.

Lemma product_id_is_a_slug_witness :
  Text.is_ascii "AORUS MASTER 16 BXH" = true
  /\ BuildKB.make_product_id "AORUS MASTER 16 BXH" = "aorus-master-16-bxh"
  /\ BuildKB.make_product_id (BuildKB.make_product_id "AORUS MASTER 16 BXH")
     = BuildKB.make_product_id "AORUS MASTER 16 BXH"
  /\ BuildKB.make_product_id (Text.upper "AORUS MASTER 16 BXH")
     = BuildKB.make_product_id "AORUS MASTER 16 BXH".
Proof.
  assert (Text.is_ascii "AORUS MASTER 16 BXH" = true) as H by reflexivity.
  split; [exact H|]. split; [reflexivity|].
  destruct (product_id_is_a_slug "AORUS MASTER 16 BXH") as (_ & _ & Hascii).
  destruct (Hascii H) as (_ & Hagain & Hupper & _).
  split; [exact Hagain|exact Hupper].
Defined.

Lemma built_id_routes_by_last_word_witness :
  Samples.raw_bxh ∈ Samples.raw_catalog
  /\ Text.is_ascii (raw_product_name Samples.raw_bxh) = true
  /\ raw_product_name Samples.raw_bxh = "AORUS MASTER 16" +:+ " " +:+ "BXH"
  /\ ~ In " "%char (list_ascii_of_string "BXH")
  /\ ~ In "-"%char (list_ascii_of_string "BXH")
  /\ Text.contains (Text.upper "bxh ports") (Text.upper "BXH") = true
  /\ ProductNameExtractor.suffix_of
       (BuildKB.make_product_id (raw_product_name Samples.raw_bxh)) = "BXH"
  /\ exists r',
       r' ∈ Samples.raw_catalog
       /\ ProductNameExtractor.extract
            (ProductNameExtractor.init
               (Some (BuildKB.integrate_and_simplify_specs Samples.raw_catalog)))
            "bxh ports"
          = Some (BuildKB.make_product_id (raw_product_name r')).
Proof.
  assert (Samples.raw_bxh ∈ Samples.raw_catalog) as H1 by left.
  assert (Text.is_ascii (raw_product_name Samples.raw_bxh) = true) as Hascii
    by reflexivity.
  assert (raw_product_name Samples.raw_bxh = "AORUS MASTER 16" +:+ " " +:+ "BXH") as H2
    by reflexivity.
  assert (~ In " "%char (list_ascii_of_string "BXH")) as H3
    by (simpl; intros [|[|[|[]]]]; discriminate).
  assert (~ In "-"%char (list_ascii_of_string "BXH")) as H4
    by (simpl; intros [|[|[|[]]]]; discriminate).
  assert (Text.contains (Text.upper "bxh ports") (Text.upper "BXH") = true) as H5
    by (vm_compute; reflexivity).
  split; [exact H1|]. split; [exact Hascii|]. split; [exact H2|]. split; [exact H3|].
  split; [exact H4|]. split; [exact H5|].
  destruct (built_id_routes_by_last_word Samples.raw_catalog Samples.raw_bxh
              "AORUS MASTER 16" "BXH" "bxh ports" H1 Hascii H2 H3 H4 H5)
    as (Hsuffix & r' & Hr' & Hextract & _).
  split; [exact Hsuffix|]. exists r'. split; [exact Hr'|exact Hextract].
Defined.

Lemma built_catalog_rollups_witness :
  Forall (fun r => Forall (fun s => raw_category s <> "Full Specs") (raw_specs r))
    Samples.raw_catalog
  /\ length (ConvertSpec.chunk_data
               (BuildKB.integrate_and_simplify_specs Samples.raw_catalog)) = 5
  /\ List.filter is_full_specs
       (ConvertSpec.chunk_data (BuildKB.integrate_and_simplify_specs Samples.raw_catalog))
     = map ConvertSpec.full_specs_chunk
         (BuildKB.integrate_and_simplify_specs Samples.raw_catalog).
Proof.
  assert (Forall (fun r => Forall (fun s => raw_category s <> "Full Specs") (raw_specs r))
            Samples.raw_catalog) as H by (repeat constructor; discriminate).
  split; [exact H|].
  destruct (built_catalog_rollups Samples.raw_catalog H) as (Hlen & Hroll & _).
  split; [exact Hlen|exact Hroll].
Defined.

Lemma context_string_sections_witness :
  RAGSystem_init Demo.norm Demo.model Demo.catalog (Some Demo.qa_set)
  = (Ok Demo.system, Demo.system_trace)
  /\ exists out tr',
       _process_query Demo.norm argsort Demo.fmt Demo.system "list products please"
       = (Ok out, tr')
       /\ Text.contains (context_str out) "[QA Database]" = true
       /\ Forall (fun p => Text.contains (context_str out) (p_product_name p) = true)
            Demo.catalog.
Proof.
  assert (RAGSystem_init Demo.norm Demo.model Demo.catalog (Some Demo.qa_set)
          = (Ok Demo.system, Demo.system_trace)) as Hinit by (vm_compute; reflexivity).
  split; [exact Hinit|].
  destruct (context_string_sections Demo.norm argsort Demo.fmt argsort_meets_contract _ _ _ _ _
              "list products please" Hinit)
    as (out & tr' & Hrun & _ & _ & Hqa & Hmode).
  assert (classify Demo.system "list products please" = ProductList) as Hlist
    by (vm_compute; reflexivity).
  rewrite Hlist in Hmode. destruct Hmode as [_ Hnames].
  exists out, tr'. split_and!; [exact Hrun|exact Hqa|exact Hnames].
Defined.
